(** * GSML1FEC: the GSM Layer-1 FEC core of OpenBTS / Osmo-USRP

    A shallow embedding of the parts of [public-trunk/GSM/GSML1FEC.cpp]
    that carry the power-control tables, the block interleavers, the
    base decoder life cycle, the RACH detector, the SACCH control loop,
    the TCH/FACCH dispatcher and the TCH bad-frame substitution, followed
    by the properties established about them.

    Conventions of the embedding.
    - C [int] and [unsigned] values are integers of [Z]; [%] and [/] are
      [Z.rem] and [Z.quot] (C truncates towards zero); where the source
      truncates to 32 bits the reduction is written out.
    - C [float] values are carried by rationals of [Q].  The arithmetic
      on measurements and orders (the timing advance of the RACH and XCCH
      decoders, the XCCH means, the SACCH closed loop and its physical
      header) rounds as IEEE 754 binary32 does, see [Binary32].  Soft
      bits are only copied and compared; the frame error rate is computed
      with exact arithmetic.  The model has neither NaN nor infinities.
    - [BitVector], [SoftVector] and C arrays are lists, read and written by
      index with stdpp's lookup and insert.  Every index the modelled
      loops produce is in range; a read out of range yields a default.
    - [assert] failing aborts the process: the function returns [None]. *)

From Stdlib Require Import ZArith QArith Qround Qabs Qpower Bool List Lia Lqa.
From Stdlib Require String Ascii.
From stdpp Require Import base option list.

Local Open Scope Z_scope.

(** ** Bit vectors *)

Module BitVector.

(** Modelled from the spec: [BitVector::peekField(readIndex, length)] is
    declared outside this file's source; section 3 of the specification
    describes it as reading a packed field at a bit offset, and the fields
    of the pipeline are MSB-first. *)
Definition field_of_bits (bs : list bool) : Z :=
  fold_left (fun acc (b : bool) => 2 * acc + (if b then 1 else 0)) bs 0.

Definition peekField (v : list bool) (readIndex len : nat) : Z :=
  field_of_bits (take len (drop readIndex v)).

(** Modelled from the spec: [BitVector::LSB8MSB()] swaps the bit order
    within each octet; bits after the last whole octet stay in place. *)
Fixpoint LSB8MSB_fuel (n : nat) (v : list bool) : list bool :=
  match n with
  | O => v
  | S n' =>
      if (length v <? 8)%nat then v
      else rev (take 8 v) ++ LSB8MSB_fuel n' (drop 8 v)
  end.

Definition LSB8MSB (v : list bool) : list bool := LSB8MSB_fuel (length v) v.

(** Modelled from the spec: [copyToSegment(other, start)] overwrites the
    cells of [other] from [start] on with the cells of this vector. *)
Definition copyToSegment {A} (src other : list A) (start : nat) : list A :=
  list_inserts start src other.

End BitVector.

(** ** Power control codes, GSM 05.05 4.1.1 *)

Module Power.

Definition powerCommandLowBand : list Z :=
  [ 39; 39; 39; 37;
    35; 33; 31; 29;
    27; 25; 23; 21;
    19; 17; 15; 13;
    11; 9; 7; 5;
    5; 5; 5; 5;
    5; 5; 5; 5;
    5; 5; 5; 5 ].

Definition powerCommand1800 : list Z :=
  [ 30; 28; 26; 24;
    22; 20; 18; 16;
    14; 12; 10; 8;
    6; 4; 2; 0;
    0; 0; 0; 0;
    0; 0; 0; 0;
    0; 0; 0; 0;
    0; 36; 24; 23 ].

Definition powerCommand1900 : list Z :=
  [ 30; 28; 26; 24;
    22; 20; 18; 16;
    14; 12; 10; 8;
    6; 4; 2; 0;
    0; 0; 0; 0;
    0; 0; 0; 0;
    0; 0; 0; 0;
    0; 0; 0; 0 ].

(** The band enumeration is declared in a header; the switch of
    [pickTable] names four bands and sends every other value to
    [default: return NULL]. *)
Inductive GSMBand := GSM850 | EGSM900 | DCS1800 | PCS1900 | OtherBand.

Definition pickTable (band : GSMBand) : option (list Z) :=
  match band with
  | GSM850 | EGSM900 => Some powerCommandLowBand
  | DCS1800 => Some powerCommand1800
  | PCS1900 => Some powerCommand1900
  | OtherBand => None
  end.

(** [table[i]] for an index of the table. *)
Definition at_code (table : list Z) (i : Z) : Z :=
  default 0 (table !! Z.to_nat i).

(** [decodePower]: [assert(table); return table[code];]  The source reads
    outside the table for a code above 31; the model answers [None]. *)
Definition decodePower (band : GSMBand) (code : Z) : option Z :=
  table ← pickTable band;
  if (0 <=? code) && (code <? 32) then Some (at_code table code) else None.

(** An [int] after an operation that wraps around on 32 bits. *)
Definition wrap32 (z : Z) : Z := (z + 2 ^ 31) mod 2 ^ 32 - 2 ^ 31.

(** [abs(power - table[i])] stored in an [unsigned]: the difference and
    its absolute value are [int] and wrap around, [abs] of the least
    [int] being that [int] again; the result is read as [unsigned]. *)
Definition err32 (table : list Z) (power i : Z) : Z :=
  wrap32 (Z.abs (wrap32 (power - at_code table i))) mod 2 ^ 32.

(** The body of [for (int i=1; i<32; i++)]; [n] counts the iterations
    that remain. *)
Fixpoint encodePower_loop (table : list Z) (power : Z) (n : nat)
         (i : Z) (minErr code : Z) : Z :=
  match n with
  | O => code
  | S n' =>
      let thisErr := err32 table power i in
      if thisErr =? 0 then i
      else if thisErr <? minErr
           then encodePower_loop table power n' (i + 1) thisErr i
           else encodePower_loop table power n' (i + 1) minErr code
  end.

Definition encodePower_table (table : list Z) (power : Z) : Z :=
  encodePower_loop table power 31 1 (err32 table power 0) 0.

(** [encodePower]: given a power level in dBm, an [int], encode the
    control code. *)
Definition encodePower (band : GSMBand) (power : Z) : option Z :=
  table ← pickTable band; Some (encodePower_table table power).

(** The claim of the specification about ties: the result is a code of
    least distance and no lower code has the same distance. *)
Definition first_arg_min (table : list Z) (power code : Z) : Prop :=
  0 <= code < 32 /\
  (forall i, 0 <= i < 32 ->
     Z.abs (power - at_code table code) <= Z.abs (power - at_code table i)) /\
  (forall i, 0 <= i < code ->
     Z.abs (power - at_code table code) < Z.abs (power - at_code table i)).

End Power.

(** ** Bursts *)

Record Time := mkTime { FN : Z; TN : Z }.

(** Modelled from the spec: [RxBurst] is declared in a header.  Section 3
    of the specification gives its layout: 148 soft bits, [data1] at
    positions 3..59, [data2] at 88..144, the stealing flags [Hl] and [Hu]
    at 60 and 87, a receive time, an RSSI and a timing error. *)
Record RxBurst := mkRxBurst {
  bits : list Q;
  time : Time;
  RSSI : Q;
  timingError : Q
}.

Definition half : Q := 1 # 2.

(** The conversion [(int)x] of a [float]: truncation towards zero. *)
Definition Qtruncate (x : Q) : Z := Z.quot (Qnum x) (Zpos (Qden x)).

(** ** Single precision *)

(** [float] is IEEE 754 binary32.  A finite [float] is carried by the
    rational number it stands for, and an operation of the source is the
    exact operation followed by [round]: rounding to nearest, ties to
    even, on 24 bits with the least exponent -149.  Results of magnitude
    2^128 and more, for which binary32 has the infinities, are kept as
    rounded: the model follows the code as long as no intermediate
    result overflows. *)
Module Binary32.

(** [|x| < 2^e] *)
Definition below (x : Q) (e : Z) : bool :=
  match (Qabs x ?= 2 ^ e)%Q with Lt => true | _ => false end.

(** The exponent of the last place of the binary32 numbers around [x]:
    the least [q >= -149] with [|x| < 2^(24+q)]. *)
Fixpoint ulp_exponent_from (fuel : nat) (q : Z) (x : Q) : Z :=
  match fuel with
  | O => q
  | S fuel' =>
      if below x (24 + q) then q else ulp_exponent_from fuel' (q + 1) x
  end.

Definition ulp_exponent (x : Q) : Z := ulp_exponent_from 254 (-149) x.

(** The integer nearest to [y], the even one of two that are as near. *)
Definition nearest_even (y : Q) : Z :=
  let f := Qfloor y in
  match (y - inject_Z f ?= 1 # 2)%Q with
  | Lt => f
  | Gt => f + 1
  | Eq => if Z.even f then f else f + 1
  end.

Definition round (x : Q) : Q :=
  let q := ulp_exponent x in
  Qred (inject_Z (nearest_even (x / 2 ^ q)) * 2 ^ q).

Definition add (x y : Q) : Q := round (x + y).
Definition sub (x y : Q) : Q := round (x - y).
Definition mul (x y : Q) : Q := round (x * y).

(** An integer converted to [float]. *)
Definition of_int (n : Z) : Q := round (inject_Z n).

(** [(int)x]: truncation towards zero.  For a value outside the range
    of [int] the conversion is undefined in C++; the model answers the
    least [int], which is what the conversion instruction of x86
    gives. *)
Definition to_int (x : Q) : Z :=
  let t := Qtruncate x in
  if (- 2 ^ 31 <=? t) && (t <? 2 ^ 31) then t else - 2 ^ 31.

(** The literals [0.5F], [0.25F] and [0.01F]; the first two are binary32
    numbers, the third is rounded. *)
Definition c_0_5 : Q := 1 # 2.
Definition c_0_25 : Q := 1 # 4.
Definition c_0_01 : Q := round (1 # 100).

End Binary32.

Definition segment {A} (v : list A) (start len : nat) : list A :=
  take len (drop start v).

Definition data1 (b : RxBurst) : list Q := segment (bits b) 3 57.
Definition data2 (b : RxBurst) : list Q := segment (bits b) 88 57.

(** A soft bit read as a hard bit: the threshold is 0.5. *)
Definition hard (x : Q) : bool :=
  match (x ?= half)%Q with Gt => true | _ => false end.

(** A hard bit received without noise. *)
Definition soft_of_bit (b : bool) : Q := if b then 1%Q else 0%Q.

Definition Hl (b : RxBurst) : bool := hard (nth 60 (bits b) 0%Q).
Definition Hu (b : RxBurst) : bool := hard (nth 87 (bits b) 0%Q).

(** ** Interleaving, GSM 05.03 4.1.4 and 3.1.3 *)

Module Interleave.

(** [int j = 2*((49*k) % 57) + ((k%8)/4);] *)
Definition j_of (k : Z) : Z :=
  2 * Z.rem (49 * k) 57 + Z.quot (Z.rem k 8) 4.

(** [int B = k%4;] of the XCCH coder. *)
Definition B_XCCH (k : Z) : Z := Z.rem k 4.

(** [int B = ( k + blockOffset ) % 8;] of the TCH coder. *)
Definition B_TCH (blockOffset k : Z) : Z := Z.rem (k + blockOffset) 8.

Definition index_XCCH (k : Z) : Z * Z := (B_XCCH k, j_of k).
Definition index_TCH (blockOffset k : Z) : Z * Z :=
  (B_TCH blockOffset k, j_of k).

(** The loop counter [k] of [for (int k=0; k<456; k++)]. *)
Definition ks : list Z := seqZ 0 456.

(** [m[B][j]] and [m[B][j] = v] on an array of rows. *)
Definition get2 {A} (d : A) (m : list (list A)) (B j : Z) : A :=
  default d (row ← m !! Z.to_nat B; row !! Z.to_nat j).

Definition set2 {A} (m : list (list A)) (B j : Z) (v : A) : list (list A) :=
  alter (fun row => <[Z.to_nat j := v]> row) (Z.to_nat B) m.

(** [mC[k]] of a bit vector. *)
Definition bit_at (c : list bool) (k : Z) : bool :=
  default false (c !! Z.to_nat k).

(** One turn of the encoder's loop: [mI[B][j] = mC[k];] *)
Definition interleave_step (index : Z -> Z * Z) (mC : list bool)
           (mI : list (list bool)) (k : Z) : list (list bool) :=
  let '(B, j) := index k in
  set2 mI B j (bit_at mC k).

Definition interleave (index : Z -> Z * Z) (mC : list bool)
           (mI : list (list bool)) : list (list bool) :=
  fold_left (interleave_step index mC) ks mI.

(** One turn of the decoder's loop:
    [mC[k] = mI[B][j]; mI[B][j] = 0.5F;] *)
Definition deinterleave_step (index : Z -> Z * Z)
           (st : list Q * list (list Q)) (k : Z) : list Q * list (list Q) :=
  let '(mC, mI) := st in
  let '(B, j) := index k in
  (<[Z.to_nat k := get2 0%Q mI B j]> mC, set2 mI B j half).

Definition deinterleave_upto (index : Z -> Z * Z) (n : nat)
           (st : list Q * list (list Q)) : list Q * list (list Q) :=
  fold_left (deinterleave_step index) (seqZ 0 (Z.of_nat n)) st.

Definition deinterleave (index : Z -> Z * Z)
           (st : list Q * list (list Q)) : list Q * list (list Q) :=
  fold_left (deinterleave_step index) ks st.

(** What the specification claims of an index map: the pairs it yields
    over [k] in [0, 456) are exactly [0, rows) x [0, 114). *)
Definition image_is_grid (index : Z -> Z * Z) (rows : Z) : Prop :=
  forall B j,
    (exists k, 0 <= k < 456 /\ index k = (B, j)) <->
    (0 <= B < rows /\ 0 <= j < 114).

Definition injective_on_block (index : Z -> Z * Z) : Prop :=
  forall k k', 0 <= k < 456 -> 0 <= k' < 456 -> index k = index k' -> k = k'.

End Interleave.

Module XCCHL1Encoder.

(** [XCCHL1Encoder::interleave]: [c[]] to [i[][]], four rows. *)
Definition interleave (mC : list bool) (mI : list (list bool)) :=
  Interleave.interleave Interleave.index_XCCH mC mI.

End XCCHL1Encoder.


(** ** The burst-collecting state of the XCCH and TCH/FACCH decoders *)

Record DeinterleaverState := mkDeint {
  mI : list (list Q);          (* 4 rows of 114 (XCCH), 8 rows (TCH/FACCH) *)
  mC : list Q;                 (* 456 soft bits *)
  mRSSI : list Q;              (* 4 *)
  mTimingError : list Q;       (* 4 *)
  mRSSICounter : Z;
  mPhyNew : bool;
  mReadTime : Time
}.

(** The part shared by both [processBurst] bodies: the physical
    parameters of the burst and the roll of [mRSSICounter]. *)
Definition recordPhy (b : RxBurst) (st : DeinterleaverState) : DeinterleaverState :=
  let c := mRSSICounter st in
  {| mI := mI st; mC := mC st;
     mRSSI := <[Z.to_nat c := RSSI b]> (mRSSI st);
     mTimingError := <[Z.to_nat c := timingError b]> (mTimingError st);
     mRSSICounter := if c + 1 >? 3 then 0 else c + 1;
     mPhyNew := true;
     mReadTime := mReadTime st |}.

(** [inBurst.data1().copyToSegment(mI[B],0);
     inBurst.data2().copyToSegment(mI[B],57);] *)
Definition storeBurst (B : Z) (b : RxBurst) (rows : list (list Q)) : list (list Q) :=
  alter (fun row =>
           BitVector.copyToSegment (data2 b)
             (BitVector.copyToSegment (data1 b) row 0) 57)
        (Z.to_nat B) rows.

Definition with_rows (st : DeinterleaverState) (rows : list (list Q)) :=
  {| mI := rows; mC := mC st; mRSSI := mRSSI st;
     mTimingError := mTimingError st; mRSSICounter := mRSSICounter st;
     mPhyNew := mPhyNew st; mReadTime := mReadTime st |}.

Definition with_readTime (st : DeinterleaverState) (t : Time) :=
  {| mI := mI st; mC := mC st; mRSSI := mRSSI st;
     mTimingError := mTimingError st; mRSSICounter := mRSSICounter st;
     mPhyNew := mPhyNew st; mReadTime := t |}.

Definition with_deinterleaved (st : DeinterleaverState)
           (r : list Q * list (list Q)) :=
  {| mI := snd r; mC := fst r; mRSSI := mRSSI st;
     mTimingError := mTimingError st; mRSSICounter := mRSSICounter st;
     mPhyNew := mPhyNew st; mReadTime := mReadTime st |}.

(** The buffers as the constructors allocate them: [rows] soft vectors of
    114 cells and 456 cells of [c[]]. *)
Definition shape_ok {A} (rows : nat) (m : list (list A)) : Prop :=
  length m = rows /\ Forall (fun row => length row = 114%nat) m.

Definition well_formed (rows : nat) (st : DeinterleaverState) : Prop :=
  length (mC st) = 456%nat /\ shape_ok rows (mI st).

Module XCCHL1Decoder.

(** [XCCHL1Decoder::processBurst].  [reverseMapping] is the lookup of the
    channel's TDMA mapping; a negative [B] fails the assertion. *)
Definition processBurst (reverseMapping : Z -> Z) (inBurst : RxBurst)
           (st : DeinterleaverState) : option (bool * DeinterleaverState) :=
  let st1 := recordPhy inBurst st in
  let B := Z.rem (reverseMapping (FN (time inBurst))) 4 in
  if B <? 0 then None
  else
    let st2 := with_rows st1 (storeBurst B inBurst (mI st1)) in
    let st3 := if B =? 0 then with_readTime st2 (time inBurst) else st2 in
    Some (B =? 3, st3).

(** [XCCHL1Decoder::deinterleave]. *)
Definition deinterleave (st : DeinterleaverState) : DeinterleaverState :=
  with_deinterleaved st
    (Interleave.deinterleave Interleave.index_XCCH (mC st, mI st)).

(** The first part of [XCCHL1Decoder::writeLowSide] on an active
    channel, [processBurst] and [deinterleave], up to the soft bits [mC]
    handed to the convolutional decoder; the result tells whether a frame
    was deinterleaved.  [writeLowSide] below goes on to [decode()] and
    [handleGoodFrame()]. *)
Definition writeLowSide_collect (reverseMapping : Z -> Z) (inBurst : RxBurst)
           (st : DeinterleaverState) : option (bool * DeinterleaverState) :=
  '(ready, st') ← processBurst reverseMapping inBurst st;
  if ready : bool then Some (true, deinterleave st') else Some (false, st').

(** A run of bursts through that first part. *)
Fixpoint writeLowSide_run (reverseMapping : Z -> Z) (bursts : list RxBurst)
         (st : DeinterleaverState) : option DeinterleaverState :=
  match bursts with
  | [] => Some st
  | b :: bs =>
      '(_, st') ← writeLowSide_collect reverseMapping b st;
      writeLowSide_run reverseMapping bs st'
  end.

Definition clearPhyNew (st : DeinterleaverState) : DeinterleaverState :=
  {| mI := mI st; mC := mC st; mRSSI := mRSSI st;
     mTimingError := mTimingError st; mRSSICounter := mRSSICounter st;
     mPhyNew := false; mReadTime := mReadTime st |}.

(** [float sum = v[0]+v[1]+v[2]+v[3];], three additions from the left. *)
Definition sum4 (v : list Q) : Q :=
  Binary32.add
    (Binary32.add (Binary32.add (nth 0 v 0%Q) (nth 1 v 0%Q)) (nth 2 v 0%Q))
    (nth 3 v 0%Q).

(** [XCCHL1Decoder::RSSI] and [XCCHL1Decoder::timingError]:
    [0.25F*sum], the mean of the four entries; reading it clears
    [mPhyNew]. *)
Definition RSSI (st : DeinterleaverState) : Q * DeinterleaverState :=
  (Binary32.mul Binary32.c_0_25 (sum4 (mRSSI st)), clearPhyNew st).

Definition timingError (st : DeinterleaverState) : Q * DeinterleaverState :=
  (Binary32.mul Binary32.c_0_25 (sum4 (mTimingError st)), clearPhyNew st).

(** [XCCHL1Decoder::TA]: [(int)(timingError() + 0.5F)] clamped to
    0..63. *)
Definition TA (st : DeinterleaverState) : Z * DeinterleaverState :=
  let '(te, st') := timingError st in
  let TA := Binary32.to_int (Binary32.add te Binary32.c_0_5) in
  let TA := if TA <? 0 then 0 else TA in
  ((if TA >? 63 then 63 else TA), st').

(** What [XCCHL1Decoder::handleGoodFrame] does to the burst-collecting
    state: with an upstream connected the upcall takes [RSSI()] and
    [TA()] as arguments, and reading them clears [mPhyNew]; without one
    nothing is read.  The result holds the two values passed up.  The
    timers belong to the base decoder. *)
Definition handleGoodFrame (upstream : bool) (st : DeinterleaverState)
  : option (Q * Z) * DeinterleaverState :=
  if upstream then
    let '(rssi, st1) := RSSI st in
    let '(ta, st2) := TA st1 in
    (Some (rssi, ta), st2)
  else (None, st).

(** [XCCHL1Decoder::writeLowSide] on an active channel, as far as the
    burst-collecting state goes.  [decode] tells what [decode()] returns
    for the soft bits [mC]: the convolutional decoder and the parity
    check live outside this file, and [mU] and the frame counters are
    not part of this state. *)
Definition writeLowSide (reverseMapping : Z -> Z) (decode : list Q -> bool)
           (upstream : bool) (inBurst : RxBurst) (st : DeinterleaverState)
  : option (option (Q * Z) * DeinterleaverState) :=
  '(ready, st1) ← processBurst reverseMapping inBurst st;
  if ready : bool then
    let st2 := deinterleave st1 in
    if decode (mC st2) then Some (handleGoodFrame upstream st2)
    else Some (None, st2)
  else Some (None, st1).

(** A run of bursts through [writeLowSide]: what each burst passed up,
    and the state at the end. *)
Fixpoint writeLowSide_bursts (reverseMapping : Z -> Z)
         (decode : list Q -> bool) (upstream : bool)
         (bursts : list RxBurst) (st : DeinterleaverState)
  : option (list (option (Q * Z)) * DeinterleaverState) :=
  match bursts with
  | [] => Some ([], st)
  | b :: bs =>
      '(up, st') ← writeLowSide reverseMapping decode upstream b st;
      '(ups, st'') ← writeLowSide_bursts reverseMapping decode upstream bs st';
      Some (up :: ups, st'')
  end.

End XCCHL1Decoder.

Module TCHFACCHL1Decoder.

(** [TCHFACCHL1Decoder::deinterleave(int blockOffset)]. *)
Definition deinterleave (blockOffset : Z) (st : DeinterleaverState)
  : DeinterleaverState :=
  with_deinterleaved st
    (Interleave.deinterleave (Interleave.index_TCH blockOffset) (mC st, mI st)).

(** [if (B==3) deinterleave(4); else deinterleave(0);] *)
Definition blockOffset_of (B : Z) : Z := if B =? 3 then 4 else 0.

(** [TCHFACCHL1Decoder::processBurst] up to and including the
    deinterleaving; the FEC decoding that follows it in the source works
    on the [mC] left here.  The second component of the result is the
    block offset handed to [deinterleave], when it was called. *)
Definition processBurst (reverseMapping : Z -> Z) (inBurst : RxBurst)
           (st : DeinterleaverState)
  : option (option Z * DeinterleaverState) :=
  let st1 := recordPhy inBurst st in
  let B := Z.rem (reverseMapping (FN (time inBurst))) 8 in
  if B <? 0 then None
  else
    let st2 := with_rows st1 (storeBurst B inBurst (mI st1)) in
    if negb (Z.rem B 4 =? 3) then Some (None, st2)
    else
      Some (Some (blockOffset_of B), deinterleave (blockOffset_of B) st2).

(** A run of bursts through [processBurst]; the block offsets of the
    deinterleaved frames are collected in arrival order. *)
Fixpoint processBursts (reverseMapping : Z -> Z) (bursts : list RxBurst)
         (st : DeinterleaverState) : option (list Z * DeinterleaverState) :=
  match bursts with
  | [] => Some ([], st)
  | b :: bs =>
      '(o, st1) ← processBurst reverseMapping b st;
      '(os, st2) ← processBursts reverseMapping bs st1;
      Some (match o with Some off => off :: os | None => os end, st2)
  end.

(** *** Speech frames and bad-frame substitution, GSM 06.11 *)

(** [unsigned char mPrevGoodFrame[33]]: bytes are integers in 0..255. *)
Definition byte_at (frame : list Z) (i : Z) : Z :=
  default 0 (frame !! Z.to_nat i).

(** [char rawByte = mPrevGoodFrame[27];] with [char] signed. *)
Definition to_char (b : Z) : Z := if b >=? 128 then b - 256 else b.

(** The store of an [int] into an [unsigned char]. *)
Definition to_uchar (v : Z) : Z := v mod 256.

(** [if (xmaxc>2) xmaxc -= 2; else xmaxc = 0;] *)
Definition attenuate (xmaxc : Z) : Z := if xmaxc >? 2 then xmaxc - 2 else 0.

(** One turn of [for (unsigned i=0; i<4; i++)]; [random] gives the value
    [random()] returns in turn [i]. *)
Definition mute_step (rawByte xmaxc : Z) (random : Z -> Z)
           (frame : list Z) (i : Z) : list Z :=
  let pos := Z.rem (random i) 4 in
  let frame1 :=
    <[Z.to_nat (6 + 7 * i) :=
        to_uchar (Z.lor (Z.lor (Z.land rawByte 128) pos) xmaxc)]> frame in
  <[Z.to_nat (7 + 7 * i) := Z.land (byte_at frame1 (7 + 7 * i)) 127]> frame1.

(** The body of [if (!good)] up to the [memcpy]: the new content of
    [mPrevGoodFrame]. *)
Definition muteFrame (random : Z -> Z) (mPrevGoodFrame : list Z) : list Z :=
  let rawByte := to_char (byte_at mPrevGoodFrame 27) in
  let xmaxc := attenuate (Z.land rawByte 31) in
  fold_left (mute_step rawByte xmaxc random) [0; 1; 2; 3] mPrevGoodFrame.

(** The five-bit field [rawByte & 0x01f] of byte 27 that the next bad
    frame reads as [xmaxc]. *)
Definition xmaxc_field (frame : list Z) : Z :=
  Z.land (to_char (byte_at frame 27)) 31.

Record TCHResult := mkTCHResult {
  good : bool;
  toSpeech : option (list Z);      (* the frame of [writeLowSideTCH] *)
  prevGoodFrame : list Z           (* [mPrevGoodFrame] on return *)
}.

(** [TCHFACCHL1Decoder::decodeTCH].  [fec] stands for the Viterbi decoding,
    the parity and tail checks and the repacking of the payload, all
    applied to [c[]] by classes outside this file: [Some f] when the
    checks pass, with [f] the 33 packed bytes. *)
Definition decodeTCH (fec : option (list Z)) (random : Z -> Z)
           (stolen : bool) (mPrevGoodFrame : list Z) : TCHResult :=
  let '(good1, newFrame1, prev1) :=
    if negb stolen then
      match fec with
      | Some f => (true, f, f)
      | None => (false, [], mPrevGoodFrame)
      end
    else (false, [], mPrevGoodFrame) in
  let '(newFrame2, prev2) :=
    if negb good1 then
      let m := muteFrame random prev1 in (m, m)
    else (newFrame1, prev1) in
  {| good := good1;
     toSpeech := if negb stolen then Some newFrame2 else None;
     prevGoodFrame := prev2 |}.

(** Consecutive bad frames: [decodeTCH] called once per element of
    [randoms] with a failed check; the frames sent to the speech channel
    and the final buffer. *)
Fixpoint badFrames (randoms : list (Z -> Z)) (mPrevGoodFrame : list Z)
  : list (list Z) * list Z :=
  match randoms with
  | [] => ([], mPrevGoodFrame)
  | r :: rs =>
      let res := decodeTCH None r false mPrevGoodFrame in
      let '(outs, final) := badFrames rs (prevGoodFrame res) in
      (match toSpeech res with Some f => f :: outs | None => outs end, final)
  end.

End TCHFACCHL1Decoder.

(** ** The base decoder: life cycle, timers, frame error rate *)

(** [Z100Timer] is declared in a header; the decoder uses it through
    [set], [reset], [active] and [expired], the last two read at the
    instant of the call. *)
Class Z100Timer (T : Type) := {
  timer_set : T -> T;
  timer_reset : T -> T;
  timer_active : T -> bool;
  timer_expired : T -> bool
}.

Module L1Decoder.
Section WithTimer.
Context {T : Type} `{Z100Timer T}.

Record State := mkState {
  mRunning : bool;
  mActive : bool;
  mFER : Q;
  mT3101 : T;
  mT3109 : T;
  mT3111 : T
}.

(** [L1Decoder::open] *)
Definition open (st : State) : State :=
  {| mRunning := true;
     mActive := true;
     mFER := 0;
     mT3101 := timer_set (mT3101 st);
     mT3109 := timer_reset (mT3109 st);
     mT3111 := timer_reset (mT3111 st) |}.

(** [L1Decoder::close] *)
Definition close (st : State) : State :=
  {| mRunning := mRunning st;
     mActive := false;
     mFER := mFER st;
     mT3101 := timer_reset (mT3101 st);
     mT3109 := timer_reset (mT3109 st);
     mT3111 := timer_set (mT3111 st) |}.

(** [L1Decoder::recyclable] *)
Definition recyclable (st : State) : bool :=
  timer_expired (mT3101 st) || timer_expired (mT3109 st)
  || timer_expired (mT3111 st).

(** [L1Decoder::active] *)
Definition active (st : State) : bool :=
  mActive st && negb (recyclable st).

Definition with_FER (st : State) (fer : Q) : State :=
  {| mRunning := mRunning st; mActive := mActive st; mFER := fer;
     mT3101 := mT3101 st; mT3109 := mT3109 st; mT3111 := mT3111 st |}.

(** [L1Decoder::countGoodFrame] and [countBadFrame]; [mFERMemory] is a
    constant of the class declaration. *)
Definition countGoodFrame (mFERMemory : Z) (st : State) : State :=
  let a := (1 / inject_Z mFERMemory)%Q in
  let b := (1 - a)%Q in
  with_FER st (mFER st * b)%Q.

Definition countBadFrame (mFERMemory : Z) (st : State) : State :=
  let a := (1 / inject_Z mFERMemory)%Q in
  let b := (1 - a)%Q in
  with_FER st (b * mFER st + a)%Q.

End WithTimer.
Arguments State T : clear implicits.
End L1Decoder.

(** ** Layer 2 frames and the upstream interface *)

Inductive Primitive := DATA | ESTABLISH | RELEASE | ERROR.

(** Modelled from the spec: [L2Frame] is declared in a header; section 6
    of the specification describes it as a primitive tag and a bit
    payload.  [L2Frame(bits, prim)] carries [bits] as its payload. *)
Record L2Frame := mkL2Frame {
  payload : list bool;
  primitive : Primitive
}.

(** The arguments of one call [mUpstream->writeLowSide(frame, time, RSSI,
    TA, FER)]. *)
Record LowSideCall := mkLowSideCall {
  up_frame : L2Frame;
  up_time : Time;
  up_RSSI : Q;
  up_TA : Z;
  up_FER : Q
}.

(** ** The RACH decoder, GSM 05.03 4.6 *)

Module RACHL1Decoder.
Section WithTimer.
Context {T : Type} `{Z100Timer T}.

(** What [writeLowSide] takes from outside this file: the Viterbi
    decoder behind [e.decode(mVCoder, mU)], the block coder behind
    [mD.parity(mParity)], the configured BSIC and [mFERMemory]. *)
Record Env := mkEnv {
  decode : list Q -> list bool;
  parity : list bool -> Z;
  BSIC : Z;
  mFERMemory : Z
}.

Record State := mkState {
  base : L1Decoder.State T;
  mU : list bool              (* 18 bits; [mD] is its 8-bit head *)
}.

Definition mD (u : list bool) : list bool := take 8 u.

(** [mD.LSB8MSB()] writes through the view [mD] into [mU]. *)
Definition LSB8MSB_mD (u : list bool) : list bool :=
  BitVector.LSB8MSB (mD u) ++ drop 8 u.

Definition sentParity (u : list bool) : Z :=
  Z.lnot (BitVector.peekField u 8 6) mod 2 ^ 32.

Definition checkParity (env : Env) (u : list bool) : Z :=
  parity env (mD u) mod 2 ^ 32.

Definition encodedBSIC (env : Env) (u : list bool) : Z :=
  Z.land (Z.lxor (sentParity u) (checkParity env u)) 63.

(** [int initialTA = (int)(burst.timingError() + 0.5F);] then the two
    clamping tests. *)
Definition initialTA (burst : RxBurst) : Z :=
  let TA := Binary32.to_int
              (Binary32.add (timingError burst) Binary32.c_0_5) in
  let TA := if TA <? 0 then 0 else TA in
  if TA >? 63 then 63 else TA.

(** [RACHL1Decoder::writeLowSide] with an upstream SAP connected (the
    source asserts it): the new state and the call made on the upstream
    SAP, if any. *)
Definition writeLowSide (env : Env) (burst : RxBurst) (st : State)
  : State * option LowSideCall :=
  let e := segment (bits burst) 49 36 in
  let u := decode env e in
  if negb (BitVector.peekField u 14 4 =? 0) then
    ({| base := L1Decoder.countBadFrame (mFERMemory env) (base st);
        mU := u |}, None)
  else if negb (encodedBSIC env u =? BSIC env) then
    ({| base := L1Decoder.countBadFrame (mFERMemory env) (base st);
        mU := u |}, None)
  else
    let base' := L1Decoder.countGoodFrame (mFERMemory env) (base st) in
    let u' := LSB8MSB_mD u in
    ({| base := base'; mU := u' |},
     Some {| up_frame := mkL2Frame (mD u') DATA;
             up_time := time burst;
             up_RSSI := RSSI burst;
             up_TA := initialTA burst;
             up_FER := L1Decoder.mFER base' |}).

End WithTimer.
Arguments State T : clear implicits.
End RACHL1Decoder.

(** ** Configuration *)

(** The keys read through [gConfig.getNum], which returns an integer. *)
Record Config := mkConfig {
  GSM_MaxSpeechLatency : Z;
  GSM_RSSITarget : Z;
  GSM_MS_Power_Max : Z;
  GSM_MS_Power_Min : Z;
  GSM_MS_Power_Damping : Z;
  GSM_MS_TA_Max : Z;
  GSM_MS_TA_Damping : Z
}.

(** ** The SACCH control loop, GSM 05.08 4 and GSM 05.10 5, 6 *)

Module SACCHL1Decoder.

Record State := mkState {
  phy : DeinterleaverState;
  mActualMSPower : Z;
  mActualMSTiming : Z
}.

Definition phyNew (st : State) : bool := mPhyNew (phy st).

Definition with_phy (st : State) (p : DeinterleaverState) : State :=
  {| phy := p; mActualMSPower := mActualMSPower st;
     mActualMSTiming := mActualMSTiming st |}.

End SACCHL1Decoder.

Module SACCHL1Encoder.

Record State := mkState {
  mOrderedMSPower : Q;
  mOrderedMSTiming : Q
}.

(** [SACCHL1Encoder::open], after the base class has opened. *)
Definition open (st : State) : State :=
  {| mOrderedMSPower := 33; mOrderedMSTiming := 0 |}.

Definition Qgt_bool (x y : Q) : bool :=
  match (x ?= y)%Q with Gt => true | _ => false end.

Definition Qlt_bool (x y : Q) : bool :=
  match (x ?= y)%Q with Lt => true | _ => false end.

(** [if (p>maxPower) p=maxPower; else if (p<minPower) p=minPower;]
    The bounds are integers of the configuration held in [float]
    variables; the model keeps the integers, which is the same for
    magnitudes up to 2^24. *)
Definition clampPower (cfg : Config) (p : Q) : Q :=
  let maxPower := inject_Z (GSM_MS_Power_Max cfg) in
  let minPower := inject_Z (GSM_MS_Power_Min cfg) in
  if Qgt_bool p maxPower then maxPower
  else if Qlt_bool p minPower then minPower
  else p.

(** [if (t<0.0F) t=0.0F; else if (t>maxTiming) t=maxTiming;] *)
Definition clampTiming (cfg : Config) (t : Q) : Q :=
  let maxTiming := inject_Z (GSM_MS_TA_Max cfg) in
  if Qlt_bool t 0 then 0%Q
  else if Qgt_bool t maxTiming then maxTiming
  else t.

(** The [if (sib.phyNew())] block of [sendFrame]; every [float]
    operation rounds.  The configuration values and the sibling's actual
    values are integers converted to [float]. *)
Definition closedLoop (cfg : Config) (sib : SACCHL1Decoder.State)
           (st : State) : State * SACCHL1Decoder.State :=
  let '(RSSI, phy1) := XCCHL1Decoder.RSSI (SACCHL1Decoder.phy sib) in
  let RSSITarget := Binary32.of_int (GSM_RSSITarget cfg) in
  let deltaP := Binary32.sub RSSI RSSITarget in
  let actualPower := Binary32.of_int (SACCHL1Decoder.mActualMSPower sib) in
  let targetMSPower := Binary32.sub actualPower deltaP in
  let powerDamping :=
    Binary32.mul (Binary32.of_int (GSM_MS_Power_Damping cfg))
                 Binary32.c_0_01 in
  let power :=
    Binary32.add
      (Binary32.mul powerDamping (mOrderedMSPower st))
      (Binary32.mul (Binary32.sub 1 powerDamping) targetMSPower) in
  let '(timingError, phy2) := XCCHL1Decoder.timingError phy1 in
  let actualTiming := Binary32.of_int (SACCHL1Decoder.mActualMSTiming sib) in
  let targetMSTiming := Binary32.add actualTiming timingError in
  let TADamping :=
    Binary32.mul (Binary32.of_int (GSM_MS_TA_Damping cfg))
                 Binary32.c_0_01 in
  let timing :=
    Binary32.add
      (Binary32.mul TADamping (mOrderedMSTiming st))
      (Binary32.mul (Binary32.sub 1 TADamping) targetMSTiming) in
  ({| mOrderedMSPower := clampPower cfg power;
      mOrderedMSTiming := clampTiming cfg timing |},
   SACCHL1Decoder.with_phy sib phy2).

(** The two octets of the physical header written into [mU]:
    [fillField(0, encodePower(mOrderedMSPower), 8)], where the [float]
    is converted to the [int] parameter of [encodePower], and
    [fillField(8, (int)(mOrderedMSTiming+0.5F), 8)]. *)
Definition phyHeader (band : Power.GSMBand) (st : State) : option (Z * Z) :=
  code ← Power.encodePower band (Binary32.to_int (mOrderedMSPower st));
  Some (code mod 256,
        Binary32.to_int (Binary32.add (mOrderedMSTiming st) Binary32.c_0_5)
        mod 256).

(** [SACCHL1Encoder::sendFrame] up to the call of the base class, which
    encodes and transmits [mU] and leaves the ordered values alone. *)
Definition sendFrame (cfg : Config) (band : Power.GSMBand)
           (sib : SACCHL1Decoder.State) (st : State)
  : option (Z * Z) * State * SACCHL1Decoder.State :=
  let '(st', sib') :=
    if SACCHL1Decoder.phyNew sib then closedLoop cfg sib st else (st, sib) in
  (phyHeader band st', st', sib').


(** The bounds the specification claims of the ordered values. *)
Definition bounded (cfg : Config) (st : State) : Prop :=
  (inject_Z (GSM_MS_Power_Min cfg) <= mOrderedMSPower st)%Q /\
  (mOrderedMSPower st <= inject_Z (GSM_MS_Power_Max cfg))%Q /\
  (0 <= mOrderedMSTiming st)%Q /\
  (mOrderedMSTiming st <= inject_Z (GSM_MS_TA_Max cfg))%Q.

End SACCHL1Encoder.

(** ** The TCH/FACCH encoder *)

Record TxBurst := mkTxBurst {
  tx_data1 : list bool;           (* positions 3..59 *)
  tx_data2 : list bool;           (* positions 88..144 *)
  tx_Hl : bool;
  tx_Hu : bool
}.

Module Filler.
Import String Ascii.
Local Open Scope string_scope.
Local Open Scope char_scope.

(** The filler pattern of [dispatch], captured from a Nokia 3310. *)
Definition fillerC_text : string :=
  "110100001000111100000000111001111101011100111101001111000000000000110111101111111110100110101010101010101010101010101010101010101010010000110000000000000000000000000000000000000000001101001111000000000000000000000000000000000000000000000000111010011010101010101010101010101010101010101010101001000011000000000000000000110100111100000000111001111101101000001100001101001111000000000000000000011001100000000000000000000000000000000000000000000000000000000001".

Fixpoint bits_of_text (s : string) : list bool :=
  match s with
  | EmptyString => []
  | String c s' => Ascii.eqb c "1" :: bits_of_text s'
  end.

Definition fillerC : list bool := bits_of_text fillerC_text.

End Filler.

Module TCHFACCHL1Encoder.

(** A speech frame of the vocoder queue: its 260 payload bits. *)
Definition VocoderFrame := list bool.

Record State := mkState {
  mSpeechQ : list VocoderFrame;
  mL2Q : list L2Frame;
  mOffset : Z;
  mPreviousFACCH : bool;
  mU : list bool;                 (* 228 *)
  mC : list bool;                 (* 456 *)
  mI : list (list bool)           (* 8 rows of 114 *)
}.

Definition with_speechQ (st : State) (q : list VocoderFrame) : State :=
  {| mSpeechQ := q; mL2Q := mL2Q st; mOffset := mOffset st;
     mPreviousFACCH := mPreviousFACCH st;
     mU := mU st; mC := mC st; mI := mI st |}.

(** The coders behind [encode()] and [encodeTCH()]: block coder, Viterbi
    coder and bit-order table live outside this file.  [encode] maps [u[]]
    to [u[]] with its parity word and [c[]]; [encodeTCH] maps a speech
    frame to [c[]]. *)
Record Coders := mkCoders {
  encode : list bool -> list bool * list bool;
  encodeTCH : VocoderFrame -> list bool
}.

(** [TCHFACCHL1Encoder::interleave(int blockOffset)], eight rows. *)
Definition interleave (blockOffset : Z) (c : list bool)
           (i : list (list bool)) : list (list bool) :=
  Interleave.interleave (Interleave.index_TCH blockOffset) c i.

(** [while (mSpeechQ.size() > maxQ) delete mSpeechQ.read();] where the
    comparison of the unsigned size with [int maxQ] is unsigned. *)
Fixpoint latencyControl (maxQ : Z) (q : list VocoderFrame) : list VocoderFrame :=
  match q with
  | [] => []
  | _ :: q' =>
      if Z.of_nat (length q) >? maxQ mod 2 ^ 32
      then latencyControl maxQ q' else q
  end.

(** [while (mSpeechQ.size()>0) delete mSpeechQ.read();] *)
Fixpoint flush (q : list VocoderFrame) : list VocoderFrame :=
  match q with
  | [] => []
  | _ :: q' => if Z.of_nat (length q) >? 0 then flush q' else q
  end.

(** [dispatch] up to the choice of the block: the state the latency
    control leaves. *)
Definition latencyStep (cfg : Config) (st : State) : State :=
  with_speechQ st
    (latencyControl (GSM_MaxSpeechLatency cfg) (mSpeechQ st)).


(** The choice of [dispatch] by priority, FACCH, TCH, filler: the flag
    [currentFACCH] and the state with [c[]] filled and the queues read. *)
Definition selectBlock (coders : Coders) (st : State) : bool * State :=
  match mL2Q st with
  | fFrame :: l2q =>
      let u := BitVector.copyToSegment
                 (BitVector.LSB8MSB (payload fFrame)) (mU st) 0 in
      let '(u', c) := encode coders u in
      (true,
       {| mSpeechQ := flush (mSpeechQ st); mL2Q := l2q;
          mOffset := mOffset st; mPreviousFACCH := mPreviousFACCH st;
          mU := u'; mC := c; mI := mI st |})
  | [] =>
      match mSpeechQ st with
      | tFrame :: sq =>
          (false,
           {| mSpeechQ := sq; mL2Q := [];
              mOffset := mOffset st; mPreviousFACCH := mPreviousFACCH st;
              mU := mU st; mC := encodeTCH coders tFrame; mI := mI st |})
      | [] =>
          (false,
           {| mSpeechQ := []; mL2Q := [];
              mOffset := mOffset st; mPreviousFACCH := mPreviousFACCH st;
              mU := mU st;
              mC := BitVector.copyToSegment Filler.fillerC (mC st) 0;
              mI := mI st |})
      end
  end.

(** The burst of turn [B] of [for (int B=0; B<4; B++)]. *)
Definition burstOf (currentFACCH : bool) (st : State) (B : Z) : TxBurst :=
  let row := default [] (mI st !! Z.to_nat (B + mOffset st)) in
  {| tx_data1 := segment row 0 57;
     tx_data2 := segment row 57 57;
     tx_Hl := mPreviousFACCH st;
     tx_Hu := currentFACCH |}.

(** What [dispatch] tells about one block: the speech queue as it stands
    when [c[]] is interleaved and mapped on bursts, and the four bursts. *)
Record Block := mkBlock {
  speechQ_at_interleave : list VocoderFrame;
  bursts : list TxBurst
}.

(** [TCHFACCHL1Encoder::dispatch] with a downstream radio.  The clock and
    the TDMA times of the bursts are not part of the model.  On a channel
    that is not active it waits a multiframe and returns. *)
Definition dispatch (coders : Coders) (cfg : Config) (active : bool)
           (st : State) : option Block * State :=
  if negb active then (None, st)
  else
    let st1 :=
      {| mSpeechQ := latencyControl (GSM_MaxSpeechLatency cfg) (mSpeechQ st);
         mL2Q := mL2Q st; mOffset := mOffset st;
         mPreviousFACCH := mPreviousFACCH st;
         mU := mU st; mC := mC st; mI := mI st |} in
    let '(currentFACCH, st2) := selectBlock coders st1 in
    let st3 :=
      {| mSpeechQ := mSpeechQ st2; mL2Q := mL2Q st2; mOffset := mOffset st2;
         mPreviousFACCH := mPreviousFACCH st2;
         mU := mU st2; mC := mC st2;
         mI := interleave (mOffset st2) (mC st2) (mI st2) |} in
    let out := map (burstOf currentFACCH st3) [0; 1; 2; 3] in
    (Some {| speechQ_at_interleave := mSpeechQ st3; bursts := out |},
     {| mSpeechQ := mSpeechQ st3; mL2Q := mL2Q st3;
        mOffset := if mOffset st3 =? 0 then 4 else 0;
        mPreviousFACCH := currentFACCH;
        mU := mU st3; mC := mC st3; mI := mI st3 |}).

End TCHFACCHL1Encoder.

(** ** Decision procedures over the 456 positions of a block *)

Module BlockCheck.

Definition pair_eqb (p q : Z * Z) : bool :=
  (fst p =? fst q) && (snd p =? snd q).

(** The pairs [index] yields over the block, in the order of [k]. *)
Definition image (index : Z -> Z * Z) : list (Z * Z) :=
  map index Interleave.ks.

(** [(B, j)] is among the pairs of [img]. *)
Definition in_image (img : list (Z * Z)) (B j : Z) : bool :=
  existsb (fun p => pair_eqb p (B, j)) img.

(** No pair occurs twice in [img]. *)
Fixpoint distinct (img : list (Z * Z)) : bool :=
  match img with
  | [] => true
  | p :: img' => negb (existsb (pair_eqb p) img') && distinct img'
  end.

(** Every pair of the block satisfies [S]. *)
Definition image_within (img : list (Z * Z)) (S : Z -> Z -> bool) : bool :=
  forallb (fun p => S (fst p) (snd p)) img.

(** Every cell of [rows] x 114 that satisfies [S] is reached. *)
Definition covers (img : list (Z * Z)) (rows : Z) (S : Z -> Z -> bool) : bool :=
  forallb (fun B =>
    forallb (fun j => implb (S B j) (in_image img B j)) (seqZ 0 114))
    (seqZ 0 rows).

Definition in_grid (rows : Z) (B j : Z) : bool :=
  (0 <=? B) && (B <? rows) && (0 <=? j) && (j <? 114).

(** The cells one TCH block fills: in row [B] the even or the odd columns,
    by the half of the diagonal the row belongs to. *)
Definition in_half_grid (blockOffset : Z) (B j : Z) : bool :=
  in_grid 8 B j && (Z.rem j 2 =? Z.quot (Z.rem (B + 8 - blockOffset) 8) 4).

End BlockCheck.

(** ** Sample data for the closed lemmas *)

Module Sample.

Definition burst (fn : Z) (x : Q) : RxBurst :=
  {| bits := replicate 148 x; time := mkTime fn 0; RSSI := (-40)%Q;
     timingError := 3 # 2 |}.

Definition deint (rows : nat) : DeinterleaverState :=
  {| mI := replicate rows (replicate 114 1%Q);
     mC := replicate 456 0%Q;
     mRSSI := replicate 4 0%Q;
     mTimingError := replicate 4 0%Q;
     mRSSICounter := 0;
     mPhyNew := false;
     mReadTime := mkTime 0 0 |}.

(** A TDMA mapping whose reverse lookup is the frame number itself. *)
Definition reverseMapping (fn : Z) : Z := fn.

(** A timer that is armed or not and knows how long it still has. *)
Record Countdown := mkCountdown { armed : bool; remaining : Z }.

#[global] Instance Countdown_timer : Z100Timer Countdown := {
  timer_set t := {| armed := true; remaining := 1000 |};
  timer_reset t := {| armed := false; remaining := remaining t |};
  timer_active t := armed t;
  timer_expired t := armed t && (remaining t <=? 0)
}.

Definition decoder : L1Decoder.State Countdown :=
  L1Decoder.mkState true true 0%Q
    (mkCountdown true 500) (mkCountdown false 0) (mkCountdown false 0).

(** A RACH environment whose Viterbi decoder thresholds the first 18
    soft bits and whose parity word is 0. *)
Definition rachEnv (bsic : Z) : RACHL1Decoder.Env :=
  {| RACHL1Decoder.decode := fun e => map hard (take 18 e);
     RACHL1Decoder.parity := fun _ => 0;
     RACHL1Decoder.BSIC := bsic;
     RACHL1Decoder.mFERMemory := 208 |}.

(** A SACCH decoder that has just taken in a burst: [mPhyNew] is set. *)
Definition sacchDecoder : SACCHL1Decoder.State :=
  {| SACCHL1Decoder.phy := recordPhy (burst 0 1%Q) (deint 4);
     SACCHL1Decoder.mActualMSPower := 33;
     SACCHL1Decoder.mActualMSTiming := 0 |}.

Definition config : Config :=
  {| GSM_MaxSpeechLatency := 2; GSM_RSSITarget := -40;
     GSM_MS_Power_Max := 33; GSM_MS_Power_Min := 5;
     GSM_MS_Power_Damping := 50;
     GSM_MS_TA_Max := 62; GSM_MS_TA_Damping := 50 |}.

(** Coders that pass their input on, padded or cut to 456 bits. *)
Definition coders : TCHFACCHL1Encoder.Coders :=
  {| TCHFACCHL1Encoder.encode := fun u => (u, take 456 (u ++ replicate 456 false));
     TCHFACCHL1Encoder.encodeTCH := fun f => take 456 (f ++ replicate 456 false) |}.

(** An encoder with two speech frames and one FACCH frame queued. *)
Definition encoder : TCHFACCHL1Encoder.State :=
  {| TCHFACCHL1Encoder.mSpeechQ := [replicate 260 true; replicate 260 false];
     TCHFACCHL1Encoder.mL2Q := [mkL2Frame (replicate 184 true) DATA];
     TCHFACCHL1Encoder.mOffset := 0;
     TCHFACCHL1Encoder.mPreviousFACCH := false;
     TCHFACCHL1Encoder.mU := replicate 228 false;
     TCHFACCHL1Encoder.mC := replicate 456 false;
     TCHFACCHL1Encoder.mI := replicate 8 (replicate 114 false) |}.

(** A radio without noise: the burst sent in frame [fn] as received. *)
Definition loopback (fn : Z) (tx : TxBurst) : RxBurst :=
  {| bits := map soft_of_bit
               (replicate 3 false ++ tx_data1 tx ++ [tx_Hl tx]
                ++ replicate 26 false
                ++ [tx_Hu tx] ++ tx_data2 tx ++ replicate 3 false);
     time := mkTime fn 0; RSSI := (-40)%Q; timingError := 0%Q |}.

Definition speech1 : list bool := map (fun k => Z.odd (Z.quot k 3)) (seqZ 0 260).
Definition speech2 : list bool := map (fun k => Z.even (Z.quot k 5)) (seqZ 0 260).

(** Two consecutive calls of [dispatch] with two speech frames queued and
    no FACCH frame: the eight bursts, received in frames 0..7. *)
Definition twoBlocks : list RxBurst :=
  let st0 := TCHFACCHL1Encoder.with_speechQ
               {| TCHFACCHL1Encoder.mSpeechQ := [];
                  TCHFACCHL1Encoder.mL2Q := [];
                  TCHFACCHL1Encoder.mOffset := 0;
                  TCHFACCHL1Encoder.mPreviousFACCH := false;
                  TCHFACCHL1Encoder.mU := replicate 228 false;
                  TCHFACCHL1Encoder.mC := replicate 456 false;
                  TCHFACCHL1Encoder.mI := replicate 8 (replicate 114 false) |}
               [speech1; speech2] in
  let '(blk1, st1) := TCHFACCHL1Encoder.dispatch coders config true st0 in
  let '(blk2, st2) := TCHFACCHL1Encoder.dispatch coders config true st1 in
  let sent := from_option TCHFACCHL1Encoder.bursts [] blk1
              ++ from_option TCHFACCHL1Encoder.bursts [] blk2 in
  zip_with loopback (seqZ 0 8) sent.

(** A previous good speech frame whose byte 27 holds [xmaxc = 8]. *)
Definition goodFrame : list Z := <[27%nat := 8]> (replicate 33 0).

Definition rachState : RACHL1Decoder.State Countdown :=
  {| RACHL1Decoder.base := decoder; RACHL1Decoder.mU := replicate 18 false |}.

(** An access burst whose 36 coded positions read, after this decoder,
    as payload [01011010], parity [010101] and a zero tail. *)
Definition rachBits : list bool :=
  [false; true; false; true; true; false; true; false;
   false; true; false; true; false; true;
   false; false; false; false].

Definition rachBurst : RxBurst :=
  {| bits := replicate 49 0%Q
             ++ map (fun b : bool => if b then 1%Q else 0%Q) rachBits
             ++ replicate 81 0%Q;
     time := mkTime 42 0; RSSI := (-35)%Q; timingError := 5 # 2 |}.

End Sample.

(** * Further parts of the source *)

(** ** Bursts on the air *)

Module Radio.

(** A transmitted burst as the encoders fill it: [mI[B].segment(0,57)] is
    copied to position 3 and [mI[B].segment(57,57)] to position 88; the
    training sequence [tsc] sits at position 61.  Modelled from the spec:
    the stealing flags [Hl] and [Hu] are the bits 60 and 87. *)
Definition burstBits (tsc : list bool) (tx : TxBurst) : list bool :=
  BitVector.copyToSegment (tx_data2 tx)
    (BitVector.copyToSegment (tx_data1 tx)
       (<[87%nat := tx_Hu tx]>
          (<[60%nat := tx_Hl tx]>
             (BitVector.copyToSegment tsc (replicate 148 false) 61)))
       3)
    88.

(** What [processBurst] makes of a row and a burst: the two copies
    [data1().copyToSegment(mI[B],0)] and [data2().copyToSegment(mI[B],57)]. *)
Definition copyBurst (b : RxBurst) (row : list Q) : list Q :=
  BitVector.copyToSegment (data2 b)
    (BitVector.copyToSegment (data1 b) row 0) 57.

(** The burst as a receiver without noise sees it at time [t]. *)
Definition receive (tsc : list bool) (t : Time) (rssi te : Q) (tx : TxBurst)
  : RxBurst :=
  {| bits := map soft_of_bit (burstBits tsc tx);
     time := t; RSSI := rssi; timingError := te |}.

End Radio.

Module XCCHL1EncoderBursts.

(** The burst of turn [B] of [XCCHL1Encoder::transmit]; the constructor
    has set both stealing flags of [mBurst]. *)
Definition burstOf (mI : list (list bool)) (B : Z) : TxBurst :=
  let row := default [] (mI !! Z.to_nat B) in
  {| tx_data1 := segment row 0 57;
     tx_data2 := segment row 57 57;
     tx_Hl := true;
     tx_Hu := true |}.

(** [XCCHL1Encoder::transmit] with a radio connected: the four bursts in
    the order sent.  The clock and the TDMA times are not part of the
    model. *)
Definition transmit (mI : list (list bool)) : list TxBurst :=
  map (burstOf mI) [0; 1; 2; 3].

(** [interleave(); transmit();] of [XCCHL1Encoder::sendFrame]: the new
    [i[][]] and the bursts of the coded block [c[]]. *)
Definition interleave_transmit (mC : list bool) (mI : list (list bool))
  : list (list bool) * list TxBurst :=
  let mI' := XCCHL1Encoder.interleave mC mI in
  (mI', transmit mI').

End XCCHL1EncoderBursts.

(** ** Class 1 and class 2 bits of a speech frame, GSM 05.03 3.1.2 *)

Module TCHBits.

(** One turn of the loop of [TCHFACCHL1Encoder::encodeTCH]:
    [mTCHU[k] = mTCHD[2*k]; mTCHU[184-k] = mTCHD[2*k+1];] *)
Definition encode_step (d : list bool) (u : list bool) (k : Z) : list bool :=
  <[Z.to_nat (184 - k) := Interleave.bit_at d (2 * k + 1)]>
    (<[Z.to_nat k := Interleave.bit_at d (2 * k)]> u).

(** [for (unsigned k=0; k<=90; k++)] of the encoder. *)
Definition encode_class1 (d u : list bool) : list bool :=
  fold_left (encode_step d) (seqZ 0 91) u.

(** [for (unsigned k=185; k<=188; k++) mTCHU[k]=0;] *)
Definition zero_tail (u : list bool) : list bool :=
  fold_left (fun u k => <[Z.to_nat k := false]> u) (seqZ 185 4) u.

(** [encodeTCH] from the parity word to the tail bits: [parityWord] is
    what [mTCHParity.writeParityWord] puts into [mTCHU.segment(91,3)]. *)
Definition encode_u (parityWord d u : list bool) : list bool :=
  zero_tail (encode_class1 d (BitVector.copyToSegment parityWord u 91)).

(** [mClass2_d.copyToSegment(mC,378);] with [mClass2_d] the segment
    [(182, 78)] of [d[]]. *)
Definition encode_class2 (d c : list bool) : list bool :=
  BitVector.copyToSegment (segment d 182 78) c 378.

(** One turn of the loop of [TCHFACCHL1Decoder::decodeTCH]:
    [mTCHD[2*k] = mTCHU[k]; mTCHD[2*k+1] = mTCHU[184-k];] *)
Definition decode_step (u : list bool) (d : list bool) (k : Z) : list bool :=
  <[Z.to_nat (2 * k + 1) := Interleave.bit_at u (184 - k)]>
    (<[Z.to_nat (2 * k) := Interleave.bit_at u k]> d).

Definition decode_class1 (u d : list bool) : list bool :=
  fold_left (decode_step u) (seqZ 0 91) d.

(** [mClass2_c.sliced().copyToSegment(mTCHD,182);] with [mClass2_c] the
    segment [(378, 78)] of [c[]]; [sliced] thresholds at 0.5. *)
Definition decode_class2 (c : list Q) (d : list bool) : list bool :=
  BitVector.copyToSegment (map hard (segment c 378 78)) d 182.

(** [d[]] as [decodeTCH] rebuilds it from [c[]] and the decoded [u[]]. *)
Definition decode_d (u : list bool) (c : list Q) (d : list bool) : list bool :=
  decode_class1 u (decode_class2 c d).

End TCHBits.

(** ** Counting frames *)

Module FrameCount.
Section WithTimer.
Context {T : Type} `{Z100Timer T}.

(** The decoder after a run of frames, [true] for a good one. *)
Definition count (mFERMemory : Z) (frames : list bool)
           (st : L1Decoder.State T) : L1Decoder.State T :=
  fold_left (fun s (ok : bool) =>
               if ok then L1Decoder.countGoodFrame mFERMemory s
               else L1Decoder.countBadFrame mFERMemory s) frames st.

End WithTimer.
End FrameCount.

(** ** More of the SACCH pair *)

Module SACCHPhy.

(** [SACCHL1Decoder::setPhy(float wRSSI, float wTimingError)] *)
Definition decoder_setPhy (wRSSI wTimingError : Q)
           (st : SACCHL1Decoder.State) : SACCHL1Decoder.State :=
  let p := SACCHL1Decoder.phy st in
  SACCHL1Decoder.with_phy st
    {| mI := mI p; mC := mC p;
       mRSSI := fold_left (fun v i => <[i := wRSSI]> v)
                          [0; 1; 2; 3]%nat (mRSSI p);
       mTimingError := fold_left (fun v i => <[i := wTimingError]> v)
                                 [0; 1; 2; 3]%nat (mTimingError p);
       mRSSICounter := mRSSICounter p;
       mPhyNew := true;
       mReadTime := mReadTime p |}.

(** [SACCHL1Encoder::setPhy(float wRSSI, float wTimingError)]: the closed
    loop without damping; the arguments are not read, the measurements
    come from the sibling. *)
Definition encoder_setPhy (cfg : Config) (sib : SACCHL1Decoder.State)
           (st : SACCHL1Encoder.State)
  : SACCHL1Encoder.State * SACCHL1Decoder.State :=
  let '(RSSI, phy1) := XCCHL1Decoder.RSSI (SACCHL1Decoder.phy sib) in
  let RSSITarget := Binary32.of_int (GSM_RSSITarget cfg) in
  let deltaP := Binary32.sub RSSI RSSITarget in
  let actualPower := Binary32.of_int (SACCHL1Decoder.mActualMSPower sib) in
  let '(timingError, phy2) := XCCHL1Decoder.timingError phy1 in
  let actualTiming := Binary32.of_int (SACCHL1Decoder.mActualMSTiming sib) in
  ({| SACCHL1Encoder.mOrderedMSPower :=
        SACCHL1Encoder.clampPower cfg (Binary32.sub actualPower deltaP);
      SACCHL1Encoder.mOrderedMSTiming :=
        SACCHL1Encoder.clampTiming cfg
          (Binary32.add actualTiming timingError) |},
   SACCHL1Decoder.with_phy sib phy2).

(** [SACCHL1FEC::setPhy(float RSSI, float timingError)]: decoder first,
    then encoder. *)
Definition setPhy (cfg : Config) (wRSSI wTimingError : Q)
           (pair : SACCHL1Encoder.State * SACCHL1Decoder.State)
  : SACCHL1Encoder.State * SACCHL1Decoder.State :=
  encoder_setPhy cfg (decoder_setPhy wRSSI wTimingError (snd pair)) (fst pair).

(** [SACCHL1Decoder::handleGoodFrame]: the physical header of the
    decoded [u[]], then [XCCHL1Decoder::handleGoodFrame], whose upcall,
    with an upstream connected, reads the measurements and clears
    [mPhyNew]. *)
Definition handleGoodFrame (band : Power.GSMBand) (upstream : bool)
           (u : list bool)
           (st : SACCHL1Decoder.State) : option SACCHL1Decoder.State :=
  power ← Power.decodePower band (BitVector.peekField u 3 5);
  let TAField := BitVector.peekField u 9 7 in
  Some {| SACCHL1Decoder.phy :=
            snd (XCCHL1Decoder.handleGoodFrame upstream
                   (SACCHL1Decoder.phy st));
          SACCHL1Decoder.mActualMSPower := power;
          SACCHL1Decoder.mActualMSTiming :=
            if TAField <? 64 then TAField
            else SACCHL1Decoder.mActualMSTiming st |}.

(** [SACCHL1Decoder::open], after the base class has opened. *)
Definition decoder_open (st : SACCHL1Decoder.State) : SACCHL1Decoder.State :=
  {| SACCHL1Decoder.phy := SACCHL1Decoder.phy st;
     SACCHL1Decoder.mActualMSPower := 33;
     SACCHL1Decoder.mActualMSTiming := 0 |}.

(** A run of good frames through [handleGoodFrame]. *)
Fixpoint handleGoodFrames (band : Power.GSMBand) (upstream : bool)
         (us : list (list bool))
         (st : SACCHL1Decoder.State) : option SACCHL1Decoder.State :=
  match us with
  | [] => Some st
  | u :: us' =>
      st' ← handleGoodFrame band upstream u st;
      handleGoodFrames band upstream us' st'
  end.

End SACCHPhy.

(** ** The span of the power tables *)

Module PowerSpan.

(** The lowest and the highest dBm value between which a band's table has
    an entry within 1 dB of every integer, and the highest entry of the
    table. *)
Definition dense (band : Power.GSMBand) : Z * Z :=
  match band with
  | Power.GSM850 | Power.EGSM900 => (5, 39)
  | _ => (0, 30)
  end.

Definition top (band : Power.GSMBand) : Z :=
  match band with
  | Power.GSM850 | Power.EGSM900 => 39
  | Power.DCS1800 => 36
  | _ => 30
  end.

(** Checks over the 32 codes of a table. *)
Definition all_codes (P : Z -> bool) : bool := forallb P (seqZ 0 32).
Definition some_code (P : Z -> bool) : bool := existsb P (seqZ 0 32).

Definition span_ok (band : Power.GSMBand) (table : list Z) : bool :=
  let '(lo, hi) := dense band in
  forallb (fun p => some_code (fun j => Z.abs (p - Power.at_code table j) <=? 1))
          (seqZ lo (hi - lo + 1))
  && all_codes (fun j => (lo <=? Power.at_code table j)
                         && (Power.at_code table j <=? top band))
  && some_code (fun j => Power.at_code table j =? lo)
  && some_code (fun j => Power.at_code table j =? top band).

End PowerSpan.

(** ** More sample data *)

Module Sample2.

Definition tsc : list bool := replicate 26 false.
Definition frameTime (B : Z) : Time := mkTime B 0.
Definition rssi (B : Z) : Q := (-40)%Q.
Definition timing (B : Z) : Q := 0%Q.
Definition rows4 : list (list bool) := replicate 4 (replicate 114 false).
Definition rows8 : list (list bool) := replicate 8 (replicate 114 false).

(** The access burst of the sample with a timing error just below one
    half: 16777215/33554432 is a binary32 number. *)
Definition rachBurstJustBelowHalf : RxBurst :=
  {| bits := bits Sample.rachBurst; time := time Sample.rachBurst;
     RSSI := RSSI Sample.rachBurst; timingError := 16777215 # 33554432 |}.

End Sample2.

(** ** Frames arriving at the TCH/FACCH encoder *)

Module TCHFACCHQueues.
Import TCHFACCHL1Encoder.

(** [TCHFACCHL1Encoder::sendFrame]: [mL2Q.write(new L2Frame(frame));] *)
Definition sendFrame (frame : L2Frame) (st : State) : State :=
  {| mSpeechQ := mSpeechQ st; mL2Q := mL2Q st ++ [frame];
     mOffset := mOffset st; mPreviousFACCH := mPreviousFACCH st;
     mU := mU st; mC := mC st; mI := mI st |}.

(** What other threads do to the encoder between two turns of its service
    loop: FACCH frames [fs] are queued by [sendFrame], and the speech
    queue, which the vocoder side fills, stands at [q]. *)
Definition arrive (fs : list L2Frame) (q : list VocoderFrame)
           (st : State) : State :=
  with_speechQ (fold_left (fun s f => sendFrame f s) fs st) q.

(** The bursts of one [dispatch], none when the channel was not active. *)
Definition sent (r : option Block * State) : list TxBurst :=
  match fst r with Some blk => bursts blk | None => [] end.

End TCHFACCHQueues.

(** ** The two sides of a link *)

Module L1Link.
Section WithTimer.
Context {T : Type} `{Z100Timer T}.

(** An [L1FEC] with both an encoder and a decoder, as far as activity
    goes: [L1Encoder::mActive] and the sibling decoder.  The bursts that
    [sendFrame] and [sendIdleFill] send, and the write times, are not
    part of this state. *)
Record State := mkState {
  encoder_mActive : bool;
  decoder : L1Decoder.State T
}.

(** [L1Encoder::active] with a sibling:
    [retVal = mActive && (!sib->recyclable());] *)
Definition encoder_active (st : State) : bool :=
  encoder_mActive st && negb (L1Decoder.recyclable (decoder st)).

(** [L1FEC::active] with a decoder: [return mDecoder->active();] *)
Definition active (st : State) : bool := L1Decoder.active (decoder st).

(** [L1FEC::open] and [L1FEC::close]: encoder, then decoder. *)
Definition open (st : State) : State :=
  {| encoder_mActive := true; decoder := L1Decoder.open (decoder st) |}.

Definition close (st : State) : State :=
  {| encoder_mActive := false; decoder := L1Decoder.close (decoder st) |}.

(** [XCCHL1Encoder::writeHighSide]: the [switch] on the primitive. *)
Definition writeHighSide (p : Primitive) (st : State) : State :=
  match p with
  | DATA => st
  | ESTABLISH =>
      {| encoder_mActive := true; decoder := L1Decoder.open (decoder st) |}
  | RELEASE =>
      {| encoder_mActive := false; decoder := L1Decoder.close (decoder st) |}
  | ERROR =>
      {| encoder_mActive := false; decoder := decoder st |}
  end.

(** What happens to a link: a primitive from L2, [L1FEC::open] or
    [L1FEC::close] from the channel allocator, a good frame that sets
    T3109, or time passing, which leaves the three timers in any state. *)
Inductive Event :=
| FromL2 (p : Primitive)
| Open
| Close
| Elapse (t3101 t3109 t3111 : T).

Definition step (st : State) (e : Event) : State :=
  match e with
  | FromL2 p => writeHighSide p st
  | Open => open st
  | Close => close st
  | Elapse t1 t2 t3 =>
      {| encoder_mActive := encoder_mActive st;
         decoder :=
           {| L1Decoder.mRunning := L1Decoder.mRunning (decoder st);
              L1Decoder.mActive := L1Decoder.mActive (decoder st);
              L1Decoder.mFER := L1Decoder.mFER (decoder st);
              L1Decoder.mT3101 := t1;
              L1Decoder.mT3109 := t2;
              L1Decoder.mT3111 := t3 |} |}
  end.

Definition run (events : list Event) (st : State) : State :=
  fold_left step events st.

End WithTimer.
Arguments State T : clear implicits.
Arguments Event T : clear implicits.
End L1Link.

(** * Properties *)

(** ** Bit vectors *)

Example peekField_msb_first :
  BitVector.peekField [true; false; true; true; false] 1 3 = 3.
Proof. reflexivity. Qed.

Example LSB8MSB_two_octets :
  BitVector.LSB8MSB
    [true; false; false; false; false; false; false; false;
     true; true; false; false; false; false; false; false; true]
  = [false; false; false; false; false; false; false; true;
     false; false; false; false; false; false; true; true; true].
Proof. reflexivity. Qed.

(** ** Power control codes *)

Section PowerFacts.
Import Power.

Example encodePower_examples :
  encodePower DCS1800 36 = Some 29 /\
  encodePower EGSM900 6 = Some 18 /\
  encodePower EGSM900 39 = Some 1 /\
  encodePower PCS1900 0 = Some 15 /\
  encodePower PCS1900 100 = Some 0 /\
  encodePower OtherBand 5 = None.
Proof. repeat split. Qed.

Lemma wrap32_small z : - 2 ^ 31 <= z < 2 ^ 31 -> wrap32 z = z.
Proof. intros Hz. unfold wrap32. rewrite Z.mod_small by lia. lia. Qed.

Lemma err32_nonneg table power i : 0 <= err32 table power i.
Proof. unfold err32. apply Z.mod_pos_bound. lia. Qed.

(** Where the difference does not leave the range of [int], the error
    is the distance. *)
Lemma err32_exact table power i :
  - 2 ^ 31 < power - at_code table i < 2 ^ 31 ->
  err32 table power i = Z.abs (power - at_code table i).
Proof.
  intros Hd. unfold err32.
  rewrite (wrap32_small (power - at_code table i)) by lia.
  rewrite wrap32_small by lia. apply Z.mod_small. lia.
Qed.

Lemma tables_range band table :
  pickTable band = Some table ->
  forall j, 0 <= j < 32 -> 0 <= at_code table j <= 39.
Proof.
  intros Htable j Hj.
  assert (forallb (fun j => (0 <=? at_code table j) && (at_code table j <=? 39))
                  (seqZ 0 32) = true) as Hall
    by (destruct band; try discriminate Htable; injection Htable as <-;
        vm_compute; reflexivity).
  rewrite forallb_forall in Hall.
  specialize (Hall j ltac:(apply list_elem_of_In, elem_of_seqZ; lia)).
  rewrite andb_true_iff, !Z.leb_le in Hall. exact Hall.
Qed.

Lemma encodePower_loop_spec table power n :
  forall i minErr code,
    1 <= i -> i + Z.of_nat n = 32 -> 0 <= code < i ->
    minErr = err32 table power code ->
    (forall j, 0 <= j < i -> minErr <= err32 table power j) ->
    (forall j, 0 <= j < code -> minErr < err32 table power j) ->
    (forall j, 1 <= j < i -> err32 table power j <> 0) ->
    let c := encodePower_loop table power n i minErr code in
    0 <= c < 32 /\
    (forall j, 0 <= j < 32 -> err32 table power c <= err32 table power j) /\
    ((exists j, 1 <= j < 32 /\ err32 table power j = 0) ->
       1 <= c /\ err32 table power c = 0 /\
       forall j, 1 <= j < c -> err32 table power j <> 0) /\
    ((forall j, 1 <= j < 32 -> err32 table power j <> 0) ->
       forall j, 0 <= j < c -> err32 table power c < err32 table power j).
Proof.
  induction n as [|n IH]; intros i minErr code Hi Hn Hcode HminErr Hle Hlt Hne;
    cbn [encodePower_loop].
  - assert (i = 32) as -> by lia. subst minErr.
    split; [lia | split; [assumption | split]].
    + intros [j [Hj Hpj]]. exfalso. exact (Hne j Hj Hpj).
    + intros _. assumption.
  - cbv zeta.
    destruct (Z.eqb_spec (err32 table power i) 0) as [Hz|Hnz].
    + split; [lia | split; [|split]].
      * intros j _. rewrite Hz. apply err32_nonneg.
      * intros _. split; [lia | split; [assumption|]].
        intros j Hj. apply Hne. lia.
      * intros Hnone. exfalso. apply (Hnone i); [lia | assumption].
    + destruct (Z.ltb_spec (err32 table power i) minErr) as [Hbetter|Hworse].
      * apply IH; try lia.
        -- intros j Hj. destruct (Z.eq_dec j i) as [->|]; [lia|].
           specialize (Hle j). lia.
        -- intros j Hj. specialize (Hle j). lia.
        -- intros j Hj. destruct (Z.eq_dec j i) as [->|]; [assumption|].
           apply Hne. lia.
      * apply IH; try lia.
        -- intros j Hj. destruct (Z.eq_dec j i) as [->|]; [lia|].
           apply Hle. lia.
        -- assumption.
        -- intros j Hj. destruct (Z.eq_dec j i) as [->|]; [assumption|].
           apply Hne. lia.
Qed.

Lemma encodePower_table_range table power :
  0 <= encodePower_table table power < 32.
Proof.
  destruct (encodePower_loop_spec table power 31 1
              (err32 table power 0) 0) as (Hrange & _); try lia.
  - intros j Hj. assert (j = 0) as -> by lia. lia.
  - exact Hrange.
Qed.

Lemma encodePower_table_spec table power :
  (forall j, 0 <= j < 32 -> - 2 ^ 31 < power - at_code table j < 2 ^ 31) ->
  let c := encodePower_table table power in
  0 <= c < 32 /\
  (forall j, 0 <= j < 32 ->
     Z.abs (power - at_code table c) <= Z.abs (power - at_code table j)) /\
  ((exists j, 1 <= j < 32 /\ at_code table j = power) ->
     1 <= c /\ at_code table c = power /\
     forall j, 1 <= j < c -> at_code table j <> power) /\
  ((forall j, 1 <= j < 32 -> at_code table j <> power) ->
     forall j, 0 <= j < c ->
       Z.abs (power - at_code table c) < Z.abs (power - at_code table j)).
Proof.
  intros Hin.
  assert (forall j, 0 <= j < 32 ->
            err32 table power j = Z.abs (power - at_code table j)) as Herr
    by (intros j Hj; apply err32_exact, Hin, Hj).
  destruct (encodePower_loop_spec table power 31 1
              (err32 table power 0) 0) as (Hrange & Hmin & Hexact & Hfirst);
    try lia.
  { intros j Hj. assert (j = 0) as -> by lia. lia. }
  unfold encodePower_table. cbv zeta.
  set (c := encodePower_loop table power 31 1 (err32 table power 0) 0) in *.
  split; [exact Hrange|]. split; [|split].
  - intros j Hj. rewrite <- !Herr by lia. apply Hmin, Hj.
  - intros [j [Hj Hp]].
    destruct Hexact as (Hc1 & Hc0 & Hcfirst).
    { exists j. split; [exact Hj|]. rewrite Herr by lia. lia. }
    split; [exact Hc1|]. split.
    + rewrite Herr in Hc0 by lia. lia.
    + intros k Hk Heq. apply (Hcfirst k Hk). rewrite Herr by lia. lia.
  - intros Hnone j Hj. rewrite <- !Herr by lia. apply Hfirst; [|exact Hj].
    intros k Hk Hz. apply (Hnone k Hk). rewrite Herr in Hz by lia. lia.
Qed.

(** C4.  For every band that has a power table and every code [c] in
    0..31, decoding [c] to dBm and encoding that value again gives a code
    [c'] in 0..31 that decodes to the same dBm: [table[c'] = table[c]]. *)
Theorem power_round_trip band table c :
  pickTable band = Some table ->
  0 <= c < 32 ->
  exists dBm c',
    decodePower band c = Some dBm /\
    encodePower band dBm = Some c' /\
    0 <= c' < 32 /\
    decodePower band c' = Some dBm /\
    at_code table c' = at_code table c.
Proof.
  intros Htable Hc.
  set (dBm := at_code table c).
  pose proof (tables_range band table Htable) as Htab.
  assert (forall j, 0 <= j < 32 -> - 2 ^ 31 < dBm - at_code table j < 2 ^ 31)
    as Hin.
  { intros j Hj. pose proof (Htab j Hj) as Hj'. pose proof (Htab c Hc) as Hd.
    fold dBm in Hd. lia. }
  destruct (encodePower_table_spec table dBm Hin) as (Hrange & Hmin & _).
  set (c' := encodePower_table table dBm) in *.
  assert (at_code table c' = dBm) as Hsame.
  { specialize (Hmin c Hc). fold dBm in Hmin.
    rewrite Z.sub_diag in Hmin. change (Z.abs 0) with 0 in Hmin. lia. }
  assert (forall x, 0 <= x < 32 -> decodePower band x = Some (at_code table x))
    as Hdecode.
  { intros x Hx. unfold decodePower. rewrite Htable. cbn [mbind option_bind].
    destruct (Z.leb_spec 0 x); [|lia]. destruct (Z.ltb_spec x 32); [|lia].
    reflexivity. }
  exists dBm, c'. split; [apply Hdecode, Hc | split].
  - unfold encodePower. rewrite Htable. reflexivity.
  - split; [exact Hrange | split; [|exact Hsame]].
    rewrite (Hdecode c' Hrange), Hsame. reflexivity.
Qed.

Lemma power_round_trip_witness :
  exists dBm c',
    decodePower DCS1800 29 = Some dBm /\
    encodePower DCS1800 dBm = Some c' /\
    0 <= c' < 32 /\
    decodePower DCS1800 c' = Some dBm /\
    at_code powerCommand1800 c' = at_code powerCommand1800 29.
Proof. apply (power_round_trip DCS1800 powerCommand1800 29); [reflexivity | lia]. Defined.

(** C5, as the specification states it, fails: in the low band the dBm
    value 39 is met by codes 0, 1 and 2, and [encodePower] answers 1. *)
Lemma encodePower_not_first_on_ties :
  ~ (forall band table power c,
       pickTable band = Some table ->
       encodePower band power = Some c ->
       first_arg_min table power c).
Proof.
  intros Hclaim.
  destruct (Hclaim GSM850 powerCommandLowBand 39 1 eq_refl eq_refl)
    as (_ & _ & Hfirst).
  specialize (Hfirst 0 ltac:(lia)). vm_compute in Hfirst. discriminate.
Qed.

(** The 32-bit subtraction at work: at the least [int] the low band
    answers code 0, which stands for 39 dBm, the entry farthest away. *)
Example encodePower_at_least_int :
  encodePower EGSM900 (- 2 ^ 31) = Some 0 /\
  at_code powerCommandLowBand 0 = 39.
Proof. split; reflexivity. Qed.

(** C5, amended.  For every band with a table and every dBm input above
    [INT_MIN + 39], where the subtraction [power - table[i]] stays
    within [int], [encodePower] returns a code in 0..31 of least distance
    [|dBm - table[code]|].  When some code in 1..31 has exactly that dBm
    the result is the lowest such code of 1..31; when none has, the result
    is the lowest code of least distance. *)
Theorem encodePower_arg_min band table power :
  pickTable band = Some table ->
  - 2 ^ 31 + 39 < power < 2 ^ 31 ->
  exists c,
    encodePower band power = Some c /\
    0 <= c < 32 /\
    (forall j, 0 <= j < 32 ->
       Z.abs (power - at_code table c) <= Z.abs (power - at_code table j)) /\
    ((exists j, 1 <= j < 32 /\ at_code table j = power) ->
       1 <= c /\ at_code table c = power /\
       forall j, 1 <= j < c -> at_code table j <> power) /\
    ((forall j, 1 <= j < 32 -> at_code table j <> power) ->
       first_arg_min table power c).
Proof.
  intros Htable Hpower. exists (encodePower_table table power).
  pose proof (tables_range band table Htable) as Htab.
  assert (forall j, 0 <= j < 32 -> - 2 ^ 31 < power - at_code table j < 2 ^ 31)
    as Hin by (intros j Hj; specialize (Htab j Hj); lia).
  destruct (encodePower_table_spec table power Hin)
    as (Hrange & Hmin & Hexact & Hfirst).
  unfold encodePower. rewrite Htable.
  split; [reflexivity | split; [lia | split; [assumption | split]]].
  - exact Hexact.
  - intros Hnone. split; [lia | split; [assumption | auto]].
Qed.

Lemma encodePower_arg_min_witness :
  - 2 ^ 31 + 39 < 7 < 2 ^ 31 /\
  exists c,
    encodePower PCS1900 7 = Some c /\
    0 <= c < 32 /\
    (forall j, 0 <= j < 32 ->
       Z.abs (7 - at_code powerCommand1900 c)
       <= Z.abs (7 - at_code powerCommand1900 j)) /\
    ((exists j, 1 <= j < 32 /\ at_code powerCommand1900 j = 7) ->
       1 <= c /\ at_code powerCommand1900 c = 7 /\
       forall j, 1 <= j < c -> at_code powerCommand1900 j <> 7) /\
    ((forall j, 1 <= j < 32 -> at_code powerCommand1900 j <> 7) ->
       first_arg_min powerCommand1900 7 c).
Proof.
  assert (- 2 ^ 31 + 39 < 7 < 2 ^ 31) as Hp by lia.
  split; [exact Hp|].
  apply (encodePower_arg_min PCS1900 powerCommand1900 7 eq_refl Hp).
Defined.

End PowerFacts.

(** ** The interleaver index maps *)

Section InterleaveFacts.
Import Interleave.

Example index_examples :
  index_XCCH 0 = (0, 0) /\ index_XCCH 1 = (1, 98) /\
  index_XCCH 455 = (3, 17) /\
  index_TCH 0 5 = (5, 35) /\ index_TCH 4 5 = (1, 35).
Proof. repeat split. Qed.

Lemma forallb_seqZ (P : Z -> bool) (n : Z) :
  forallb P (seqZ 0 n) = true <-> forall k, 0 <= k < n -> P k = true.
Proof.
  rewrite forallb_forall. split.
  - intros Hall k Hk. apply Hall, list_elem_of_In, elem_of_seqZ. lia.
  - intros Hall k Hin. apply list_elem_of_In, elem_of_seqZ in Hin.
    apply Hall. lia.
Qed.

Lemma pair_eqb_eq (p q : Z * Z) : BlockCheck.pair_eqb p q = true <-> p = q.
Proof.
  destruct p as [a b], q as [c d]. unfold BlockCheck.pair_eqb. cbn.
  rewrite andb_true_iff, !Z.eqb_eq. split.
  - intros [-> ->]. reflexivity.
  - intros [= -> ->]. auto.
Qed.

Lemma in_image_spec index B j :
  BlockCheck.in_image (BlockCheck.image index) B j = true <->
  exists k, 0 <= k < 456 /\ index k = (B, j).
Proof.
  unfold BlockCheck.in_image, BlockCheck.image. rewrite existsb_exists. split.
  - intros [p [Hin Heq]]. apply in_map_iff in Hin. destruct Hin as [k [<- Hin]].
    exists k. split.
    + apply list_elem_of_In, elem_of_seqZ in Hin. lia.
    + apply pair_eqb_eq, Heq.
  - intros [k [Hk Heq]]. exists (index k). split.
    + apply in_map, list_elem_of_In, elem_of_seqZ. lia.
    + apply pair_eqb_eq, Heq.
Qed.

Lemma distinct_NoDup img : BlockCheck.distinct img = true -> List.NoDup img.
Proof.
  induction img as [|p img IH]; cbn; intros Hd; constructor.
  - apply andb_true_iff in Hd. destruct Hd as [Hp _].
    intros Hin. apply negb_true_iff in Hp.
    assert (existsb (BlockCheck.pair_eqb p) img = true) as Hex.
    { apply existsb_exists. exists p. split; [exact Hin | apply pair_eqb_eq; reflexivity]. }
    congruence.
  - apply IH. apply andb_true_iff in Hd. tauto.
Qed.

Lemma NoDup_map_injective {A B} (f : A -> B) (l : list A) :
  List.NoDup (map f l) ->
  forall x y, In x l -> In y l -> f x = f y -> x = y.
Proof.
  induction l as [|a l IH]; cbn; intros Hnd x y Hx Hy Heq; [contradiction|].
  inversion Hnd as [|? ? Hnotin Hnd']; subst.
  destruct Hx as [->|Hx], Hy as [->|Hy]; auto.
  - exfalso. apply Hnotin. rewrite Heq. apply in_map, Hy.
  - exfalso. apply Hnotin. rewrite <- Heq. apply in_map, Hx.
Qed.

Lemma injective_spec index :
  BlockCheck.distinct (BlockCheck.image index) = true -> injective_on_block index.
Proof.
  intros Hd k k' Hk Hk' Heq.
  apply (NoDup_map_injective index ks (distinct_NoDup _ Hd)); auto;
    apply list_elem_of_In, elem_of_seqZ; lia.
Qed.

Lemma image_spec index rows (S : Z -> Z -> bool) :
  BlockCheck.image_within (BlockCheck.image index) S = true ->
  BlockCheck.covers (BlockCheck.image index) rows S = true ->
  (forall B j, S B j = true -> 0 <= B < rows /\ 0 <= j < 114) ->
  forall B j,
    (exists k, 0 <= k < 456 /\ index k = (B, j)) <-> S B j = true.
Proof.
  unfold BlockCheck.image_within, BlockCheck.covers.
  rewrite forallb_forall, forallb_seqZ. intros Hwithin Hcovers Hbound B j. split.
  - intros [k [Hk Heq]].
    assert (In (index k) (BlockCheck.image index)) as Hin
      by (apply in_map, list_elem_of_In, elem_of_seqZ; lia).
    specialize (Hwithin _ Hin). rewrite Heq in Hwithin. exact Hwithin.
  - intros HS. destruct (Hbound B j HS) as [HB Hj].
    specialize (Hcovers B HB). rewrite forallb_seqZ in Hcovers.
    specialize (Hcovers j Hj). rewrite HS in Hcovers.
    apply in_image_spec, Hcovers.
Qed.

Lemma in_grid_spec rows B j :
  BlockCheck.in_grid rows B j = true <-> 0 <= B < rows /\ 0 <= j < 114.
Proof. unfold BlockCheck.in_grid. rewrite !andb_true_iff. lia. Qed.

Lemma in_half_grid_spec o B j :
  BlockCheck.in_half_grid o B j = true <->
  0 <= B < 8 /\ 0 <= j < 114 /\ Z.rem j 2 = Z.quot (Z.rem (B + 8 - o) 8) 4.
Proof.
  unfold BlockCheck.in_half_grid. rewrite andb_true_iff, in_grid_spec, Z.eqb_eq.
  tauto.
Qed.

Lemma XCCH_injective : injective_on_block index_XCCH.
Proof. apply injective_spec. vm_compute. reflexivity. Qed.

Lemma XCCH_image : image_is_grid index_XCCH 4.
Proof.
  intros B j. rewrite <- in_grid_spec.
  apply (image_spec index_XCCH 4 (BlockCheck.in_grid 4)).
  - vm_compute. reflexivity.
  - vm_compute. reflexivity.
  - intros B' j'. apply in_grid_spec.
Qed.

Lemma TCH_injective o : o = 0 \/ o = 4 -> injective_on_block (index_TCH o).
Proof.
  intros [-> | ->]; apply injective_spec; vm_compute; reflexivity.
Qed.

Lemma TCH_image o :
  o = 0 \/ o = 4 ->
  forall B j,
    (exists k, 0 <= k < 456 /\ index_TCH o k = (B, j)) <->
    (0 <= B < 8 /\ 0 <= j < 114 /\ Z.rem j 2 = Z.quot (Z.rem (B + 8 - o) 8) 4).
Proof.
  intros Ho B j. rewrite <- in_half_grid_spec.
  apply (image_spec (index_TCH o) 8 (BlockCheck.in_half_grid o)).
  - destruct Ho as [-> | ->]; vm_compute; reflexivity.
  - destruct Ho as [-> | ->]; vm_compute; reflexivity.
  - intros B' j' HS. apply in_half_grid_spec in HS. lia.
Qed.

Lemma TCH_parity_flip B :
  0 <= B < 8 ->
  (Z.quot (Z.rem (B + 8 - 0) 8) 4 = 0 /\ Z.quot (Z.rem (B + 8 - 4) 8) 4 = 1) \/
  (Z.quot (Z.rem (B + 8 - 0) 8) 4 = 1 /\ Z.quot (Z.rem (B + 8 - 4) 8) 4 = 0).
Proof.
  intros HB.
  assert (forallb (fun B =>
            let a := Z.quot (Z.rem (B + 8 - 0) 8) 4 in
            let b := Z.quot (Z.rem (B + 8 - 4) 8) 4 in
            ((a =? 0) && (b =? 1)) || ((a =? 1) && (b =? 0))) (seqZ 0 8) = true)
    as Hall by (vm_compute; reflexivity).
  rewrite forallb_seqZ in Hall. specialize (Hall B HB). cbv zeta in Hall.
  rewrite orb_true_iff, !andb_true_iff, !Z.eqb_eq in Hall. exact Hall.
Qed.

(** C2, as the specification states it, fails for TCH: one block of 456
    bits cannot fill 8 x 114 cells.  With block offset 0 the cell
    [(B, j) = (0, 1)] is not produced, with block offset 4 the cell
    [(0, 0)] is not. *)
Lemma TCH_image_is_not_the_grid :
  ~ image_is_grid (index_TCH 0) 8 /\ ~ image_is_grid (index_TCH 4) 8.
Proof.
  split; intros Hgrid.
  - assert (exists k, 0 <= k < 456 /\ index_TCH 0 k = (0, 1)) as Hk
      by (apply Hgrid; lia).
    apply in_image_spec in Hk. vm_compute in Hk. discriminate.
  - assert (exists k, 0 <= k < 456 /\ index_TCH 4 k = (0, 0)) as Hk
      by (apply Hgrid; lia).
    apply in_image_spec in Hk. vm_compute in Hk. discriminate.
Qed.

(** C2, amended.  The XCCH index map [k |-> (k mod 4, j)] is one-to-one on
    [0, 456) and the pairs it yields are exactly [0, 4) x [0, 114).  The
    TCH index map [k |-> ((k + blockOffset) mod 8, j)], for the block
    offsets 0 and 4 the coder uses, is one-to-one on [0, 456) and yields
    exactly the half of [0, 8) x [0, 114) whose column parity is
    [((B + 8 - blockOffset) mod 8) div 4]; the two offsets together yield
    every cell of [0, 8) x [0, 114). *)
Theorem interleaver_index_bijection :
  (injective_on_block index_XCCH /\ image_is_grid index_XCCH 4) /\
  (injective_on_block (index_TCH 0) /\ injective_on_block (index_TCH 4)) /\
  (forall o B j,
      In o [0; 4] ->
      ((exists k, 0 <= k < 456 /\ index_TCH o k = (B, j)) <->
       (0 <= B < 8 /\ 0 <= j < 114 /\
        Z.rem j 2 = Z.quot (Z.rem (B + 8 - o) 8) 4))) /\
  (forall B j,
      (exists o k, In o [0; 4] /\ 0 <= k < 456 /\ index_TCH o k = (B, j)) <->
      (0 <= B < 8 /\ 0 <= j < 114)).
Proof.
  split; [split; [apply XCCH_injective | apply XCCH_image] |].
  split; [split; apply TCH_injective; auto |].
  split.
  - intros o B j Ho. apply TCH_image. cbn in Ho. intuition lia.
  - intros B j. split.
    + intros (o & k & Ho & Hk & Heq).
      assert (o = 0 \/ o = 4) as Ho' by (cbn in Ho; intuition lia).
      assert (exists k, 0 <= k < 456 /\ index_TCH o k = (B, j)) as Hex by eauto.
      apply (TCH_image o Ho') in Hex. lia.
    + intros [HB Hj].
      assert (0 <= Z.rem j 2 < 2) as Hpar by (apply Z.rem_bound_pos; lia).
      destruct (TCH_parity_flip B HB) as [[Ha Hb] | [Ha Hb]];
        destruct (Z.eq_dec (Z.rem j 2) 0) as [Hj0 | Hj1].
      * destruct (proj2 (TCH_image 0 (or_introl eq_refl) B j)) as [k [Hk Heq]];
          [intuition lia|]. exists 0, k. cbn. auto.
      * destruct (proj2 (TCH_image 4 (or_intror eq_refl) B j)) as [k [Hk Heq]];
          [intuition lia|]. exists 4, k. cbn. auto.
      * destruct (proj2 (TCH_image 4 (or_intror eq_refl) B j)) as [k [Hk Heq]];
          [intuition lia|]. exists 4, k. cbn. auto.
      * destruct (proj2 (TCH_image 0 (or_introl eq_refl) B j)) as [k [Hk Heq]];
          [intuition lia|]. exists 0, k. cbn. auto.
Qed.

End InterleaveFacts.

(** ** Deinterleaving *)

Section Cells.
Import Interleave.
Context {A : Type} (d : A).

Lemma get2_set2_eq (m : list (list A)) B j v row :
  m !! Z.to_nat B = Some row ->
  (Z.to_nat j < length row)%nat ->
  get2 d (set2 m B j v) B j = v.
Proof.
  intros Hrow Hj. unfold get2, set2.
  rewrite list_lookup_alter_eq, Hrow. cbn.
  rewrite list_lookup_insert_eq by assumption. reflexivity.
Qed.

Lemma get2_set2_ne (m : list (list A)) B j B' j' v :
  0 <= B -> 0 <= j -> 0 <= B' -> 0 <= j' ->
  (B, j) <> (B', j') ->
  get2 d (set2 m B j v) B' j' = get2 d m B' j'.
Proof.
  intros HB Hj HB' Hj' Hne. unfold get2, set2.
  destruct (Z.eq_dec B B') as [<-|HBne].
  - rewrite list_lookup_alter_eq.
    destruct (m !! Z.to_nat B) as [row|]; cbn; [|reflexivity].
    rewrite list_lookup_insert_ne; [reflexivity|].
    intros Heq. apply Hne. f_equal. lia.
  - rewrite list_lookup_alter_ne by lia. reflexivity.
Qed.

Lemma get2_lookup (m : list (list A)) B j row x :
  m !! Z.to_nat B = Some row -> row !! Z.to_nat j = Some x ->
  get2 d m B j = x.
Proof. intros Hrow Hx. unfold get2. rewrite Hrow. cbn. rewrite Hx. reflexivity. Qed.

End Cells.

Lemma set2_shape {A} rows (m : list (list A)) B j v :
  shape_ok rows m -> shape_ok rows (Interleave.set2 m B j v).
Proof.
  intros [Hlen Hrows]. unfold Interleave.set2. split.
  - rewrite length_alter. exact Hlen.
  - apply Forall_lookup. intros i row Hi.
    rewrite Forall_lookup in Hrows.
    destruct (Nat.eq_dec (Z.to_nat B) i) as [<-|Hne].
    + rewrite list_lookup_alter_eq in Hi.
      destruct (m !! Z.to_nat B) as [row0|] eqn:Hrow0; [|discriminate].
      cbn in Hi. injection Hi as <-. rewrite length_insert. eauto.
    + rewrite list_lookup_alter_ne in Hi by assumption. eauto.
Qed.

Lemma shape_lookup {A} rows (m : list (list A)) B j :
  shape_ok rows m -> 0 <= B < Z.of_nat rows -> 0 <= j < 114 ->
  exists row, m !! Z.to_nat B = Some row /\ (Z.to_nat j < length row)%nat.
Proof.
  intros [Hlen Hrows] HB Hj.
  destruct (lookup_lt_is_Some_2 m (Z.to_nat B)) as [row Hrow]; [lia|].
  exists row. split; [exact Hrow|].
  rewrite Forall_lookup in Hrows. rewrite (Hrows _ _ Hrow). lia.
Qed.

Section DeinterleaveFacts.
Import Interleave.
Variable index : Z -> Z * Z.
Variable rows : nat.
Hypothesis index_inj : injective_on_block index.
Hypothesis index_range :
  forall k, 0 <= k < 456 ->
    0 <= fst (index k) < Z.of_nat rows /\ 0 <= snd (index k) < 114.

Lemma deinterleave_upto_S n st :
  deinterleave_upto index (S n) st =
  deinterleave_step index (deinterleave_upto index n st) (Z.of_nat n).
Proof.
  unfold deinterleave_upto. rewrite seqZ_S, fold_left_app. reflexivity.
Qed.

(** The loop invariant of [deinterleave] after [n] turns. *)
Lemma deinterleave_upto_inv n mC0 mI0 :
  (n <= 456)%nat ->
  length mC0 = 456%nat ->
  shape_ok rows mI0 ->
  let r := deinterleave_upto index n (mC0, mI0) in
  length (fst r) = 456%nat /\
  shape_ok rows (snd r) /\
  (forall k, 0 <= k < Z.of_nat n ->
     fst r !! Z.to_nat k = Some (get2 0%Q mI0 (fst (index k)) (snd (index k)))) /\
  (forall k, 0 <= k < Z.of_nat n ->
     get2 0%Q (snd r) (fst (index k)) (snd (index k)) = half) /\
  (forall B j, 0 <= B -> 0 <= j ->
     (forall k, 0 <= k < Z.of_nat n -> index k <> (B, j)) ->
     get2 0%Q (snd r) B j = get2 0%Q mI0 B j).
Proof.
  intros Hn HC Hshape. induction n as [|n IH].
  - cbn. split; [exact HC|]. split; [exact Hshape|].
    split; [intros; lia|]. split; [intros; lia|]. reflexivity.
  - rewrite deinterleave_upto_S.
    destruct IH as (HlenC & Hsh & Hcopied & Hneutral & Hkept); [lia|].
    destruct (deinterleave_upto index n (mC0, mI0)) as [mCn mIn]. cbn in *.
    destruct (index_range (Z.of_nat n)) as [HBn Hjn]; [lia|].
    destruct (index (Z.of_nat n)) as [Bn jn] eqn:Hidx. cbn in *.
    assert (forall k, 0 <= k < Z.of_nat n -> index k <> (Bn, jn)) as Hfresh.
    { intros k Hk Heq. rewrite <- Hidx in Heq.
      apply index_inj in Heq; lia. }
    split; [rewrite length_insert; exact HlenC|].
    split; [apply set2_shape; exact Hsh|].
    split; [|split].
    + intros k Hk. destruct (Z.eq_dec k (Z.of_nat n)) as [->|Hne].
      * rewrite list_lookup_insert_eq by lia.
        rewrite Hidx. cbn. f_equal. apply Hkept; auto; lia.
      * rewrite list_lookup_insert_ne by lia. apply Hcopied. lia.
    + intros k Hk. destruct (Z.eq_dec k (Z.of_nat n)) as [->|Hne].
      * rewrite Hidx. cbn.
        destruct (shape_lookup rows mIn Bn jn Hsh HBn Hjn) as (row & Hrow & Hlt).
        apply (get2_set2_eq _ _ _ _ _ row); assumption.
      * destruct (index_range k) as [HBk Hjk]; [lia|].
        rewrite get2_set2_ne; try lia.
        -- apply Hneutral. lia.
        -- intros Heq. apply (Hfresh k); [lia|].
           rewrite Heq. destruct (index k); reflexivity.
    + intros B j HB Hj Hnot.
      rewrite get2_set2_ne; try lia.
      * apply Hkept; auto. intros k Hk. apply Hnot. lia.
      * intros Heq. apply (Hnot (Z.of_nat n)); [lia|]. congruence.
Qed.

Lemma deinterleave_spec mC0 mI0 :
  length mC0 = 456%nat ->
  shape_ok rows mI0 ->
  let r := deinterleave index (mC0, mI0) in
  length (fst r) = 456%nat /\
  shape_ok rows (snd r) /\
  (forall k, 0 <= k < 456 ->
     fst r !! Z.to_nat k = Some (get2 0%Q mI0 (fst (index k)) (snd (index k)))) /\
  (forall k, 0 <= k < 456 ->
     get2 0%Q (snd r) (fst (index k)) (snd (index k)) = half) /\
  (forall B j, 0 <= B -> 0 <= j ->
     (forall k, 0 <= k < 456 -> index k <> (B, j)) ->
     get2 0%Q (snd r) B j = get2 0%Q mI0 B j).
Proof.
  intros HC Hshape.
  exact (deinterleave_upto_inv 456 mC0 mI0 (le_n _) HC Hshape).
Qed.

End DeinterleaveFacts.

Lemma all_half_replicate rows (m : list (list Q)) :
  shape_ok rows m ->
  (forall B j, 0 <= B < Z.of_nat rows -> 0 <= j < 114 ->
     Interleave.get2 0%Q m B j = half) ->
  m = replicate rows (replicate 114 half).
Proof.
  intros [Hlen Hrows] Hcells. rewrite Forall_lookup in Hrows.
  apply list_eq. intros i.
  destruct (Nat.lt_ge_cases i rows) as [Hi|Hi].
  - rewrite lookup_replicate_2 by exact Hi.
    destruct (lookup_lt_is_Some_2 m i) as [row Hrow]; [lia|].
    rewrite Hrow. f_equal. apply list_eq. intros c.
    pose proof (Hrows _ _ Hrow) as Hrowlen.
    destruct (Nat.lt_ge_cases c 114) as [Hc|Hc].
    + rewrite lookup_replicate_2 by exact Hc.
      destruct (lookup_lt_is_Some_2 row c) as [x Hx]; [lia|].
      rewrite Hx. f_equal.
      rewrite <- (Hcells (Z.of_nat i) (Z.of_nat c)) by lia.
      symmetry. apply (get2_lookup _ _ _ _ row); rewrite Nat2Z.id; assumption.
    + rewrite (lookup_ge_None_2 row c) by lia.
      symmetry. apply lookup_replicate_None. exact Hc.
  - rewrite (lookup_ge_None_2 m i) by lia.
    symmetry. apply lookup_replicate_None. exact Hi.
Qed.

Section XCCHDeinterleave.
Import Interleave.

Lemma XCCH_range k :
  0 <= k < 456 ->
  0 <= fst (index_XCCH k) < Z.of_nat 4 /\ 0 <= snd (index_XCCH k) < 114.
Proof.
  intros Hk. apply XCCH_image. exists k. split; [exact Hk|].
  destruct (index_XCCH k); reflexivity.
Qed.

Lemma XCCH_deinterleave_copies st :
  well_formed 4 st ->
  forall k, 0 <= k < 456 ->
    mC (XCCHL1Decoder.deinterleave st) !! Z.to_nat k
    = Some (get2 0%Q (mI st) (B_XCCH k) (j_of k)).
Proof.
  intros [HC Hsh] k Hk.
  destruct (deinterleave_spec index_XCCH 4 XCCH_injective XCCH_range
              (mC st) (mI st) HC Hsh) as (_ & _ & Hcopied & _).
  exact (Hcopied k Hk).
Qed.

Lemma XCCH_deinterleave_wf st :
  well_formed 4 st -> well_formed 4 (XCCHL1Decoder.deinterleave st).
Proof.
  intros [HC Hsh].
  destruct (deinterleave_spec index_XCCH 4 XCCH_injective XCCH_range
              (mC st) (mI st) HC Hsh) as (HC' & Hsh' & _).
  split; assumption.
Qed.

Lemma XCCH_deinterleave_resets st :
  well_formed 4 st ->
  mI (XCCHL1Decoder.deinterleave st) = replicate 4 (replicate 114 half).
Proof.
  intros [HC Hsh].
  destruct (deinterleave_spec index_XCCH 4 XCCH_injective XCCH_range
              (mC st) (mI st) HC Hsh) as (_ & Hsh' & _ & Hneutral & _).
  apply all_half_replicate; [exact Hsh'|].
  intros B j HB Hj.
  destruct (proj2 (XCCH_image B j)) as [k [Hk Heq]]; [cbn in HB; lia|].
  specialize (Hneutral k Hk). rewrite Heq in Hneutral. exact Hneutral.
Qed.

Lemma storeBurst_shape rows B b (m : list (list Q)) :
  shape_ok rows m -> shape_ok rows (storeBurst B b m).
Proof.
  intros [Hlen Hrows]. unfold storeBurst. split.
  - rewrite length_alter. exact Hlen.
  - apply Forall_lookup. intros i row Hi. rewrite Forall_lookup in Hrows.
    destruct (Nat.eq_dec (Z.to_nat B) i) as [<-|Hne].
    + rewrite list_lookup_alter_eq in Hi.
      destruct (m !! Z.to_nat B) as [row0|] eqn:Hrow0; [|discriminate].
      cbn in Hi. injection Hi as <-. unfold BitVector.copyToSegment.
      rewrite !length_inserts. eauto.
    + rewrite list_lookup_alter_ne in Hi by assumption. eauto.
Qed.

Lemma storeBurst_other B B0 b (m : list (list Q)) :
  0 <= B -> 0 <= B0 -> B <> B0 ->
  storeBurst B b m !! Z.to_nat B0 = m !! Z.to_nat B0.
Proof.
  intros HB HB0 Hne. unfold storeBurst. apply list_lookup_alter_ne. lia.
Qed.

Lemma XCCH_processBurst_spec rm b st :
  0 <= Z.rem (rm (FN (time b))) 4 ->
  exists st',
    XCCHL1Decoder.processBurst rm b st
    = Some (Z.rem (rm (FN (time b))) 4 =? 3, st') /\
    mC st' = mC st /\
    mI st' = storeBurst (Z.rem (rm (FN (time b))) 4) b (mI st).
Proof.
  intros HB. unfold XCCHL1Decoder.processBurst.
  destruct (Z.ltb_spec (Z.rem (rm (FN (time b))) 4) 0) as [|_]; [lia|].
  eexists. split; [reflexivity|].
  destruct (Z.rem (rm (FN (time b))) 4 =? 0); split; reflexivity.
Qed.

(** Bursts of a frame that lacks burst [B0], up to the burst that
    triggers the next deinterleaving, leave row [B0] as the previous
    deinterleaving left it. *)
Lemma XCCH_missing_burst_run rm B0 bs b3 st :
  0 <= B0 < 3 ->
  Forall (fun b => 0 <= Z.rem (rm (FN (time b))) 4 < 3
                   /\ Z.rem (rm (FN (time b))) 4 <> B0) bs ->
  Z.rem (rm (FN (time b3))) 4 = 3 ->
  well_formed 4 st ->
  mI st !! Z.to_nat B0 = Some (replicate 114 half) ->
  exists stF,
    XCCHL1Decoder.writeLowSide_run rm (bs ++ [b3]) st = Some stF /\
    forall k, 0 <= k < 456 -> Z.rem k 4 = B0 ->
      mC stF !! Z.to_nat k = Some half.
Proof.
  intros HB0 Hbs Hb3. revert st.
  induction Hbs as [|b bs [HB HBne] _ IH]; intros st Hwf Hrow.
  - cbn [app XCCHL1Decoder.writeLowSide_run].
    unfold XCCHL1Decoder.writeLowSide_collect.
    destruct (XCCH_processBurst_spec rm b3 st) as (st' & -> & HC & HI); [lia|].
    rewrite Hb3 in *. cbn.
    eexists. split; [reflexivity|].
    intros k Hk Hk4.
    assert (well_formed 4 st') as Hwf'.
    { destruct Hwf as [HlenC Hsh]. split; [congruence|].
      rewrite HI. apply storeBurst_shape, Hsh. }
    rewrite (XCCH_deinterleave_copies st' Hwf' k Hk).
    f_equal. unfold B_XCCH. rewrite Hk4.
    destruct (XCCH_range k Hk) as [_ Hj]. cbn in Hj.
    apply (get2_lookup _ _ _ _ (replicate 114 half)).
    + rewrite HI, storeBurst_other by lia. exact Hrow.
    + apply lookup_replicate_2. lia.
  - cbn [app XCCHL1Decoder.writeLowSide_run].
    unfold XCCHL1Decoder.writeLowSide_collect.
    destruct (XCCH_processBurst_spec rm b st) as (st' & -> & HC & HI); [lia|].
    destruct (Z.eqb_spec (Z.rem (rm (FN (time b))) 4) 3) as [|_]; [lia|].
    cbn. apply IH.
    + destruct Hwf as [HlenC Hsh]. split; [congruence|].
      rewrite HI. apply storeBurst_shape, Hsh.
    + rewrite HI, storeBurst_other by lia. exact Hrow.
Qed.

(** C3.  On buffers of the allocated size, XCCH deinterleaving copies,
    for every [k] in [0, 456), the soft bit
    [i[k mod 4][2*((49*k) mod 57) + ((k mod 8) div 4)]] into [c[k]] and
    leaves every cell of the four rows at 0.5.  Hence, when the bursts
    that follow up to the next deinterleaving lack the burst of row [B0],
    every [c[k]] with [k mod 4 = B0] of that next frame is 0.5. *)
Theorem XCCH_deinterleave_neutral st :
  well_formed 4 st ->
  (forall k, 0 <= k < 456 ->
     mC (XCCHL1Decoder.deinterleave st) !! Z.to_nat k
     = Some (get2 0%Q (mI st) (Z.rem k 4)
                  (2 * Z.rem (49 * k) 57 + Z.quot (Z.rem k 8) 4))) /\
  mI (XCCHL1Decoder.deinterleave st) = replicate 4 (replicate 114 half) /\
  (forall rm B0 bs b3,
     0 <= B0 < 3 ->
     Forall (fun b => 0 <= Z.rem (rm (FN (time b))) 4 < 3
                      /\ Z.rem (rm (FN (time b))) 4 <> B0) bs ->
     Z.rem (rm (FN (time b3))) 4 = 3 ->
     exists stF,
       XCCHL1Decoder.writeLowSide_run rm (bs ++ [b3])
         (XCCHL1Decoder.deinterleave st) = Some stF /\
       forall k, 0 <= k < 456 -> Z.rem k 4 = B0 ->
         mC stF !! Z.to_nat k = Some half).
Proof.
  intros Hwf. split; [|split].
  - apply XCCH_deinterleave_copies, Hwf.
  - apply XCCH_deinterleave_resets, Hwf.
  - intros rm B0 bs b3 HB0 Hbs Hb3.
    apply XCCH_missing_burst_run; auto.
    + apply XCCH_deinterleave_wf, Hwf.
    + rewrite (XCCH_deinterleave_resets st Hwf).
      apply lookup_replicate_2. lia.
Qed.

End XCCHDeinterleave.

Lemma XCCH_deinterleave_neutral_witness :
  well_formed 4 (Sample.deint 4) /\
  mI (XCCHL1Decoder.deinterleave (Sample.deint 4))
  = replicate 4 (replicate 114 half).
Proof.
  assert (well_formed 4 (Sample.deint 4)) as Hwf.
  { split; [reflexivity | split; [reflexivity |]].
    cbn. repeat constructor. }
  split; [exact Hwf|].
  exact (proj1 (proj2 (XCCH_deinterleave_neutral (Sample.deint 4) Hwf))).
Defined.

(** ** Interleaving followed by deinterleaving *)

Section RoundTrip.
Import Interleave.
Variable index : Z -> Z * Z.
Variable rows : nat.
Hypothesis index_inj : injective_on_block index.
Hypothesis index_range :
  forall k, 0 <= k < 456 ->
    0 <= fst (index k) < Z.of_nat rows /\ 0 <= snd (index k) < 114.

(** The loop invariant of [interleave] after [n] turns. *)
Lemma interleave_upto_inv (c : list bool) (mI0 : list (list bool)) n :
  (n <= 456)%nat ->
  shape_ok rows mI0 ->
  let m := fold_left (interleave_step index c) (seqZ 0 (Z.of_nat n)) mI0 in
  shape_ok rows m /\
  forall k, 0 <= k < Z.of_nat n ->
    get2 false m (fst (index k)) (snd (index k)) = bit_at c k.
Proof.
  intros Hn Hshape. induction n as [|n IH].
  - cbn. split; [exact Hshape | intros; lia].
  - rewrite seqZ_S, fold_left_app. cbn [fold_left].
    destruct IH as [Hsh Hcells]; [lia|].
    set (m := fold_left (interleave_step index c) (seqZ 0 (Z.of_nat n)) mI0) in *.
    unfold interleave_step. rewrite Z.add_0_l.
    destruct (index_range (Z.of_nat n)) as [HBn Hjn]; [lia|].
    destruct (index (Z.of_nat n)) as [Bn jn] eqn:Hidx. cbn [fst snd] in *.
    split; [apply set2_shape; exact Hsh|].
    intros k Hk. destruct (Z.eq_dec k (Z.of_nat n)) as [->|Hne].
    + rewrite Hidx. cbn [fst snd].
      destruct (shape_lookup rows m Bn jn Hsh HBn Hjn) as (row & Hrow & Hlt).
      apply (get2_set2_eq _ _ _ _ _ row); assumption.
    + destruct (index_range k) as [HBk Hjk]; [lia|].
      rewrite get2_set2_ne; try lia.
      * apply Hcells. lia.
      * intros Heq.
        assert (index (Z.of_nat n) = index k) as Hsame
          by (rewrite Hidx, Heq; destruct (index k); reflexivity).
        apply index_inj in Hsame; lia.
Qed.

Lemma get2_soft (m : list (list bool)) B j :
  get2 0%Q (map (map soft_of_bit) m) B j = soft_of_bit (get2 false m B j).
Proof.
  unfold get2. rewrite list_lookup_fmap.
  destruct (m !! Z.to_nat B) as [row|]; cbn; [|reflexivity].
  rewrite list_lookup_fmap. destruct (row !! Z.to_nat j); reflexivity.
Qed.

(** Bits interleaved by the encoder and received without noise come out
    of the decoder's deinterleaving, with the same index map, in their
    place. *)
Lemma deinterleave_interleave (c : list bool) (mI0 : list (list bool))
      (mC0 : list Q) :
  length mC0 = 456%nat ->
  shape_ok rows mI0 ->
  forall k, 0 <= k < 456 ->
    fst (deinterleave index
           (mC0, map (map soft_of_bit) (interleave index c mI0)))
      !! Z.to_nat k
    = Some (soft_of_bit (bit_at c k)).
Proof.
  intros HC Hshape k Hk.
  destruct (interleave_upto_inv c mI0 456 (le_n _) Hshape) as [[Hlen Hrows] Hcells].
  change (fold_left (interleave_step index c) (seqZ 0 (Z.of_nat 456)) mI0)
    with (interleave index c mI0) in *.
  assert (shape_ok rows (map (map soft_of_bit) (interleave index c mI0))) as Hsh.
  { split; [rewrite length_map; exact Hlen|].
    apply Forall_fmap. eapply Forall_impl; [exact Hrows|].
    intros row Hrow. cbn. rewrite length_map. exact Hrow. }
  destruct (deinterleave_spec index rows index_inj index_range _ _ HC Hsh)
    as (_ & _ & Hcopied & _).
  rewrite (Hcopied k Hk), get2_soft, (Hcells k Hk). reflexivity.
Qed.

End RoundTrip.

Lemma TCH_range o k :
  o = 0 \/ o = 4 ->
  0 <= k < 456 ->
  0 <= fst (Interleave.index_TCH o k) < Z.of_nat 8 /\
  0 <= snd (Interleave.index_TCH o k) < 114.
Proof.
  intros Ho Hk.
  assert (0 <= fst (Interleave.index_TCH o k) < 8 /\
          0 <= snd (Interleave.index_TCH o k) < 114 /\
          Z.rem (snd (Interleave.index_TCH o k)) 2
          = Z.quot (Z.rem (fst (Interleave.index_TCH o k) + 8 - o) 8) 4) as Hin.
  { apply (TCH_image o Ho). exists k. split; [exact Hk|].
    destruct (Interleave.index_TCH o k); reflexivity. }
  change (Z.of_nat 8) with 8. lia.
Qed.

(** The decoder recovers an XCCH block with [deinterleave()] and a
    TCH/FACCH block with [deinterleave(blockOffset)] for the block offset
    the encoder interleaved it with. *)
Lemma XCCH_deinterleave_interleave c mI0 mC0 k :
  length mC0 = 456%nat ->
  shape_ok 4 mI0 ->
  0 <= k < 456 ->
  fst (Interleave.deinterleave Interleave.index_XCCH
         (mC0, map (map soft_of_bit) (XCCHL1Encoder.interleave c mI0)))
    !! Z.to_nat k
  = Some (soft_of_bit (Interleave.bit_at c k)).
Proof.
  intros HC Hshape Hk.
  apply (deinterleave_interleave Interleave.index_XCCH 4
           XCCH_injective XCCH_range); assumption.
Qed.

Lemma TCH_deinterleave_interleave o c mI0 mC0 k :
  o = 0 \/ o = 4 ->
  length mC0 = 456%nat ->
  shape_ok 8 mI0 ->
  0 <= k < 456 ->
  fst (Interleave.deinterleave (Interleave.index_TCH o)
         (mC0, map (map soft_of_bit) (TCHFACCHL1Encoder.interleave o c mI0)))
    !! Z.to_nat k
  = Some (soft_of_bit (Interleave.bit_at c k)).
Proof.
  intros Ho HC Hshape Hk.
  apply (deinterleave_interleave (Interleave.index_TCH o) 8
           (TCH_injective o Ho) (fun k => TCH_range o k Ho)); assumption.
Qed.

(** ** The block offset of the TCH/FACCH decoder *)

Section TCHBlockOffset.
Import TCHFACCHL1Decoder.

Lemma rem8_cases x :
  0 <= Z.rem x 8 -> In (Z.rem x 8) [0; 1; 2; 3; 4; 5; 6; 7].
Proof.
  intros H0. pose proof (Z.rem_bound_abs x 8 ltac:(lia)) as Hb.
  unfold In. lia.
Qed.

(** C6, as the specification states it, fails: the burst with [B = 7]
    ends a frame, [B] lies in 4..7, and the frame is deinterleaved with
    block offset 0. *)
Lemma TCH_final_burst_7_uses_offset_0 :
  ~ (forall rm b st off st',
       4 <= Z.rem (rm (FN (time b))) 8 <= 7 ->
       processBurst rm b st = Some (Some off, st') ->
       off = 4).
Proof.
  intros Hclaim.
  pose (b := Sample.burst 7 1%Q). pose (st := Sample.deint 8).
  assert (0 = 4) as Habs; [|discriminate].
  apply (Hclaim Sample.reverseMapping b st 0
           (deinterleave 0
              (with_rows (recordPhy b st) (storeBurst 7 b (mI (recordPhy b st)))))).
  - change (4 <= 7 <= 7). lia.
  - reflexivity.
Qed.

(** C6, amended.  For a burst whose reverse-mapping index [B] is not
    negative, [processBurst] stores the burst in row [B] and deinterleaves
    only when [B mod 4 = 3]: with block offset 4 when [B = 3], the final
    burst of the block 0..3, and with block offset 0 when [B = 7], the
    final burst of the block 4..7.  The offset is always 0 or 4, and the
    final burst of the next four-burst block gets the other one. *)
Theorem TCH_deinterleave_block_offset rm b st :
  0 <= Z.rem (rm (FN (time b))) 8 ->
  let B := Z.rem (rm (FN (time b))) 8 in
  let stored :=
    with_rows (recordPhy b st) (storeBurst B b (mI (recordPhy b st))) in
  (Z.rem B 4 <> 3 -> processBurst rm b st = Some (None, stored)) /\
  (B = 3 -> processBurst rm b st = Some (Some 4, deinterleave 4 stored)) /\
  (B = 7 -> processBurst rm b st = Some (Some 0, deinterleave 0 stored)) /\
  (forall off st', processBurst rm b st = Some (Some off, st') ->
     (off = 4 /\ B = 3) \/ (off = 0 /\ B = 7)) /\
  (Z.rem B 4 = 3 ->
     Z.rem (Z.rem (B + 4) 8) 4 = 3 /\
     blockOffset_of (Z.rem (B + 4) 8) + blockOffset_of B = 4).
Proof.
  intros HB B stored. unfold processBurst. fold B. fold stored.
  destruct (Z.ltb_spec B 0) as [|_]; [lia|].
  pose proof (rem8_cases _ HB) as Hcases. fold B in Hcases. unfold In in Hcases.
  destruct Hcases as [<-|[<-|[<-|[<-|[<-|[<-|[<-|[<-|[]]]]]]]]];
    cbn [Z.rem Z.quotrem Z.pos_div_eucl negb Z.eqb];
    (split; [intros Hne; try reflexivity; exfalso; apply Hne; reflexivity|]);
    (split; [intros [=]; reflexivity|]);
    (split; [intros [=]; reflexivity|]);
    (split; [intros off st' [=]; subst; auto|]);
    intros [=]; split; reflexivity.
Qed.

End TCHBlockOffset.

Lemma TCH_deinterleave_block_offset_witness :
  0 <= Z.rem (Sample.reverseMapping (FN (time (Sample.burst 3 1%Q)))) 8 /\
  TCHFACCHL1Decoder.processBurst Sample.reverseMapping (Sample.burst 3 1%Q)
    (Sample.deint 8)
  = Some (Some 4,
          TCHFACCHL1Decoder.deinterleave 4
            (with_rows (recordPhy (Sample.burst 3 1%Q) (Sample.deint 8))
               (storeBurst 3 (Sample.burst 3 1%Q)
                  (mI (recordPhy (Sample.burst 3 1%Q) (Sample.deint 8)))))).
Proof.
  assert (0 <= Z.rem (Sample.reverseMapping (FN (time (Sample.burst 3 1%Q)))) 8)
    as H0 by (vm_compute; discriminate).
  split; [exact H0|].
  apply (TCH_deinterleave_block_offset Sample.reverseMapping
           (Sample.burst 3 1%Q) (Sample.deint 8) H0).
  reflexivity.
Defined.

(** ** Runs of bursts through the TCH/FACCH decoder *)

Section TCHRuns.
Import TCHFACCHL1Decoder.

Lemma processBursts_offsets rm bs : forall st os stF,
  processBursts rm bs st = Some (os, stF) ->
  Forall (fun off => off = 0 \/ off = 4) os.
Proof.
  induction bs as [|b bs IH]; intros st os stF Hrun; cbn [processBursts] in Hrun.
  - injection Hrun as <- <-. constructor.
  - destruct (processBurst rm b st) as [[o st1]|] eqn:Hstep; [|discriminate].
    cbn [mbind option_bind] in Hrun.
    destruct (processBursts rm bs st1) as [[os' st2]|] eqn:Hrest; [|discriminate].
    cbn [mbind option_bind] in Hrun. injection Hrun as <- <-.
    specialize (IH _ _ _ Hrest).
    destruct o as [off|]; [|exact IH].
    constructor; [|exact IH].
    unfold processBurst in Hstep.
    destruct (Z.rem (rm (FN (time b))) 8 <? 0); [discriminate|].
    destruct (negb (Z.rem (Z.rem (rm (FN (time b))) 8) 4 =? 3)); [discriminate|].
    injection Hstep as <- _. unfold blockOffset_of.
    destruct (Z.rem (rm (FN (time b))) 8 =? 3); auto.
Qed.

(** Sixteen bursts in TDMA order: the frames are deinterleaved with the
    block offsets 4, 0, 4, 0. *)
Example processBursts_sixteen :
  fst <$> processBursts Sample.reverseMapping
            (map (fun fn => Sample.burst fn 1%Q) (seqZ 0 16)) (Sample.deint 8)
  = Some [4; 0; 4; 0].
Proof. vm_compute. reflexivity. Qed.

(** A speech frame sent over two blocks, the encoder's block offset being
    0 then 4, is complete with the burst of index 7 and comes out of
    [deinterleave(0)]. *)
Example TCH_loopback_two_blocks :
  length Sample.twoBlocks = 8%nat /\
  match processBursts Sample.reverseMapping Sample.twoBlocks (Sample.deint 8) with
  | Some (offsets, st) =>
      offsets = [4; 0] /\
      mC st = map soft_of_bit
                (TCHFACCHL1Encoder.encodeTCH Sample.coders Sample.speech1)
  | None => False
  end.
Proof. vm_compute. repeat split. Qed.

End TCHRuns.

(** ** The base decoder *)

(** C7.  In every decoder state, [recyclable()] is true exactly when at
    least one of T3101, T3109, T3111 has expired, and [active()] is true
    exactly when the active flag is set and the decoder is not
    recyclable; so once any of the three timers has expired, [active()]
    is false. *)
Theorem decoder_active_iff_open_and_not_recyclable
        {T : Type} `{Z100Timer T} (st : L1Decoder.State T) :
  (L1Decoder.recyclable st = true <->
     timer_expired (L1Decoder.mT3101 st) = true \/
     timer_expired (L1Decoder.mT3109 st) = true \/
     timer_expired (L1Decoder.mT3111 st) = true) /\
  (L1Decoder.active st = true <->
     L1Decoder.mActive st = true /\ L1Decoder.recyclable st = false) /\
  (timer_expired (L1Decoder.mT3101 st) = true \/
   timer_expired (L1Decoder.mT3109 st) = true \/
   timer_expired (L1Decoder.mT3111 st) = true ->
     L1Decoder.active st = false).
Proof.
  unfold L1Decoder.active, L1Decoder.recyclable.
  destruct (timer_expired (L1Decoder.mT3101 st)),
           (timer_expired (L1Decoder.mT3109 st)),
           (timer_expired (L1Decoder.mT3111 st)),
           (L1Decoder.mActive st); cbn; intuition congruence.
Qed.

(** ** Single precision *)

Section Binary32Facts.
Import Binary32.

Lemma below_spec x e : below x e = true <-> (Qabs x < 2 ^ e)%Q.
Proof.
  unfold below. rewrite Qlt_alt.
  destruct (Qabs x ?= 2 ^ e)%Q; split; congruence.
Qed.

Lemma pow2_pos e : (0 < 2 ^ e)%Q.
Proof. apply Qpower_0_lt. reflexivity. Qed.

Lemma pow2_le a b : a <= b -> (2 ^ a <= 2 ^ b)%Q.
Proof. intros Hab. apply Qpower_le_compat_l; [exact Hab | discriminate]. Qed.

Lemma ulp_exponent_from_le x q0 fuel : forall q,
  q <= q0 <= q + Z.of_nat fuel ->
  (Qabs x < 2 ^ (24 + q0))%Q ->
  q <= ulp_exponent_from fuel q x <= q0.
Proof.
  induction fuel as [|fuel IH]; intros q Hq Hx; cbn [ulp_exponent_from].
  - lia.
  - destruct (below x (24 + q)) eqn:Hb; [lia|].
    assert (q <> q0) as Hne.
    { intros ->. apply below_spec in Hx. congruence. }
    specialize (IH (q + 1) ltac:(lia) Hx). lia.
Qed.

Lemma ulp_exponent_le x k :
  - 149 <= k <= 105 ->
  (Qabs x < 2 ^ (24 + k))%Q ->
  - 149 <= ulp_exponent x <= k.
Proof.
  intros Hk Hx. unfold ulp_exponent.
  apply ulp_exponent_from_le; [lia | exact Hx].
Qed.

Lemma nearest_even_le y G :
  (y <= inject_Z G)%Q -> nearest_even y <= G.
Proof.
  intros Hy. unfold nearest_even.
  pose proof (Qfloor_le y) as Hf.
  assert (Qfloor y <= G) as HfG.
  { rewrite <- (Qfloor_Z G). apply Qfloor_resp_le, Hy. }
  destruct (y - inject_Z (Qfloor y) ?= 1 # 2)%Q eqn:Hc; [| lia |].
  - apply Qeq_alt in Hc.
    assert (Qfloor y <> G) as Hne.
    { intros Heq. rewrite Heq in Hc. lra. }
    destruct (Z.even (Qfloor y)); lia.
  - apply Qgt_alt in Hc.
    assert (Qfloor y <> G) as Hne.
    { intros Heq. rewrite Heq in Hc. lra. }
    lia.
Qed.

Lemma nearest_even_ge y G :
  (inject_Z G <= y)%Q -> G <= nearest_even y.
Proof.
  intros Hy. unfold nearest_even.
  assert (G <= Qfloor y) as HfG.
  { rewrite <- (Qfloor_Z G). apply Qfloor_resp_le, Hy. }
  destruct (y - inject_Z (Qfloor y) ?= 1 # 2)%Q; [|lia|lia].
  destruct (Z.even (Qfloor y)); lia.
Qed.

(** Rounding does not cross a number that has a place on the grid of
    the argument: a multiple of [2^k] when [|x| < 2^(24+k)]. *)
Lemma round_sandwich x m k :
  - 149 <= k <= 105 ->
  (Qabs x < 2 ^ (24 + k))%Q ->
  ((x <= inject_Z m * 2 ^ k)%Q -> (round x <= inject_Z m * 2 ^ k)%Q) /\
  ((inject_Z m * 2 ^ k <= x)%Q -> (inject_Z m * 2 ^ k <= round x)%Q).
Proof.
  intros Hk Hx. unfold round.
  pose proof (ulp_exponent_le x k Hk Hx) as Hq.
  set (q := ulp_exponent x) in *.
  pose proof (pow2_pos q) as Hpq.
  assert (2 ^ k == inject_Z (2 ^ (k - q)) * 2 ^ q)%Q as Hgrid.
  { rewrite Zpower_Qpower by lia. change (inject_Z 2) with 2%Q.
    rewrite <- Qpower_plus by discriminate.
    replace (k - q + q) with k by lia. reflexivity. }
  assert (inject_Z m * 2 ^ k == inject_Z (m * 2 ^ (k - q)) * 2 ^ q)%Q as Hg.
  { rewrite Hgrid, inject_Z_mult. ring. }
  rewrite Qred_correct, Hg.
  split; intros Hle.
  - apply Qmult_le_compat_r; [|apply Qlt_le_weak, Hpq].
    rewrite <- Zle_Qle. apply nearest_even_le.
    apply Qle_shift_div_r; [exact Hpq | exact Hle].
  - apply Qmult_le_compat_r; [|apply Qlt_le_weak, Hpq].
    rewrite <- Zle_Qle. apply nearest_even_ge.
    apply Qle_shift_div_l; [exact Hpq | exact Hle].
Qed.

Lemma round_nonneg x : (0 <= x)%Q -> (0 <= round x)%Q.
Proof.
  intros Hx. unfold round. rewrite Qred_correct.
  pose proof (pow2_pos (ulp_exponent x)) as Hp.
  apply Qmult_le_0_compat; [|apply Qlt_le_weak, Hp].
  change 0%Q with (inject_Z 0). rewrite <- Zle_Qle. apply nearest_even_ge.
  change (inject_Z 0) with 0%Q.
  apply Qle_shift_div_l; [exact Hp | lra].
Qed.

Lemma round_nonpos x : (x <= 0)%Q -> (round x <= 0)%Q.
Proof.
  intros Hx. unfold round. rewrite Qred_correct.
  pose proof (pow2_pos (ulp_exponent x)) as Hp.
  assert (nearest_even (x / 2 ^ ulp_exponent x) <= 0) as Hn.
  { apply nearest_even_le. change (inject_Z 0) with 0%Q.
    apply Qle_shift_div_r; [exact Hp | lra]. }
  rewrite Zle_Qle in Hn. change (inject_Z 0) with 0%Q in Hn. nra.
Qed.


Lemma Qtruncate_nonneg x : (0 <= x)%Q -> Qtruncate x = Qfloor x.
Proof.
  destruct x as [n d]. unfold Qle, Qtruncate, Qfloor. cbn.
  intros Hn. apply Z.quot_div_nonneg; lia.
Qed.

Lemma Qtruncate_nonpos x : (x < 1)%Q -> Qtruncate x <= 0.
Proof.
  destruct x as [n d]. unfold Qlt, Qtruncate. cbn. intros Hn.
  destruct (Z.lt_ge_cases n 0) as [Hneg|Hpos].
  - rewrite <- (Z.opp_involutive n), Z.quot_opp_l by lia.
    pose proof (Z.quot_pos (- n) (Z.pos d) ltac:(lia) ltac:(lia)). lia.
  - rewrite Z.quot_small by lia. lia.
Qed.

Lemma to_int_nonpos x : (x < 1)%Q -> to_int x <= 0.
Proof.
  intros Hx. unfold to_int. pose proof (Qtruncate_nonpos x Hx).
  destruct ((- 2 ^ 31 <=? Qtruncate x) && (Qtruncate x <? 2 ^ 31)); lia.
Qed.

Lemma clamp_TA t :
  (let TA := t in
   let TA := if TA <? 0 then 0 else TA in
   if TA >? 63 then 63 else TA)
  = Z.max 0 (Z.min 63 t).
Proof.
  cbv zeta. destruct (Z.ltb_spec t 0).
  - destruct (Z.gtb_spec 0 63); lia.
  - destruct (Z.gtb_spec t 63); lia.
Qed.

(** [(int)(t + 0.5F)] of a [t] in 0..2^22 is the integer below
    [t + 1/2] or the one above it. *)
Lemma to_int_add_half t :
  (0 <= t)%Q -> (t < 2 ^ 22)%Q ->
  to_int (add t c_0_5) = Qfloor (t + (1 # 2)) \/
  to_int (add t c_0_5) = Qfloor (t + (1 # 2)) + 1.
Proof.
  intros H0 H22. unfold add, c_0_5.
  change (2 ^ 22)%Q with 4194304%Q in H22.
  set (x := (t + (1 # 2))%Q) in *.
  assert (Qabs x < 2 ^ (24 + 0))%Q as Hab
    by (subst x; rewrite Qabs_pos by lra;
        change (2 ^ (24 + 0))%Q with 16777216%Q; lra).
  pose proof (Qfloor_le x) as Hfl. pose proof (Qlt_floor x) as Hfu.
  set (n := Qfloor x) in *.
  assert (0 <= n) as Hn0.
  { subst n. rewrite <- (Qfloor_Z 0). apply Qfloor_resp_le. subst x.
    change (inject_Z 0) with 0%Q. lra. }
  assert (n < 2 ^ 23) as Hn23.
  { rewrite Zlt_Qlt. change (inject_Z (2 ^ 23)) with 8388608%Q.
    subst x. lra. }
  destruct (round_sandwich x n 0 ltac:(lia) Hab) as [_ Hlow].
  destruct (round_sandwich x (n + 1) 0 ltac:(lia) Hab) as [Hup _].
  change (2 ^ 0)%Q with 1%Q in Hlow, Hup.
  rewrite Qmult_1_r in Hlow, Hup.
  specialize (Hlow Hfl). specialize (Hup ltac:(apply Qlt_le_weak, Hfu)).
  set (r := round x) in *.
  assert (Qtruncate r = Qfloor r) as Htr
    by (apply Qtruncate_nonneg; rewrite Zle_Qle in Hn0;
        change (inject_Z 0) with 0%Q in Hn0; lra).
  assert (n <= Qfloor r) as Hf1
    by (rewrite <- (Qfloor_Z n); apply Qfloor_resp_le, Hlow).
  assert (Qfloor r <= n + 1) as Hf2
    by (rewrite <- (Qfloor_Z (n + 1)); apply Qfloor_resp_le, Hup).
  unfold to_int. rewrite Htr.
  destruct (Z.leb_spec (- 2 ^ 31) (Qfloor r)); [|lia].
  destruct (Z.ltb_spec (Qfloor r) (2 ^ 31)); [|lia].
  cbn [andb]. lia.
Qed.

(** [(int)(t + 0.5F)] of a [t] below zero is not above zero. *)
Lemma to_int_add_half_neg t :
  (t < 0)%Q -> to_int (add t c_0_5) <= 0.
Proof.
  intros Hneg. unfold add, c_0_5.
  assert (round (t + (1 # 2)) < 1)%Q as Hr.
  { destruct (Qlt_le_dec 0 (t + (1 # 2))) as [Hpos|Hnp].
    - assert (Qabs (t + (1 # 2)) < 2 ^ (24 + -1))%Q as Hab
        by (rewrite Qabs_pos by lra; change (2 ^ (24 + -1))%Q with 8388608%Q; lra).
      destruct (round_sandwich (t + (1 # 2)) 1 (-1) ltac:(lia) Hab)
        as [Hup _].
      change (inject_Z 1 * 2 ^ (-1))%Q with (1 # 2)%Q in Hup.
      specialize (Hup ltac:(lra)). lra.
    - pose proof (round_nonpos _ Hnp). lra. }
  apply to_int_nonpos, Hr.
Qed.

(** [(int)(t + 0.5F)] of a [t] in 0..[M], [M] an integer below 2^22,
    lies in 0..[M]. *)
Lemma to_int_add_half_range t M :
  0 <= M < 2 ^ 22 ->
  (0 <= t)%Q -> (t <= inject_Z M)%Q ->
  0 <= to_int (add t c_0_5) <= M.
Proof.
  intros HM H0 H1.
  assert (inject_Z M < 4194304)%Q as HMq
    by (change 4194304%Q with (inject_Z (2 ^ 22)); rewrite <- Zlt_Qlt; lia).
  assert (t < 2 ^ 22)%Q as H22
    by (change (2 ^ 22)%Q with 4194304%Q; lra).
  assert (0 <= Qfloor (t + (1 # 2))) as Hn0.
  { rewrite <- (Qfloor_Z 0). apply Qfloor_resp_le.
    change (inject_Z 0) with 0%Q. lra. }
  split; [destruct (to_int_add_half t H0 H22) as [-> | ->]; lia|].
  unfold add, c_0_5. set (x := (t + (1 # 2))%Q).
  assert (Qabs x < 2 ^ (24 + -1))%Q as Hab
    by (subst x; rewrite Qabs_pos by lra;
        change (2 ^ (24 + -1))%Q with 8388608%Q; lra).
  destruct (round_sandwich x (2 * M + 1) (-1) ltac:(lia) Hab) as [Hup _].
  assert (inject_Z (2 * M + 1) * 2 ^ (-1) == inject_Z M + (1 # 2))%Q as Hm.
  { rewrite inject_Z_plus, inject_Z_mult.
    change (2 ^ (-1))%Q with (1 # 2)%Q. change (inject_Z 2) with 2%Q.
    change (inject_Z 1) with 1%Q. field. }
  rewrite Hm in Hup. specialize (Hup ltac:(subst x; lra)).
  assert (0 <= round x)%Q as Hr0 by (apply round_nonneg; subst x; lra).
  unfold to_int. rewrite (Qtruncate_nonneg _ Hr0).
  assert (Qfloor (round x) <= M) as Hf.
  { assert (Qfloor (round x) < M + 1); [|lia].
    rewrite Zlt_Qlt. pose proof (Qfloor_le (round x)) as Hfl.
    rewrite inject_Z_plus. change (inject_Z 1) with 1%Q. lra. }
  assert (0 <= Qfloor (round x)) as Hf0.
  { rewrite <- (Qfloor_Z 0). apply Qfloor_resp_le. exact Hr0. }
  destruct (Z.leb_spec (- 2 ^ 31) (Qfloor (round x))); [|lia].
  destruct (Z.ltb_spec (Qfloor (round x)) (2 ^ 31)); [|lia].
  cbn [andb]. lia.
Qed.

(** [(int)(te + 0.5F)] clamped into 0..63. *)
Lemma TA_of_timing te :
  let TA := Z.max 0 (Z.min 63 (to_int (add te c_0_5))) in
  0 <= TA <= 63 /\
  ((te < 0)%Q -> TA = 0) /\
  ((0 <= te)%Q -> (te < 2 ^ 22)%Q ->
   TA = Z.min 63 (Qfloor (te + (1 # 2))) \/
   TA = Z.min 63 (Qfloor (te + (1 # 2)) + 1)).
Proof.
  intros TA. subst TA.
  split; [lia|]. split.
  - intros Hneg. pose proof (to_int_add_half_neg te Hneg). lia.
  - intros H0 H22.
    assert (0 <= Qfloor (te + (1 # 2))) as Hn0.
    { rewrite <- (Qfloor_Z 0). apply Qfloor_resp_le.
      change (inject_Z 0) with 0%Q. lra. }
    destruct (to_int_add_half te H0 H22) as [-> | ->]; lia.
Qed.

End Binary32Facts.

(** The values that separate [float] from exact arithmetic in this file:
    the sum [0.49999997 + 0.5F] is 1, the literal [0.01F] lies below
    1/100, and a value beyond the range of [int] is converted to the
    least [int]. *)
Example binary32_examples :
  Binary32.add (16777215 # 33554432) Binary32.c_0_5 = 1%Q /\
  Binary32.c_0_01 = (5368709 # 536870912)%Q /\
  Binary32.to_int (Binary32.add 3000000000 Binary32.c_0_5) = - 2 ^ 31 /\
  Binary32.round (1 # 3) = (11184811 # 33554432)%Q.
Proof. vm_compute. repeat split. Qed.

(** ** The RACH decoder *)

Section RACHFacts.
Import BitVector RACHL1Decoder.
Context {T : Type} `{Z100Timer T}.

Lemma field_of_bits_acc bs : forall acc,
  0 <= acc ->
  0 <= fold_left (fun a (b : bool) => 2 * a + (if b then 1 else 0)) bs acc /\
  (fold_left (fun a (b : bool) => 2 * a + (if b then 1 else 0)) bs acc = 0
   <-> acc = 0 /\ Forall (fun b => b = false) bs).
Proof.
  induction bs as [|b bs IH]; intros acc Hacc; cbn.
  - split; [exact Hacc|]. split; [auto | tauto].
  - destruct (IH (2 * acc + (if b then 1 else 0))) as [Hnn Hiff];
      [destruct b; lia|].
    split; [exact Hnn|]. rewrite Hiff. split.
    + intros [Hz Hall]. destruct b; [lia|]. split; [lia | constructor; auto].
    + intros [-> Hall]. inversion Hall; subst. cbn. auto.
Qed.

Lemma peekField_zero v i n :
  peekField v i n = 0 <-> Forall (fun b => b = false) (take n (drop i v)).
Proof.
  unfold peekField, field_of_bits.
  destruct (field_of_bits_acc (take n (drop i v)) 0 ltac:(lia)) as [_ Hiff].
  rewrite Hiff. tauto.
Qed.

Lemma LSB8MSB_octet (v : list bool) : length v = 8%nat -> LSB8MSB v = rev v.
Proof.
  intros Hlen. do 9 (destruct v as [|? v]; try discriminate).
  reflexivity.
Qed.

Lemma mD_after_LSB8MSB u :
  length u = 18%nat -> mD (LSB8MSB_mD u) = rev (take 8 u).
Proof.
  intros Hlen. unfold LSB8MSB_mD, mD.
  assert (length (take 8 u) = 8%nat) as H8 by (rewrite length_take; lia).
  rewrite (LSB8MSB_octet _ H8).
  rewrite take_app_length'; [reflexivity|].
  rewrite length_rev. symmetry. exact H8.
Qed.

(** The truncation to 32 bits of the source does not reach the six bits
    the mask keeps. *)
Lemma mask6_mod32 a b :
  Z.land (Z.lxor (a mod 2 ^ 32) (b mod 2 ^ 32)) 63 = Z.land (Z.lxor a b) 63.
Proof.
  apply Z.bits_inj'. intros n Hn.
  rewrite !Z.land_spec, !Z.lxor_spec.
  change 63 with (Z.ones 6).
  destruct (Z.lt_ge_cases n 6) as [Hlt|Hge].
  - rewrite !Z.mod_pow2_bits_low by lia. reflexivity.
  - rewrite Z.ones_spec_high by lia. rewrite !andb_false_r. reflexivity.
Qed.

Lemma encodedBSIC_spec env u :
  encodedBSIC env u
  = Z.land (Z.lxor (Z.lnot (peekField u 8 6)) (parity env (take 8 u))) 63.
Proof. unfold encodedBSIC, sentParity, checkParity, mD. apply mask6_mod32. Qed.

(** The bit pattern of the sample burst with a timing error just below
    one half is passed up with TA 1. *)
Example RACH_TA_just_below_half :
  option_map up_TA
    (snd (writeLowSide (Sample.rachEnv 42) Sample2.rachBurstJustBelowHalf
            Sample.rachState))
  = Some 1.
Proof. vm_compute. reflexivity. Qed.

(** C1, as the specification states it, fails in its last part: TA is
    not always the timing error rounded to the nearest integer and
    clamped.  The timing error 16777215/33554432, a binary32 number below
    one half, is passed up with TA 1, because the sum with [0.5F] is
    rounded to 1 before it is truncated. *)
Lemma RACH_TA_is_not_the_rounded_timing_error :
  ~ (forall (env : Env) (burst : RxBurst) (st : State Sample.Countdown) call,
       length (decode env (segment (bits burst) 49 36)) = 18%nat ->
       snd (writeLowSide env burst st) = Some call ->
       up_TA call
       = Z.max 0 (Z.min 63 (Qfloor (timingError burst + (1 # 2))))).
Proof.
  intros Hclaim.
  pose proof RACH_TA_just_below_half as HTA.
  destruct (snd (writeLowSide (Sample.rachEnv 42)
                   Sample2.rachBurstJustBelowHalf Sample.rachState))
    as [call|] eqn:Hout; [|discriminate HTA].
  specialize (Hclaim (Sample.rachEnv 42) Sample2.rachBurstJustBelowHalf
                Sample.rachState call eq_refl Hout).
  cbn [option_map] in HTA. injection HTA as HTA. rewrite HTA in Hclaim.
  vm_compute in Hclaim. discriminate Hclaim.
Qed.

(** C1, amended.  With an 18-bit decoder output [u], [writeLowSide]
    calls the upstream SAP if and only if the four tail bits [u[14..17]]
    are zero and [(~u[8..13] XOR parity(d)) & 0x3F] equals the configured
    BSIC.  When either check fails it makes no call and counts a bad
    frame: the running and active flags and the three timers are as
    before, and with [mFERMemory >= 1] the frame error rate, if it was
    not negative, is positive afterwards.
    When both hold, the frame passed up is a DATA frame whose bits are
    [d[0..7]] in reversed bit order, so that its 8-bit field is RA; the
    time and the RSSI are those of the burst, and TA is
    [(int)(timingError + 0.5F)], the sum rounded to binary32 and then
    truncated, clamped into 0..63: it is 0 for a negative timing error
    and, for a timing error from 0 to below 2^22, it is [min(63, n)] or
    [min(63, n + 1)] with [n] the floor of the timing error plus one
    half. *)
Theorem RACH_forwards_iff_tail_and_BSIC env (burst : RxBurst) (st : State T) :
  let u := decode env (segment (bits burst) 49 36) in
  length u = 18%nat ->
  let st' := fst (writeLowSide env burst st) in
  let out := snd (writeLowSide env burst st) in
  (is_Some out <->
     Forall (fun b => b = false) (take 4 (drop 14 u)) /\
     Z.land (Z.lxor (Z.lnot (peekField u 8 6)) (parity env (take 8 u))) 63
     = BSIC env) /\
  (out = None ->
     base st' = L1Decoder.countBadFrame (mFERMemory env) (base st) /\
     L1Decoder.mRunning (base st') = L1Decoder.mRunning (base st) /\
     L1Decoder.mActive (base st') = L1Decoder.mActive (base st) /\
     L1Decoder.mT3101 (base st') = L1Decoder.mT3101 (base st) /\
     L1Decoder.mT3109 (base st') = L1Decoder.mT3109 (base st) /\
     L1Decoder.mT3111 (base st') = L1Decoder.mT3111 (base st) /\
     (1 <= mFERMemory env ->
      (0 <= L1Decoder.mFER (base st))%Q ->
      (0 < L1Decoder.mFER (base st'))%Q)) /\
  (forall call, out = Some call ->
     up_frame call = mkL2Frame (rev (take 8 u)) DATA /\
     peekField (payload (up_frame call)) 0 8 = field_of_bits (rev (take 8 u)) /\
     up_time call = time burst /\
     up_RSSI call = RSSI burst /\
     up_TA call
     = Z.max 0 (Z.min 63
         (Binary32.to_int
            (Binary32.add (timingError burst) Binary32.c_0_5))) /\
     0 <= up_TA call <= 63 /\
     ((timingError burst < 0)%Q -> up_TA call = 0) /\
     ((0 <= timingError burst)%Q -> (timingError burst < 2 ^ 22)%Q ->
      up_TA call = Z.min 63 (Qfloor (timingError burst + (1 # 2))) \/
      up_TA call = Z.min 63 (Qfloor (timingError burst + (1 # 2)) + 1)) /\
     base st' = L1Decoder.countGoodFrame (mFERMemory env) (base st)).
Proof.
  intros u Hlen st' out. subst st' out. unfold writeLowSide. fold u.
  rewrite <- peekField_zero, <- encodedBSIC_spec.
  assert (forall s : L1Decoder.State T,
            1 <= mFERMemory env ->
            (0 <= L1Decoder.mFER s)%Q ->
            (0 < L1Decoder.mFER (L1Decoder.countBadFrame (mFERMemory env) s))%Q)
    as Hbad.
  { intros s HM H0.
    assert (0 < 1 / inject_Z (mFERMemory env))%Q as Ha0
      by (destruct (mFERMemory env); try lia;
          unfold Qdiv, Qinv, inject_Z, Qlt; cbn; lia).
    assert (1 / inject_Z (mFERMemory env) <= 1)%Q as Ha1
      by (destruct (mFERMemory env); try lia;
          unfold Qdiv, Qinv, inject_Z, Qle; cbn; lia).
    unfold L1Decoder.countBadFrame, L1Decoder.with_FER. cbn [L1Decoder.mFER].
    set (a := (1 / inject_Z (mFERMemory env))%Q) in *.
    set (F := L1Decoder.mFER s) in *. nra. }
  destruct (Z.eqb_spec (peekField u 14 4) 0) as [Htail|Htail]; cbn [negb].
  - destruct (Z.eqb_spec (encodedBSIC env u) (BSIC env)) as [Hbsic|Hbsic];
      cbn [negb fst snd].
    + split; [split; [auto | eauto]|]. split; [discriminate|].
      intros call [= <-]. cbn [up_frame up_time up_RSSI up_TA payload].
      rewrite (mD_after_LSB8MSB u Hlen).
      assert (initialTA burst
              = Z.max 0 (Z.min 63
                  (Binary32.to_int
                     (Binary32.add (timingError burst) Binary32.c_0_5))))
        as HTA by apply clamp_TA.
      destruct (TA_of_timing (timingError burst)) as (Hrange & Hneg & Hpos).
      rewrite <- HTA in Hrange, Hneg, Hpos.
      split; [reflexivity|]. split.
      { unfold peekField. rewrite drop_0, firstn_all2; [reflexivity|].
        rewrite length_rev, length_take. lia. }
      split; [reflexivity|]. split; [reflexivity|].
      split; [exact HTA|]. split; [exact Hrange|].
      split; [exact Hneg|]. split; [exact Hpos | reflexivity].
    + split; [split; [intros [? [=]] | tauto]|].
      split; [|discriminate].
      intros _. repeat (split; [reflexivity|]). apply Hbad.
  - cbn [fst snd]. split; [split; [intros [? [=]] | tauto]|].
    split; [|discriminate].
    intros _. repeat (split; [reflexivity|]). apply Hbad.
Qed.

End RACHFacts.

Lemma RACH_forwards_iff_tail_and_BSIC_witness :
  length (RACHL1Decoder.decode (Sample.rachEnv 42)
            (segment (bits Sample.rachBurst) 49 36)) = 18%nat /\
  is_Some (snd (RACHL1Decoder.writeLowSide (Sample.rachEnv 42)
                  Sample.rachBurst Sample.rachState)).
Proof.
  assert (length (RACHL1Decoder.decode (Sample.rachEnv 42)
                    (segment (bits Sample.rachBurst) 49 36)) = 18%nat)
    as Hlen by reflexivity.
  split; [exact Hlen|].
  apply (proj1 (RACH_forwards_iff_tail_and_BSIC (Sample.rachEnv 42)
                  Sample.rachBurst Sample.rachState Hlen)).
  split; [vm_compute; repeat constructor | vm_compute; reflexivity].
Defined.

(** The access burst of the sample carries RA = 0x5A with the parity
    word of BSIC 42: it is passed up with TA 3; under BSIC 41 it is
    dropped. *)
Example RACH_accept_and_reject :
  (option_map (fun call =>
                 (BitVector.peekField (payload (up_frame call)) 0 8, up_TA call))
     (snd (RACHL1Decoder.writeLowSide (Sample.rachEnv 42)
             Sample.rachBurst Sample.rachState))
   = Some (90, 3)) /\
  snd (RACHL1Decoder.writeLowSide (Sample.rachEnv 41)
         Sample.rachBurst Sample.rachState) = None.
Proof. vm_compute. split; reflexivity. Qed.

(** ** The SACCH control loop *)

Section SACCHFacts.
Import SACCHL1Encoder.






Lemma sendFrame_state cfg band sib st :
  snd (fst (sendFrame cfg band sib st))
  = if SACCHL1Decoder.phyNew sib then fst (closedLoop cfg sib st) else st.
Proof.
  unfold sendFrame. destruct (SACCHL1Decoder.phyNew sib).
  - destruct (closedLoop cfg sib st). reflexivity.
  - reflexivity.
Qed.




End SACCHFacts.


(** ** The TCH/FACCH dispatcher *)

Section DispatchFacts.
Import TCHFACCHL1Encoder.

Example fillerC_length : length Filler.fillerC = 456%nat.
Proof. reflexivity. Qed.


(** The latency control alone keeps the newest [maxQ] frames. *)
Lemma latencyControl_length maxQ q :
  0 <= maxQ < 2 ^ 32 ->
  Z.of_nat (length (latencyControl maxQ q)) = Z.min (Z.of_nat (length q)) maxQ.
Proof.
  intros Hq. induction q as [|f q IH]; [cbn; lia|].
  cbn [latencyControl]. rewrite (Z.mod_small maxQ) by exact Hq.
  destruct (Z.gtb_spec (Z.of_nat (length (f :: q))) maxQ) as [Hgt|Hle].
  - rewrite IH. cbn [length] in *. lia.
  - lia.
Qed.


(** [dispatch] on an active channel is the latency control, the choice
    of the block, the interleaver and the four bursts, in this order. *)
Lemma dispatch_by_steps coders cfg st :
  dispatch coders cfg true st
  = (let '(currentFACCH, st2) := selectBlock coders (latencyStep cfg st) in
     let st3 :=
       {| mSpeechQ := mSpeechQ st2; mL2Q := mL2Q st2; mOffset := mOffset st2;
          mPreviousFACCH := mPreviousFACCH st2;
          mU := mU st2; mC := mC st2;
          mI := interleave (mOffset st2) (mC st2) (mI st2) |} in
     (Some {| speechQ_at_interleave := mSpeechQ st3;
              bursts := map (burstOf currentFACCH st3) [0; 1; 2; 3] |},
      {| mSpeechQ := mSpeechQ st3; mL2Q := mL2Q st3;
         mOffset := if mOffset st3 =? 0 then 4 else 0;
         mPreviousFACCH := currentFACCH;
         mU := mU st3; mC := mC st3; mI := mI st3 |})).
Proof. reflexivity. Qed.




End DispatchFacts.

(** ** Bad-frame substitution on the traffic channel *)

Section MutingFacts.
Import TCHFACCHL1Decoder.

(** A failed frame is answered from [mPrevGoodFrame] after it has been
    rewritten in place: what goes to the speech channel is the rewritten
    buffer, and the rewritten buffer is what the decoder keeps. *)
Lemma decodeTCH_bad_frame_in_place random prev :
  toSpeech (decodeTCH None random false prev) = Some (muteFrame random prev) /\
  prevGoodFrame (decodeTCH None random false prev) = muteFrame random prev /\
  good (decodeTCH None random false prev) = false.
Proof. repeat split. Qed.

Lemma muteFrame_length random prev :
  length (muteFrame random prev) = length prev.
Proof.
  unfold muteFrame. cbn [fold_left]. unfold mute_step.
  rewrite !length_insert. reflexivity.
Qed.

(** The rewrite touches bytes 6, 13, 20, 27 and 7, 14, 21, 28 only. *)
Lemma muteFrame_other_bytes random prev i :
  0 <= i -> ~ In i [6; 7; 13; 14; 20; 21; 27; 28] ->
  byte_at (muteFrame random prev) i = byte_at prev i.
Proof.
  intros Hi Hnot. unfold In in Hnot.
  unfold muteFrame. cbn [fold_left]. unfold mute_step.
  unfold byte_at at 1.
  rewrite !list_lookup_insert_ne by (intros Heq; apply Hnot; lia).
  reflexivity.
Qed.

(** Byte 27 on return: the kept top bit, the grid position and the
    attenuated [xmaxc], all three OR-ed at the low end of the byte. *)
Lemma muteFrame_byte_27 random prev :
  length prev = 33%nat ->
  byte_at (muteFrame random prev) 27
  = to_uchar (Z.lor (Z.lor (Z.land (to_char (byte_at prev 27)) 128)
                           (Z.rem (random 3) 4))
                    (attenuate (Z.land (to_char (byte_at prev 27)) 31))).
Proof.
  intros Hlen. unfold muteFrame. cbn [fold_left]. unfold mute_step.
  unfold byte_at at 1.
  rewrite list_lookup_insert_ne by (vm_compute; discriminate).
  rewrite list_lookup_insert_eq; [reflexivity|].
  rewrite !length_insert, Hlen. cbn. lia.
Qed.

(** The top bit of bytes 7, 14, 21, 28 is cleared. *)
Lemma muteFrame_clears_top_bit random prev i :
  length prev = 33%nat ->
  In i [0; 1; 2; 3] ->
  byte_at (muteFrame random prev) (7 + 7 * i)
  = Z.land (byte_at prev (7 + 7 * i)) 127.
Proof.
  intros Hlen Hi. unfold In in Hi.
  unfold muteFrame. cbn [fold_left]. unfold mute_step.
  destruct Hi as [<-|[<-|[<-|[<-|[]]]]]; unfold byte_at at 1;
    repeat (rewrite list_lookup_insert_ne by (vm_compute; discriminate));
    (rewrite list_lookup_insert_eq;
       [|rewrite !length_insert, Hlen; cbn; lia]);
    cbn [default]; f_equal; unfold byte_at;
    repeat (rewrite list_lookup_insert_ne by (vm_compute; discriminate));
    reflexivity.
Qed.

Lemma stored_xmaxc_bits b p :
  0 <= b < 256 -> 0 <= p < 4 ->
  Z.land (to_char (to_uchar
            (Z.lor (Z.lor (Z.land (to_char b) 128) p)
                   (attenuate (Z.land (to_char b) 31))))) 31
  = Z.lor p (attenuate (Z.land (to_char b) 31)).
Proof.
  intros Hb Hp.
  assert (forallb (fun b =>
            forallb (fun p =>
              Z.land (to_char (to_uchar
                        (Z.lor (Z.lor (Z.land (to_char b) 128) p)
                               (attenuate (Z.land (to_char b) 31))))) 31
              =? Z.lor p (attenuate (Z.land (to_char b) 31)))
              (seqZ 0 4)) (seqZ 0 256) = true) as Hall
    by (vm_compute; reflexivity).
  rewrite forallb_seqZ in Hall. specialize (Hall b Hb).
  rewrite forallb_seqZ in Hall. specialize (Hall p Hp).
  apply Z.eqb_eq, Hall.
Qed.

(** What the next bad frame reads as [xmaxc]: the attenuated value with
    the grid position of the last subframe OR-ed into its low bits. *)
Lemma muteFrame_xmaxc_field random prev :
  length prev = 33%nat ->
  0 <= byte_at prev 27 < 256 ->
  0 <= random 3 ->
  xmaxc_field (muteFrame random prev)
  = Z.lor (Z.rem (random 3) 4) (attenuate (xmaxc_field prev)).
Proof.
  intros Hlen Hbyte Hrand. unfold xmaxc_field.
  rewrite (muteFrame_byte_27 random prev Hlen).
  apply stored_xmaxc_bits; [exact Hbyte|].
  apply Z.rem_bound_pos; lia.
Qed.

(** With grid position 0 drawn every time, consecutive bad frames take
    [xmaxc] from 8 down by 2 to the floor 0. *)
Lemma muting_attenuates_when_pos_is_0 :
  map (fun n => xmaxc_field (snd (badFrames (replicate n (fun _ => 0))
                                    Sample.goodFrame)))
      [1; 2; 3; 4; 5; 6]%nat
  = [6; 4; 2; 0; 0; 0].
Proof. vm_compute. reflexivity. Qed.

(** C10 at a failing input.  [mPrevGoodFrame[27]] holds [xmaxc = 8] and
    [random() % 4] is 3 in every draw.  The first bad frame attenuates
    [xmaxc] to 6 and stores [6 | 3 = 7]; every further bad frame reads 7,
    attenuates to 5 and stores [5 | 3 = 7] again, so the field never falls
    below 7.  From the floor, [xmaxc = 0], one bad frame stores 3. *)
Theorem muting_grid_position_overwrites_xmaxc :
  map (fun n => xmaxc_field (snd (badFrames (replicate n (fun _ => 3))
                                    Sample.goodFrame)))
      [1; 2; 3; 4; 5; 6]%nat
  = [7; 7; 7; 7; 7; 7] /\
  xmaxc_field (prevGoodFrame (decodeTCH None (fun _ => 3) false (replicate 33 0)))
  = 3.
Proof. vm_compute. split; reflexivity. Qed.

End MutingFacts.

(** * Further properties *)

(** ** Bursts on the air *)

Section RadioFacts.

Lemma hard_soft_of_bit b : hard (soft_of_bit b) = b.
Proof. destruct b; reflexivity. Qed.

Lemma burstBits_length tsc tx : length (Radio.burstBits tsc tx) = 148%nat.
Proof.
  unfold Radio.burstBits, BitVector.copyToSegment.
  rewrite !length_inserts, !length_insert, length_inserts.
  apply length_replicate.
Qed.

Lemma receive_data1 tsc t r e tx :
  length (tx_data1 tx) = 57%nat ->
  data1 (Radio.receive tsc t r e tx) = map soft_of_bit (tx_data1 tx).
Proof.
  intros H1. unfold data1, segment, Radio.receive. cbn [bits].
  apply list_eq. intros i.
  destruct (Nat.lt_ge_cases i 57) as [Hi|Hi].
  - rewrite lookup_take_lt by exact Hi.
    rewrite lookup_drop, !list_lookup_fmap. f_equal.
    unfold Radio.burstBits, BitVector.copyToSegment.
    rewrite list_lookup_inserts_lt by lia.
    rewrite list_lookup_inserts;
      [f_equal; lia | lia |].
    rewrite !length_insert, length_inserts, length_replicate. lia.
  - rewrite lookup_take_ge by exact Hi.
    symmetry. apply lookup_ge_None_2. rewrite length_map. lia.
Qed.

Lemma receive_data2 tsc t r e tx :
  length (tx_data2 tx) = 57%nat ->
  data2 (Radio.receive tsc t r e tx) = map soft_of_bit (tx_data2 tx).
Proof.
  intros H2. unfold data2, segment, Radio.receive. cbn [bits].
  apply list_eq. intros i.
  destruct (Nat.lt_ge_cases i 57) as [Hi|Hi].
  - rewrite lookup_take_lt by exact Hi.
    rewrite lookup_drop, !list_lookup_fmap. f_equal.
    unfold Radio.burstBits, BitVector.copyToSegment.
    rewrite list_lookup_inserts; [f_equal; lia | lia |].
    rewrite length_inserts, !length_insert, length_inserts, length_replicate.
    lia.
  - rewrite lookup_take_ge by exact Hi.
    symmetry. apply lookup_ge_None_2. rewrite length_map. lia.
Qed.

Lemma receive_flags tsc t r e tx :
  length (tx_data1 tx) = 57%nat ->
  Hl (Radio.receive tsc t r e tx) = tx_Hl tx /\
  Hu (Radio.receive tsc t r e tx) = tx_Hu tx.
Proof.
  intros H1. unfold Hl, Hu, Radio.receive. cbn [bits].
  assert (forall i b, Radio.burstBits tsc tx !! i = Some b ->
            hard (nth i (map soft_of_bit (Radio.burstBits tsc tx)) 0%Q) = b)
    as Hnth.
  { intros i b Hb. rewrite <- (hard_soft_of_bit b). f_equal.
    apply nth_lookup_Some with (d := 0%Q) .
    rewrite list_lookup_fmap, Hb. reflexivity. }
  unfold Radio.burstBits, BitVector.copyToSegment in *.
  split; apply Hnth.
  - rewrite list_lookup_inserts_lt by lia.
    rewrite list_lookup_inserts_ge by lia.
    rewrite list_lookup_insert_ne by lia.
    apply list_lookup_insert_eq.
    rewrite length_inserts, length_replicate. lia.
  - rewrite list_lookup_inserts_lt by lia.
    rewrite list_lookup_inserts_ge by lia.
    apply list_lookup_insert_eq.
    rewrite length_insert, length_inserts, length_replicate. lia.
Qed.

(** A row of the decoder after the two copies of [processBurst]. *)
Lemma store_row {A} (row a b : list A) :
  length row = 114%nat -> length a = 57%nat -> length b = 57%nat ->
  BitVector.copyToSegment b (BitVector.copyToSegment a row 0) 57 = a ++ b.
Proof.
  intros Hrow Ha Hb. unfold BitVector.copyToSegment.
  apply list_eq. intros i.
  destruct (Nat.lt_ge_cases i 57) as [Hi|Hi].
  - rewrite list_lookup_inserts_lt by lia.
    rewrite list_lookup_inserts by lia.
    rewrite lookup_app_l by lia. f_equal. lia.
  - destruct (Nat.lt_ge_cases i 114) as [Hi'|Hi'].
    + rewrite list_lookup_inserts by (rewrite ?length_inserts; lia).
      rewrite lookup_app_r by lia. f_equal. lia.
    + rewrite !lookup_ge_None_2; [reflexivity | |].
      * rewrite length_app. lia.
      * rewrite !length_inserts. lia.
Qed.

(** What [processBurst] puts into a row of 114 cells from the burst that
    carries the encoder's row [erow]. *)
Lemma store_received_row tsc t r e (erow : list bool) (row : list Q) hl hu :
  length erow = 114%nat -> length row = 114%nat ->
  BitVector.copyToSegment
    (data2 (Radio.receive tsc t r e
              (mkTxBurst (segment erow 0 57) (segment erow 57 57) hl hu)))
    (BitVector.copyToSegment
       (data1 (Radio.receive tsc t r e
                 (mkTxBurst (segment erow 0 57) (segment erow 57 57) hl hu)))
       row 0) 57
  = map soft_of_bit erow.
Proof.
  intros He Hrow.
  set (tx := mkTxBurst (segment erow 0 57) (segment erow 57 57) hl hu).
  assert (length (tx_data1 tx) = 57%nat) as H1
    by (cbn; unfold segment; rewrite length_take, length_drop; lia).
  assert (length (tx_data2 tx) = 57%nat) as H2
    by (cbn; unfold segment; rewrite length_take, length_drop; lia).
  rewrite receive_data1, receive_data2 by assumption.
  rewrite store_row by (rewrite ?length_map; assumption).
  rewrite <- map_app. f_equal. cbn. unfold segment.
  rewrite drop_0. rewrite <- (take_drop 57 erow) at 3. f_equal.
  apply take_ge. rewrite length_drop. lia.
Qed.

End RadioFacts.

(** ** An XCCH block from the encoder's [c[]] to the decoder's [c[]] *)

Lemma mI_recordPhy b st : mI (recordPhy b st) = mI st.
Proof. reflexivity. Qed.
Lemma mC_recordPhy b st : mC (recordPhy b st) = mC st.
Proof. reflexivity. Qed.
Lemma mReadTime_recordPhy b st : mReadTime (recordPhy b st) = mReadTime st.
Proof. reflexivity. Qed.
Lemma mI_with_rows st rows : mI (with_rows st rows) = rows.
Proof. reflexivity. Qed.
Lemma mC_with_rows st rows : mC (with_rows st rows) = mC st.
Proof. reflexivity. Qed.
Lemma mReadTime_with_rows st rows : mReadTime (with_rows st rows) = mReadTime st.
Proof. reflexivity. Qed.
Lemma mI_with_readTime st t : mI (with_readTime st t) = mI st.
Proof. reflexivity. Qed.
Lemma mC_with_readTime st t : mC (with_readTime st t) = mC st.
Proof. reflexivity. Qed.
Lemma mReadTime_with_readTime st t : mReadTime (with_readTime st t) = t.
Proof. reflexivity. Qed.
Lemma mI_with_deinterleaved st r : mI (with_deinterleaved st r) = snd r.
Proof. reflexivity. Qed.
Lemma mC_with_deinterleaved st r : mC (with_deinterleaved st r) = fst r.
Proof. reflexivity. Qed.
Lemma mReadTime_with_deinterleaved st r :
  mReadTime (with_deinterleaved st r) = mReadTime st.
Proof. reflexivity. Qed.

Ltac deint_simpl :=
  repeat first
    [ rewrite mI_recordPhy | rewrite mC_recordPhy | rewrite mReadTime_recordPhy
    | rewrite mI_with_rows | rewrite mC_with_rows | rewrite mReadTime_with_rows
    | rewrite mI_with_readTime | rewrite mC_with_readTime
    | rewrite mReadTime_with_readTime
    | rewrite mI_with_deinterleaved | rewrite mC_with_deinterleaved
    | rewrite mReadTime_with_deinterleaved ].

Section XCCHLoopback.
Import Interleave.

Lemma XCCH_interleave_shape c mI0 :
  shape_ok 4 mI0 -> shape_ok 4 (XCCHL1Encoder.interleave c mI0).
Proof.
  intros Hsh.
  exact (proj1 (interleave_upto_inv index_XCCH 4 XCCH_injective XCCH_range
                  c mI0 456 (le_n _) Hsh)).
Qed.

Lemma shape_4_rows {A} (m : list (list A)) :
  shape_ok 4 m ->
  exists r0 r1 r2 r3,
    m = [r0; r1; r2; r3] /\
    length r0 = 114%nat /\ length r1 = 114%nat /\
    length r2 = 114%nat /\ length r3 = 114%nat.
Proof.
  intros [Hlen Hrows].
  destruct m as [|r0 [|r1 [|r2 [|r3 [|]]]]]; try discriminate.
  exists r0, r1, r2, r3. split; [reflexivity|].
  inversion Hrows as [|? ? H0 Hrows1]; subst.
  inversion Hrows1 as [|? ? H1 Hrows2]; subst.
  inversion Hrows2 as [|? ? H2 Hrows3]; subst.
  inversion Hrows3 as [|? ? H3 _]; subst. auto.
Qed.

Lemma XCCH_processBurst_eq rm b st :
  0 <= Z.rem (rm (FN (time b))) 4 ->
  XCCHL1Decoder.processBurst rm b st
  = Some (Z.rem (rm (FN (time b))) 4 =? 3,
          let st2 := with_rows (recordPhy b st)
                       (storeBurst (Z.rem (rm (FN (time b))) 4) b
                          (mI (recordPhy b st))) in
          if Z.rem (rm (FN (time b))) 4 =? 0
          then with_readTime st2 (time b) else st2).
Proof.
  intros HB. unfold XCCHL1Decoder.processBurst.
  destruct (Z.ltb_spec (Z.rem (rm (FN (time b))) 4) 0) as [|_]; [lia|].
  reflexivity.
Qed.

(** X1.  An XCCH block survives the way from the encoder's [c[]] to the
    decoder's [c[]]: the four bursts that [interleave] and [transmit]
    build from 456 coded bits, received without noise in the frames of
    indices 0, 1, 2, 3, leave after [processBurst] and [deinterleave]
    exactly those 456 bits in the decoder's [c[]], and the receive time
    recorded is that of the first burst. *)
Theorem XCCH_block_loopback tsc rm (t : Z -> Time) (r e : Z -> Q)
        (c : list bool) (mIe : list (list bool)) (st : DeinterleaverState) :
  shape_ok 4 mIe ->
  well_formed 4 st ->
  (forall B, 0 <= B < 4 -> Z.rem (rm (FN (t B))) 4 = B) ->
  let sent := snd (XCCHL1EncoderBursts.interleave_transmit c mIe) in
  let received :=
    zip_with (fun B tx => Radio.receive tsc (t B) (r B) (e B) tx)
             [0; 1; 2; 3] sent in
  exists stF,
    XCCHL1Decoder.writeLowSide_run rm received st = Some stF /\
    mReadTime stF = t 0 /\
    forall k, 0 <= k < 456 ->
      mC stF !! Z.to_nat k = Some (soft_of_bit (bit_at c k)).
Proof.
  intros HshE [HC HshD] Hrm sent received.
  pose proof (XCCH_interleave_shape c mIe HshE) as HshI.
  destruct (shape_4_rows _ HshI) as (e0 & e1 & e2 & e3 & HI & L0 & L1 & L2 & L3).
  destruct (shape_4_rows _ HshD) as (d0 & d1 & d2 & d3 & HD & M0 & M1 & M2 & M3).
  subst sent received.
  unfold XCCHL1EncoderBursts.interleave_transmit, XCCHL1EncoderBursts.transmit.
  cbn [snd]. rewrite HI.
  change (map (XCCHL1EncoderBursts.burstOf [e0; e1; e2; e3]) [0; 1; 2; 3])
    with [mkTxBurst (segment e0 0 57) (segment e0 57 57) true true;
          mkTxBurst (segment e1 0 57) (segment e1 57 57) true true;
          mkTxBurst (segment e2 0 57) (segment e2 57 57) true true;
          mkTxBurst (segment e3 0 57) (segment e3 57 57) true true].
  cbn [zip_with].
  set (b0 := Radio.receive tsc (t 0) (r 0) (e 0) _).
  set (b1 := Radio.receive tsc (t 1) (r 1) (e 1) _).
  set (b2 := Radio.receive tsc (t 2) (r 2) (e 2) _).
  set (b3 := Radio.receive tsc (t 3) (r 3) (e 3) _).
  assert (Z.rem (rm (FN (time b0))) 4 = 0) as HB0 by (apply (Hrm 0); lia).
  assert (Z.rem (rm (FN (time b1))) 4 = 1) as HB1 by (apply (Hrm 1); lia).
  assert (Z.rem (rm (FN (time b2))) 4 = 2) as HB2 by (apply (Hrm 2); lia).
  assert (Z.rem (rm (FN (time b3))) 4 = 3) as HB3 by (apply (Hrm 3); lia).
  cbn [XCCHL1Decoder.writeLowSide_run].
  unfold XCCHL1Decoder.writeLowSide_collect.
  rewrite XCCH_processBurst_eq by (rewrite HB0; lia). rewrite HB0.
  cbn [Z.eqb mbind option_bind].
  rewrite XCCH_processBurst_eq by (rewrite HB1; lia). rewrite HB1.
  cbn [Z.eqb Pos.eqb mbind option_bind].
  rewrite XCCH_processBurst_eq by (rewrite HB2; lia). rewrite HB2.
  cbn [Z.eqb Pos.eqb mbind option_bind].
  rewrite XCCH_processBurst_eq by (rewrite HB3; lia). rewrite HB3.
  cbn [Z.eqb Pos.eqb mbind option_bind].
  eexists. split; [reflexivity|].
  split.
  { unfold XCCHL1Decoder.deinterleave. deint_simpl. reflexivity. }
  intros k Hk.
  unfold XCCHL1Decoder.deinterleave.
  deint_simpl.
  rewrite HD.
  change (storeBurst 0 b0 [d0; d1; d2; d3])
    with [Radio.copyBurst b0 d0; d1; d2; d3].
  change (storeBurst 1 b1 [Radio.copyBurst b0 d0; d1; d2; d3])
    with [Radio.copyBurst b0 d0; Radio.copyBurst b1 d1; d2; d3].
  change (storeBurst 2 b2 [Radio.copyBurst b0 d0; Radio.copyBurst b1 d1; d2; d3])
    with [Radio.copyBurst b0 d0; Radio.copyBurst b1 d1; Radio.copyBurst b2 d2; d3].
  change (storeBurst 3 b3
            [Radio.copyBurst b0 d0; Radio.copyBurst b1 d1; Radio.copyBurst b2 d2; d3])
    with [Radio.copyBurst b0 d0; Radio.copyBurst b1 d1; Radio.copyBurst b2 d2; Radio.copyBurst b3 d3].
  subst b0 b1 b2 b3. unfold Radio.copyBurst.
  rewrite !store_received_row by assumption.
  change [map soft_of_bit e0; map soft_of_bit e1; map soft_of_bit e2;
          map soft_of_bit e3]
    with (map (map soft_of_bit) [e0; e1; e2; e3]).
  rewrite <- HI.
  apply (deinterleave_interleave index_XCCH 4 XCCH_injective XCCH_range);
    assumption.
Qed.

End XCCHLoopback.

Lemma XCCH_block_loopback_witness :
  shape_ok 4 Sample2.rows4 /\
  well_formed 4 (Sample.deint 4) /\
  exists stF,
    XCCHL1Decoder.writeLowSide_run Sample.reverseMapping
      (zip_with (fun B tx =>
                   Radio.receive Sample2.tsc (Sample2.frameTime B)
                     (Sample2.rssi B) (Sample2.timing B) tx)
         [0; 1; 2; 3]
         (snd (XCCHL1EncoderBursts.interleave_transmit Filler.fillerC
                 Sample2.rows4)))
      (Sample.deint 4) = Some stF /\
    mReadTime stF = Sample2.frameTime 0 /\
    forall k, 0 <= k < 456 ->
      mC stF !! Z.to_nat k
      = Some (soft_of_bit (Interleave.bit_at Filler.fillerC k)).
Proof.
  assert (shape_ok 4 Sample2.rows4) as HE
    by (split; [reflexivity | cbn; repeat constructor]).
  assert (well_formed 4 (Sample.deint 4)) as HD
    by (split; [reflexivity | split; [reflexivity | cbn; repeat constructor]]).
  split; [exact HE | split; [exact HD|]].
  apply (XCCH_block_loopback Sample2.tsc Sample.reverseMapping
           Sample2.frameTime Sample2.rssi Sample2.timing
           Filler.fillerC Sample2.rows4 (Sample.deint 4) HE HD).
  intros B HB. cbn. apply Z.rem_small. lia.
Defined.

(** ** TCH/FACCH blocks and the rows they share *)

Section TCHHalves.
Import Interleave.

(** X2.  For the block offsets 0 and 4, a TCH/FACCH block interleaved by
    the encoder with one block offset and deinterleaved by the decoder
    with the same block offset comes out bit for bit, whatever else the
    eight rows held before. *)
Theorem TCH_same_offset_round_trip o c mI0 mC0 :
  In o [0; 4] ->
  length mC0 = 456%nat ->
  shape_ok 8 mI0 ->
  forall k, 0 <= k < 456 ->
    fst (deinterleave (index_TCH o)
           (mC0, map (map soft_of_bit) (TCHFACCHL1Encoder.interleave o c mI0)))
      !! Z.to_nat k
    = Some (soft_of_bit (bit_at c k)).
Proof.
  intros Ho HC Hsh k Hk.
  assert (o = 0 \/ o = 4) as Ho' by (cbn in Ho; intuition lia).
  apply (deinterleave_interleave (index_TCH o) 8
           (TCH_injective o Ho') (fun k => TCH_range o k Ho')); assumption.
Qed.

Lemma TCH_same_offset_round_trip_witness :
  In 4 [0; 4] /\
  length (replicate 456 0%Q) = 456%nat /\
  shape_ok 8 Sample2.rows8 /\
  fst (deinterleave (index_TCH 4)
         (replicate 456 0%Q,
          map (map soft_of_bit)
              (TCHFACCHL1Encoder.interleave 4 Filler.fillerC Sample2.rows8)))
    !! Z.to_nat 17
  = Some (soft_of_bit (bit_at Filler.fillerC 17)).
Proof.
  assert (In 4 [0; 4]) as Ho by (cbn; lia).
  assert (shape_ok 8 Sample2.rows8) as Hsh
    by (split; [reflexivity | cbn; repeat constructor]).
  split; [exact Ho | split; [reflexivity | split; [exact Hsh|]]].
  apply (TCH_same_offset_round_trip 4 Filler.fillerC Sample2.rows8
           (replicate 456 0%Q) Ho eq_refl Hsh 17).
  lia.
Defined.

(** X3.  Deinterleaving a TCH/FACCH block with block offset 0 or 4
    consumes half of the eight rows and leaves the other half as it was:
    the cells [(B, j)] with column parity [((B + 8 - offset) mod 8) div 4]
    are set to 0.5, every other cell keeps its soft bit, so that the
    half-received next block is not disturbed. *)
Theorem TCH_deinterleave_keeps_other_half o st B j :
  In o [0; 4] ->
  well_formed 8 st ->
  0 <= B < 8 -> 0 <= j < 114 ->
  get2 0%Q (mI (TCHFACCHL1Decoder.deinterleave o st)) B j
  = if Z.rem j 2 =? Z.quot (Z.rem (B + 8 - o) 8) 4
    then half
    else get2 0%Q (mI st) B j.
Proof.
  intros Ho [HC Hsh] HB Hj.
  assert (o = 0 \/ o = 4) as Ho' by (cbn in Ho; intuition lia).
  destruct (deinterleave_spec (index_TCH o) 8 (TCH_injective o Ho')
              (fun k => TCH_range o k Ho') (mC st) (mI st) HC Hsh)
    as (_ & _ & _ & Hneutral & Hkept).
  unfold TCHFACCHL1Decoder.deinterleave. rewrite mI_with_deinterleaved.
  destruct (Z.eqb_spec (Z.rem j 2) (Z.quot (Z.rem (B + 8 - o) 8) 4)) as [Hpar|Hpar].
  - destruct (proj2 (TCH_image o Ho' B j)) as [k [Hk Heq]]; [auto|].
    specialize (Hneutral k Hk). rewrite Heq in Hneutral. exact Hneutral.
  - apply Hkept; try lia.
    intros k Hk Heq. apply Hpar.
    assert (exists k, 0 <= k < 456 /\ index_TCH o k = (B, j)) as Hex by eauto.
    apply (TCH_image o Ho') in Hex. tauto.
Qed.

Lemma TCH_deinterleave_keeps_other_half_witness :
  In 4 [0; 4] /\ well_formed 8 (Sample.deint 8) /\
  get2 0%Q (mI (TCHFACCHL1Decoder.deinterleave 4 (Sample.deint 8))) 2 10
  = if Z.rem 10 2 =? Z.quot (Z.rem (2 + 8 - 4) 8) 4
    then half
    else get2 0%Q (mI (Sample.deint 8)) 2 10.
Proof.
  assert (In 4 [0; 4]) as Ho by (cbn; lia).
  assert (well_formed 8 (Sample.deint 8)) as Hwf
    by (split; [reflexivity | split; [reflexivity | cbn; repeat constructor]]).
  split; [exact Ho | split; [exact Hwf|]].
  apply (TCH_deinterleave_keeps_other_half 4 (Sample.deint 8) 2 10 Ho Hwf); lia.
Defined.

End TCHHalves.

(** ** The frame error rate *)

Section FERFacts.
Context {T : Type} `{Z100Timer T}.

Lemma FER_weight M :
  1 <= M -> (0 < 1 / inject_Z M)%Q /\ (1 / inject_Z M <= 1)%Q.
Proof.
  intros HM. destruct M as [|p|p]; try lia.
  unfold Qdiv, Qinv, inject_Z, Qlt, Qle. cbn. lia.
Qed.

Lemma countGoodFrame_bounds M (st : L1Decoder.State T) :
  1 <= M -> (0 <= L1Decoder.mFER st)%Q -> (L1Decoder.mFER st <= 1)%Q ->
  (0 <= L1Decoder.mFER (L1Decoder.countGoodFrame M st))%Q /\
  (L1Decoder.mFER (L1Decoder.countGoodFrame M st) <= L1Decoder.mFER st)%Q.
Proof.
  intros HM H0 H1. destruct (FER_weight M HM) as [Ha0 Ha1].
  unfold L1Decoder.countGoodFrame, L1Decoder.with_FER.
  cbn [L1Decoder.mFER].
  set (a := (1 / inject_Z M)%Q) in *. set (F := L1Decoder.mFER st) in *.
  split; nra.
Qed.

Lemma countBadFrame_bounds M (st : L1Decoder.State T) :
  1 <= M -> (0 <= L1Decoder.mFER st)%Q -> (L1Decoder.mFER st <= 1)%Q ->
  (L1Decoder.mFER st <= L1Decoder.mFER (L1Decoder.countBadFrame M st))%Q /\
  (L1Decoder.mFER (L1Decoder.countBadFrame M st) <= 1)%Q.
Proof.
  intros HM H0 H1. destruct (FER_weight M HM) as [Ha0 Ha1].
  unfold L1Decoder.countBadFrame, L1Decoder.with_FER.
  cbn [L1Decoder.mFER].
  set (a := (1 / inject_Z M)%Q) in *. set (F := L1Decoder.mFER st) in *.
  split; nra.
Qed.

(** X4.  With [mFERMemory >= 1], the frame error rate stays between 0
    and 1 over any run of good and bad frames that starts from a value in
    that range, hence over any run after [open()], which sets it to 0; a
    good frame never raises it and a bad frame never lowers it. *)
Theorem FER_stays_between_0_and_1 M (frames : list bool)
        (st : L1Decoder.State T) :
  1 <= M ->
  (0 <= L1Decoder.mFER st)%Q -> (L1Decoder.mFER st <= 1)%Q ->
  ((0 <= L1Decoder.mFER (FrameCount.count M frames st))%Q /\
   (L1Decoder.mFER (FrameCount.count M frames st) <= 1)%Q) /\
  ((0 <= L1Decoder.mFER (FrameCount.count M frames (L1Decoder.open st)))%Q /\
   (L1Decoder.mFER (FrameCount.count M frames (L1Decoder.open st)) <= 1)%Q) /\
  (L1Decoder.mFER (L1Decoder.countGoodFrame M st) <= L1Decoder.mFER st)%Q /\
  (L1Decoder.mFER st <= L1Decoder.mFER (L1Decoder.countBadFrame M st))%Q.
Proof.
  intros HM H0 H1.
  assert (forall frames (s : L1Decoder.State T),
            (0 <= L1Decoder.mFER s)%Q -> (L1Decoder.mFER s <= 1)%Q ->
            (0 <= L1Decoder.mFER (FrameCount.count M frames s))%Q /\
            (L1Decoder.mFER (FrameCount.count M frames s) <= 1)%Q) as Hrun.
  { clear frames st H0 H1. intros frames.
    induction frames as [|ok frames IH]; intros s Hs0 Hs1; [cbn; auto|].
    unfold FrameCount.count. cbn [fold_left]. apply IH; destruct ok.
    - apply countGoodFrame_bounds; assumption.
    - destruct (countBadFrame_bounds M s HM Hs0 Hs1) as [Hle _].
      eapply Qle_trans; [exact Hs0 | exact Hle].
    - destruct (countGoodFrame_bounds M s HM Hs0 Hs1) as [_ Hle].
      eapply Qle_trans; [exact Hle | exact Hs1].
    - apply countBadFrame_bounds; assumption. }
  split; [apply Hrun; assumption|].
  split; [apply Hrun; cbn; lra|].
  split.
  - apply countGoodFrame_bounds; assumption.
  - apply countBadFrame_bounds; assumption.
Qed.

End FERFacts.

Lemma FER_stays_between_0_and_1_witness :
  1 <= 208 /\
  (0 <= L1Decoder.mFER Sample.decoder)%Q /\
  (L1Decoder.mFER Sample.decoder <= 1)%Q /\
  (L1Decoder.mFER
     (FrameCount.count 208 [false; false; true; false] Sample.decoder) <= 1)%Q.
Proof.
  assert (1 <= 208) as HM by lia.
  assert (0 <= L1Decoder.mFER Sample.decoder)%Q as H0 by (vm_compute; discriminate).
  assert (L1Decoder.mFER Sample.decoder <= 1)%Q as H1 by (vm_compute; discriminate).
  split; [exact HM | split; [exact H0 | split; [exact H1|]]].
  apply (FER_stays_between_0_and_1 208 [false; false; true; false]
           Sample.decoder HM H0 H1).
Defined.

(** ** How close the power code comes *)

Lemma forallb_seqZ' (P : Z -> bool) (m n : Z) :
  forallb P (seqZ m n) = true <-> forall k, m <= k < m + n -> P k = true.
Proof.
  rewrite forallb_forall. split.
  - intros Hall k Hk. apply Hall, list_elem_of_In, elem_of_seqZ. lia.
  - intros Hall k Hin. apply list_elem_of_In, elem_of_seqZ in Hin.
    apply Hall. lia.
Qed.

Section PowerSpanFacts.
Import Power PowerSpan.

Lemma all_codes_spec P :
  all_codes P = true -> forall j, 0 <= j < 32 -> P j = true.
Proof. unfold all_codes. rewrite forallb_seqZ. auto. Qed.

Lemma some_code_spec P :
  some_code P = true -> exists j, 0 <= j < 32 /\ P j = true.
Proof.
  unfold some_code. rewrite existsb_exists. intros [j [Hin HP]].
  exists j. split; [|exact HP].
  apply list_elem_of_In, elem_of_seqZ in Hin. lia.
Qed.

Lemma span_ok_tables band table :
  pickTable band = Some table -> span_ok band table = true.
Proof.
  destruct band; intros [= <-]; vm_compute; reflexivity.
Qed.

(** X5.  In every band with a table and for every request above
    [INT_MIN + 39], where the subtraction [power - table[i]] stays
    within [int], [encodePower] answers a code whose dBm is within 1 dB
    of the request for requests between 5 and 39 dBm in the low bands
    and between 0 and 30 dBm in DCS1800 and PCS1900; a request at or
    above the highest entry of the table (39, 36 and 30 dBm) gets that
    entry and a request at or below the lowest entry (5, 0 and 0 dBm)
    gets the lowest entry. *)
Theorem encodePower_within_1_dB band table power c :
  pickTable band = Some table ->
  - 2 ^ 31 + 39 < power < 2 ^ 31 ->
  encodePower band power = Some c ->
  (fst (dense band) <= power <= snd (dense band) ->
     Z.abs (power - at_code table c) <= 1) /\
  (top band <= power -> at_code table c = top band) /\
  (power <= fst (dense band) -> at_code table c = fst (dense band)).
Proof.
  intros Htable Hpower Henc.
  pose proof (span_ok_tables band table Htable) as Hspan.
  unfold encodePower in Henc. rewrite Htable in Henc.
  cbn [mbind option_bind] in Henc. injection Henc as <-.
  pose proof (tables_range band table Htable) as Htab.
  assert (forall j, 0 <= j < 32 -> - 2 ^ 31 < power - at_code table j < 2 ^ 31)
    as Hin by (intros j Hj; specialize (Htab j Hj); lia).
  destruct (encodePower_table_spec table power Hin) as (Hrange & Hmin & _).
  set (c := encodePower_table table power) in *.
  unfold span_ok in Hspan. destruct (dense band) as [lo hi]. cbn [fst snd].
  rewrite !andb_true_iff in Hspan.
  destruct Hspan as [[[Hdense Hbounds] Hlo] Htop].
  pose proof (all_codes_spec _ Hbounds c Hrange) as Hc.
  rewrite andb_true_iff, !Z.leb_le in Hc.
  split; [|split].
  - intros Hp. rewrite forallb_seqZ' in Hdense.
    destruct (some_code_spec _ (Hdense power ltac:(lia))) as [j [Hj Herr]].
    apply Z.leb_le in Herr. specialize (Hmin j Hj). lia.
  - intros Hp. destruct (some_code_spec _ Htop) as [j [Hj Heq]].
    apply Z.eqb_eq in Heq. specialize (Hmin j Hj). lia.
  - intros Hp. destruct (some_code_spec _ Hlo) as [j [Hj Heq]].
    apply Z.eqb_eq in Heq. specialize (Hmin j Hj). lia.
Qed.

Lemma encodePower_within_1_dB_witness :
  pickTable DCS1800 = Some powerCommand1800 /\
  - 2 ^ 31 + 39 < 23 < 2 ^ 31 /\
  encodePower DCS1800 23 = Some 31 /\
  (fst (dense DCS1800) <= 23 <= snd (dense DCS1800) ->
     Z.abs (23 - at_code powerCommand1800 31) <= 1).
Proof.
  assert (- 2 ^ 31 + 39 < 23 < 2 ^ 31) as Hp by lia.
  split; [reflexivity | split; [exact Hp | split; [reflexivity|]]].
  apply (encodePower_within_1_dB DCS1800 powerCommand1800 23 31 eq_refl Hp
           eq_refl).
Defined.

End PowerSpanFacts.

(** ** More of the SACCH control loop *)

Section SACCHMore.
Import SACCHL1Encoder.

Lemma phyNew_after_RSSI sib p :
  SACCHL1Decoder.phyNew
    (SACCHL1Decoder.with_phy sib (XCCHL1Decoder.clearPhyNew p)) = false.
Proof. reflexivity. Qed.




Lemma four_inserts {A} (x : A) (v : list A) :
  length v = 4%nat ->
  fold_left (fun v i => <[i := x]> v) [0; 1; 2; 3]%nat v = [x; x; x; x].
Proof.
  intros Hlen. destruct v as [|a [|b [|c [|d [|]]]]]; try discriminate.
  reflexivity.
Qed.

(** X7.  [SACCHL1FEC::setPhy(RSSI, timingError)] on a pair whose
    measurement arrays hold four entries fills both arrays with its
    arguments and orders, without damping, the power
    [actual - (r - target)] and the timing [actual + t], each computed in
    [float] and clamped as in the closed loop, where [r] and [t] are
    what [RSSI()] and [timingError()] make of four copies of the
    argument, [0.25F*(x+x+x+x)].  The orders depend neither on the
    earlier orders nor on earlier measurements; the new-measurement flag
    is left cleared, so the [sendFrame] that follows transmits these
    orders unchanged. *)
Theorem setPhy_orders_without_damping cfg band wRSSI wTimingError st sib :
  length (mRSSI (SACCHL1Decoder.phy sib)) = 4%nat ->
  length (mTimingError (SACCHL1Decoder.phy sib)) = 4%nat ->
  let r := SACCHPhy.setPhy cfg wRSSI wTimingError (st, sib) in
  let mean x :=
    Binary32.mul Binary32.c_0_25
      (Binary32.add (Binary32.add (Binary32.add x x) x) x) in
  mRSSI (SACCHL1Decoder.phy (snd r)) = [wRSSI; wRSSI; wRSSI; wRSSI] /\
  mTimingError (SACCHL1Decoder.phy (snd r))
  = [wTimingError; wTimingError; wTimingError; wTimingError] /\
  mOrderedMSPower (fst r)
  = clampPower cfg
      (Binary32.sub (Binary32.of_int (SACCHL1Decoder.mActualMSPower sib))
         (Binary32.sub (mean wRSSI)
                       (Binary32.of_int (GSM_RSSITarget cfg)))) /\
  mOrderedMSTiming (fst r)
  = clampTiming cfg
      (Binary32.add (Binary32.of_int (SACCHL1Decoder.mActualMSTiming sib))
                    (mean wTimingError)) /\
  SACCHL1Decoder.phyNew (snd r) = false /\
  snd (fst (sendFrame cfg band (snd r) (fst r))) = fst r.
Proof.
  intros HR HT r mean. subst r mean.
  unfold SACCHPhy.setPhy, SACCHPhy.encoder_setPhy, SACCHPhy.decoder_setPhy.
  cbn [fst snd SACCHL1Decoder.phy SACCHL1Decoder.with_phy
       SACCHL1Decoder.mActualMSPower SACCHL1Decoder.mActualMSTiming].
  unfold XCCHL1Decoder.RSSI, XCCHL1Decoder.timingError, XCCHL1Decoder.clearPhyNew.
  cbn [fst snd mRSSI mTimingError mOrderedMSPower mOrderedMSTiming
       SACCHL1Decoder.phy SACCHL1Decoder.with_phy].
  rewrite (four_inserts wRSSI _ HR), (four_inserts wTimingError _ HT).
  unfold XCCHL1Decoder.sum4. cbn [nth].
  split; [reflexivity|]. split; [reflexivity|].
  split; [reflexivity|]. split; [reflexivity|].
  split; [reflexivity|].
  rewrite sendFrame_state. reflexivity.
Qed.

(** X8.  When the ordered values lie within the configured bounds and
    [GSM.MS.TA.Max] is below 256, the two octets [sendFrame] writes as
    physical header are a power code in 0..31, the one [encodePower]
    gives for the ordered power converted to [int], and the timing
    advance [(int)(mOrderedMSTiming+0.5F)], which lies in
    0..[GSM.MS.TA.Max] and is the integer below the ordered timing plus
    one half or the one above it. *)
Theorem phyHeader_in_range cfg band table st :
  Power.pickTable band = Some table ->
  bounded cfg st ->
  0 <= GSM_MS_TA_Max cfg < 256 ->
  exists code ta,
    phyHeader band st = Some (code, ta) /\
    code = Power.encodePower_table table
             (Binary32.to_int (mOrderedMSPower st)) /\
    0 <= code < 32 /\
    ta = Binary32.to_int
           (Binary32.add (mOrderedMSTiming st) Binary32.c_0_5) /\
    0 <= ta <= GSM_MS_TA_Max cfg /\
    (ta = Qfloor (mOrderedMSTiming st + (1 # 2)) \/
     ta = Qfloor (mOrderedMSTiming st + (1 # 2)) + 1).
Proof.
  intros Htable (_ & _ & Ht0 & Ht1) Hmax.
  pose proof (encodePower_table_range table
                (Binary32.to_int (mOrderedMSPower st))) as Hcode.
  set (code := Power.encodePower_table table
                 (Binary32.to_int (mOrderedMSPower st))) in *.
  pose proof (to_int_add_half_range (mOrderedMSTiming st)
                (GSM_MS_TA_Max cfg) ltac:(lia) Ht0 Ht1) as Hta.
  assert (inject_Z (GSM_MS_TA_Max cfg) < 256)%Q as HMq
    by (change 256%Q with (inject_Z 256); rewrite <- Zlt_Qlt; lia).
  assert (mOrderedMSTiming st < 2 ^ 22)%Q as H22
    by (change (2 ^ 22)%Q with 4194304%Q; lra).
  pose proof (to_int_add_half (mOrderedMSTiming st) Ht0 H22) as Hnear.
  set (ta := Binary32.to_int
               (Binary32.add (mOrderedMSTiming st) Binary32.c_0_5)) in *.
  exists code, ta.
  split; [|repeat split; try reflexivity; try lia; exact Hnear].
  unfold phyHeader, Power.encodePower. rewrite Htable.
  cbn [mbind option_bind]. fold code. fold ta.
  rewrite (Z.mod_small code) by lia.
  rewrite (Z.mod_small ta) by lia. reflexivity.
Qed.

End SACCHMore.

(** [setPhy(-12.3F, 0)] with 33 dBm in use and a target of -40 dB: the
    mean of four copies of the [float] nearest -12.3 is that [float],
    and the order is the [float] 5.2999992, below the 5.3 of exact
    arithmetic. *)
Example setPhy_binary32_example :
  let w := Binary32.round (- (123 # 10)) in
  let r := SACCHPhy.setPhy Sample.config w 0
             (SACCHL1Encoder.mkState 33 0, Sample.sacchDecoder) in
  fst (XCCHL1Decoder.RSSI
         (SACCHL1Decoder.phy
            (SACCHPhy.decoder_setPhy w 0 Sample.sacchDecoder))) = w /\
  SACCHL1Encoder.mOrderedMSPower (fst r) = (1389363 # 262144)%Q /\
  SACCHL1Encoder.mOrderedMSTiming (fst r) = 0%Q.
Proof. vm_compute. repeat split. Qed.

Lemma setPhy_orders_without_damping_witness :
  length (mRSSI (SACCHL1Decoder.phy Sample.sacchDecoder)) = 4%nat /\
  length (mTimingError (SACCHL1Decoder.phy Sample.sacchDecoder)) = 4%nat /\
  SACCHL1Decoder.phyNew
    (snd (SACCHPhy.setPhy Sample.config (-30)%Q (3 # 2)
            (SACCHL1Encoder.mkState 33 0, Sample.sacchDecoder))) = false.
Proof.
  split; [reflexivity | split; [reflexivity|]].
  apply (setPhy_orders_without_damping Sample.config Power.EGSM900
           (-30)%Q (3 # 2) (SACCHL1Encoder.mkState 33 0) Sample.sacchDecoder
           eq_refl eq_refl).
Defined.

Lemma phyHeader_in_range_witness :
  Power.pickTable Power.EGSM900 = Some Power.powerCommandLowBand /\
  SACCHL1Encoder.bounded Sample.config (SACCHL1Encoder.mkState 20 (7 # 2)) /\
  0 <= GSM_MS_TA_Max Sample.config < 256 /\
  exists code ta,
    SACCHL1Encoder.phyHeader Power.EGSM900 (SACCHL1Encoder.mkState 20 (7 # 2))
    = Some (code, ta) /\
    code = Power.encodePower_table Power.powerCommandLowBand
             (Binary32.to_int (SACCHL1Encoder.mOrderedMSPower
                                 (SACCHL1Encoder.mkState 20 (7 # 2)))) /\
    0 <= code < 32 /\
    ta = Binary32.to_int
           (Binary32.add (SACCHL1Encoder.mOrderedMSTiming
                            (SACCHL1Encoder.mkState 20 (7 # 2)))
                         Binary32.c_0_5) /\
    0 <= ta <= GSM_MS_TA_Max Sample.config /\
    (ta = Qfloor (SACCHL1Encoder.mOrderedMSTiming
                    (SACCHL1Encoder.mkState 20 (7 # 2)) + (1 # 2)) \/
     ta = Qfloor (SACCHL1Encoder.mOrderedMSTiming
                    (SACCHL1Encoder.mkState 20 (7 # 2)) + (1 # 2)) + 1).
Proof.
  assert (SACCHL1Encoder.bounded Sample.config (SACCHL1Encoder.mkState 20 (7 # 2)))
    as Hb by (repeat split; vm_compute; discriminate).
  assert (0 <= GSM_MS_TA_Max Sample.config < 256) as Hm by (vm_compute; split; discriminate || reflexivity).
  split; [reflexivity | split; [exact Hb | split; [exact Hm|]]].
  apply (phyHeader_in_range Sample.config Power.EGSM900 Power.powerCommandLowBand
           (SACCHL1Encoder.mkState 20 (7 # 2)) eq_refl Hb Hm).
Defined.

(** ** The measurements a decoder reports *)

Section PhyFacts.

Lemma XCCH_TA_range st : 0 <= fst (XCCHL1Decoder.TA st) <= 63.
Proof.
  unfold XCCHL1Decoder.TA, XCCHL1Decoder.timingError. cbn [fst].
  rewrite clamp_TA. lia.
Qed.

Lemma handleGoodFrame_phy upstream st :
  let r := XCCHL1Decoder.handleGoodFrame upstream st in
  mRSSI (snd r) = mRSSI st /\
  mTimingError (snd r) = mTimingError st /\
  mRSSICounter (snd r) = mRSSICounter st /\
  match fst r with
  | Some (rssi, ta) =>
      upstream = true /\
      rssi = fst (XCCHL1Decoder.RSSI (snd r)) /\
      ta = fst (XCCHL1Decoder.TA (snd r)) /\
      mPhyNew (snd r) = false
  | None => upstream = false /\ snd r = st
  end.
Proof.
  unfold XCCHL1Decoder.handleGoodFrame.
  destruct upstream; cbv zeta; [|cbn [fst snd]; auto 6].
  unfold XCCHL1Decoder.RSSI, XCCHL1Decoder.TA, XCCHL1Decoder.timingError,
    XCCHL1Decoder.clearPhyNew.
  cbn [fst snd mRSSI mTimingError mRSSICounter mPhyNew]. auto 8.
Qed.

Lemma writeLowSide_phy rm decode upstream b st :
  0 <= Z.rem (rm (FN (time b))) 4 ->
  exists up st',
    XCCHL1Decoder.writeLowSide rm decode upstream b st = Some (up, st') /\
    mRSSI st' = mRSSI (recordPhy b st) /\
    mTimingError st' = mTimingError (recordPhy b st) /\
    mRSSICounter st' = mRSSICounter (recordPhy b st) /\
    match up with
    | Some (rssi, ta) =>
        upstream = true /\
        rssi = fst (XCCHL1Decoder.RSSI st') /\
        ta = fst (XCCHL1Decoder.TA st') /\
        mPhyNew st' = false
    | None => mPhyNew st' = true
    end.
Proof.
  intros HB. unfold XCCHL1Decoder.writeLowSide.
  rewrite XCCH_processBurst_eq by exact HB. cbn [mbind option_bind].
  cbv zeta.
  set (st1 := if Z.rem (rm (FN (time b))) 4 =? 0
              then with_readTime _ (time b) else _).
  assert (mRSSI st1 = mRSSI (recordPhy b st) /\
          mTimingError st1 = mTimingError (recordPhy b st) /\
          mRSSICounter st1 = mRSSICounter (recordPhy b st) /\
          mPhyNew st1 = true) as (R1 & T1 & C1 & N1).
  { subst st1. destruct (Z.rem (rm (FN (time b))) 4 =? 0); repeat split. }
  destruct (Z.rem (rm (FN (time b))) 4 =? 3).
  - destruct (decode (mC (XCCHL1Decoder.deinterleave st1))).
    + pose proof (handleGoodFrame_phy upstream
                    (XCCHL1Decoder.deinterleave st1)) as Hh.
      cbv zeta in Hh.
      destruct (XCCHL1Decoder.handleGoodFrame upstream
                  (XCCHL1Decoder.deinterleave st1)) as [up st'].
      cbn [fst snd] in Hh. destruct Hh as (R & T & C & Hup).
      exists up, st'. split; [reflexivity|].
      split; [rewrite R; exact R1|]. split; [rewrite T; exact T1|].
      split; [rewrite C; exact C1|].
      destruct up as [[rssi ta]|]; [exact Hup|].
      destruct Hup as [_ ->]. exact N1.
    + eexists _, _. split; [reflexivity|]. auto.
  - eexists _, _. split; [reflexivity|]. auto.
Qed.

(** [writeLowSide_collect] is [writeLowSide] cut after [deinterleave]:
    what follows, [decode()] and [handleGoodFrame()], touches the
    new-measurement flag alone, so the two agree on when they fail and on
    everything but that flag, burst after burst. *)
Lemma recordPhy_flag b s s' :
  XCCHL1Decoder.clearPhyNew s = XCCHL1Decoder.clearPhyNew s' ->
  recordPhy b s = recordPhy b s'.
Proof.
  destruct s, s'. unfold XCCHL1Decoder.clearPhyNew. cbn [mI mC mRSSI
    mTimingError mRSSICounter mPhyNew mReadTime].
  intros [= -> -> -> -> -> ->]. reflexivity.
Qed.

Lemma handleGoodFrame_flag upstream s :
  XCCHL1Decoder.clearPhyNew (snd (XCCHL1Decoder.handleGoodFrame upstream s))
  = XCCHL1Decoder.clearPhyNew s.
Proof. destruct upstream; reflexivity. Qed.

Lemma writeLowSide_agrees rm decode upstream b s s' :
  XCCHL1Decoder.clearPhyNew s = XCCHL1Decoder.clearPhyNew s' ->
  match XCCHL1Decoder.writeLowSide_collect rm b s,
        XCCHL1Decoder.writeLowSide rm decode upstream b s' with
  | Some (ready, s1), Some (up, s2) =>
      XCCHL1Decoder.clearPhyNew s1 = XCCHL1Decoder.clearPhyNew s2 /\
      (is_Some up -> ready = true)
  | None, None => True
  | _, _ => False
  end.
Proof.
  intros Hs. unfold XCCHL1Decoder.writeLowSide_collect,
    XCCHL1Decoder.writeLowSide, XCCHL1Decoder.processBurst.
  rewrite (recordPhy_flag b s s' Hs). cbv zeta.
  destruct (Z.rem (rm (FN (time b))) 4 <? 0); [exact I|].
  cbn [mbind option_bind].
  destruct (Z.rem (rm (FN (time b))) 4 =? 3).
  - match goal with
    | |- context [decode ?c] => destruct (decode c)
    end.
    + match goal with
      | |- context [XCCHL1Decoder.handleGoodFrame upstream ?x] =>
          pose proof (handleGoodFrame_flag upstream x) as Hf;
          destruct (XCCHL1Decoder.handleGoodFrame upstream x) as [up s2]
      end.
      cbn [snd] in Hf. split; [symmetry; exact Hf | reflexivity].
    + split; [reflexivity | intros [? [=]]].
  - split; [reflexivity | intros [? [=]]].
Qed.

Lemma writeLowSide_run_agrees rm decode upstream bs : forall s s',
  XCCHL1Decoder.clearPhyNew s = XCCHL1Decoder.clearPhyNew s' ->
  match XCCHL1Decoder.writeLowSide_run rm bs s,
        XCCHL1Decoder.writeLowSide_bursts rm decode upstream bs s' with
  | Some sF, Some (_, sF') =>
      XCCHL1Decoder.clearPhyNew sF = XCCHL1Decoder.clearPhyNew sF'
  | None, None => True
  | _, _ => False
  end.
Proof.
  induction bs as [|b bs IH]; intros s s' Hs.
  - exact Hs.
  - cbn [XCCHL1Decoder.writeLowSide_run XCCHL1Decoder.writeLowSide_bursts].
    pose proof (writeLowSide_agrees rm decode upstream b s s' Hs) as Hstep.
    destruct (XCCHL1Decoder.writeLowSide_collect rm b s) as [[ready s1]|];
      destruct (XCCHL1Decoder.writeLowSide rm decode upstream b s')
        as [[up s2]|]; try contradiction; cbn [mbind option_bind];
      [|exact I].
    destruct Hstep as [Hs12 _]. specialize (IH s1 s2 Hs12).
    destruct (XCCHL1Decoder.writeLowSide_run rm bs s1) as [sF|];
      destruct (XCCHL1Decoder.writeLowSide_bursts rm decode upstream bs s2)
        as [[ups sF']|]; try contradiction; cbn [mbind option_bind];
      [exact IH | exact I].
Qed.

Lemma recordPhy_congr b s s' :
  mRSSI s = mRSSI s' ->
  mTimingError s = mTimingError s' ->
  mRSSICounter s = mRSSICounter s' ->
  mRSSI (recordPhy b s) = mRSSI (recordPhy b s') /\
  mTimingError (recordPhy b s) = mTimingError (recordPhy b s') /\
  mRSSICounter (recordPhy b s) = mRSSICounter (recordPhy b s').
Proof.
  intros HR HT HC. unfold recordPhy.
  cbn [mRSSI mTimingError mRSSICounter]. rewrite HR, HT, HC. auto.
Qed.

Lemma four_recordPhy st b1 b2 b3 b4 :
  length (mRSSI st) = 4%nat ->
  length (mTimingError st) = 4%nat ->
  0 <= mRSSICounter st <= 3 ->
  let st4 := recordPhy b4 (recordPhy b3 (recordPhy b2 (recordPhy b1 st))) in
  (forall (i : nat) b,
     [b1; b2; b3; b4] !! i = Some b ->
     mRSSI st4 !! Z.to_nat ((mRSSICounter st + Z.of_nat i) mod 4)
     = Some (RSSI b) /\
     mTimingError st4 !! Z.to_nat ((mRSSICounter st + Z.of_nat i) mod 4)
     = Some (timingError b)) /\
  mRSSICounter st4 = mRSSICounter st.
Proof.
  intros HR HT Hc st4. subst st4.
  destruct st as [rows c rs ts cnt new rt]. cbn in HR, HT, Hc.
  destruct rs as [|r0 [|r1 [|r2 [|r3 [|]]]]]; try discriminate.
  destruct ts as [|t0 [|t1 [|t2 [|t3 [|]]]]]; try discriminate.
  assert (cnt = 0 \/ cnt = 1 \/ cnt = 2 \/ cnt = 3) as Hcases by lia.
  destruct Hcases as [-> | [-> | [-> | ->]]];
    (split; [|reflexivity]);
    intros i b Hi;
    destruct i as [|[|[|[|i]]]]; try discriminate Hi;
    injection Hi as <-; split; reflexivity.
Qed.

(** X9.  An XCCH decoder holds the measurements of the last four
    bursts.  Let the measurement arrays hold four entries and the counter
    [c] be in 0..3, and let four bursts pass through [writeLowSide] on an
    active channel, whatever [decode()] answers and with or without an
    upstream.  Then burst [i] of the four has its RSSI and its timing
    error in cell [(c + i) mod 4] of the two arrays, and the counter is
    back at [c].  If the last burst passed a frame up, the RSSI and the
    TA passed up are what [RSSI()] and [TA()] make of these arrays,
    [0.25F] times the [float] sum of the cells in their order and, for
    the TA, a value in 0..63, and the new-measurement flag is cleared;
    otherwise the flag is set. *)
Theorem XCCH_holds_last_four_measurements rm decode upstream
        b1 b2 b3 b4 st :
  length (mRSSI st) = 4%nat ->
  length (mTimingError st) = 4%nat ->
  0 <= mRSSICounter st <= 3 ->
  Forall (fun b => 0 <= Z.rem (rm (FN (time b))) 4) [b1; b2; b3; b4] ->
  exists ups stF,
    XCCHL1Decoder.writeLowSide_bursts rm decode upstream
      [b1; b2; b3; b4] st = Some (ups, stF) /\
    length ups = 4%nat /\
    (forall (i : nat) b,
       [b1; b2; b3; b4] !! i = Some b ->
       mRSSI stF !! Z.to_nat ((mRSSICounter st + Z.of_nat i) mod 4)
       = Some (RSSI b) /\
       mTimingError stF !! Z.to_nat ((mRSSICounter st + Z.of_nat i) mod 4)
       = Some (timingError b)) /\
    mRSSICounter stF = mRSSICounter st /\
    match last ups with
    | Some (Some (rssi, ta)) =>
        upstream = true /\
        rssi = fst (XCCHL1Decoder.RSSI stF) /\
        ta = fst (XCCHL1Decoder.TA stF) /\
        0 <= ta <= 63 /\
        mPhyNew stF = false
    | _ => mPhyNew stF = true
    end.
Proof.
  intros HR HT Hc Hbs.
  inversion Hbs as [|? ? H1 Hbs1]; subst.
  inversion Hbs1 as [|? ? H2 Hbs2]; subst.
  inversion Hbs2 as [|? ? H3 Hbs3]; subst.
  inversion Hbs3 as [|? ? H4 _]; subst.
  cbn [XCCHL1Decoder.writeLowSide_bursts].
  destruct (writeLowSide_phy rm decode upstream b1 st H1)
    as (u1 & s1 & -> & R1 & T1 & C1 & _).
  cbn [mbind option_bind].
  destruct (writeLowSide_phy rm decode upstream b2 s1 H2)
    as (u2 & s2 & -> & R2 & T2 & C2 & _).
  cbn [mbind option_bind].
  destruct (writeLowSide_phy rm decode upstream b3 s2 H3)
    as (u3 & s3 & -> & R3 & T3 & C3 & _).
  cbn [mbind option_bind].
  destruct (writeLowSide_phy rm decode upstream b4 s3 H4)
    as (u4 & s4 & -> & R4 & T4 & C4 & N4).
  cbn [mbind option_bind].
  exists [u1; u2; u3; u4], s4. split; [reflexivity|].
  split; [reflexivity|].
  destruct (four_recordPhy st b1 b2 b3 b4 HR HT Hc) as (Hcells & Hcnt).
  destruct (recordPhy_congr b2 _ _ R1 T1 C1) as (R1' & T1' & C1').
  rewrite R1' in R2. rewrite T1' in T2. rewrite C1' in C2.
  destruct (recordPhy_congr b3 _ _ R2 T2 C2) as (R2' & T2' & C2').
  rewrite R2' in R3. rewrite T2' in T3. rewrite C2' in C3.
  destruct (recordPhy_congr b4 _ _ R3 T3 C3) as (R3' & T3' & C3').
  rewrite R3' in R4. rewrite T3' in T4. rewrite C3' in C4.
  split; [rewrite R4, T4; exact Hcells|].
  split; [rewrite C4; exact Hcnt|].
  change (last [u1; u2; u3; u4]) with (Some u4).
  destruct u4 as [[rssi ta]|]; [|exact N4].
  destruct N4 as (Hup & Hr & Hta & Hnew).
  split; [exact Hup|]. split; [exact Hr|]. split; [exact Hta|].
  split; [rewrite Hta; apply XCCH_TA_range | exact Hnew].
Qed.

End PhyFacts.

(** Four bursts of RSSI -40 and timing error 3/2 on the frames 0..3, the
    last one completing a good frame: the upcall carries RSSI -40 and
    TA 2 and clears the flag; without a good frame the flag stays
    set. *)
Example XCCH_measurements_of_four_bursts :
  let bs := [Sample.burst 0 1; Sample.burst 1 1; Sample.burst 2 1;
             Sample.burst 3 1] in
  option_map (fun r => (last (fst r), mPhyNew (snd r)))
    (XCCHL1Decoder.writeLowSide_bursts Sample.reverseMapping
       (fun _ => true) true bs (Sample.deint 4))
  = Some (Some (Some ((-40)%Q, 2)), false) /\
  option_map (fun r => (last (fst r), mPhyNew (snd r)))
    (XCCHL1Decoder.writeLowSide_bursts Sample.reverseMapping
       (fun _ => false) true bs (Sample.deint 4))
  = Some (Some None, true).
Proof. vm_compute. split; reflexivity. Qed.

Lemma XCCH_holds_last_four_measurements_witness :
  length (mRSSI (Sample.deint 4)) = 4%nat /\
  length (mTimingError (Sample.deint 4)) = 4%nat /\
  0 <= mRSSICounter (Sample.deint 4) <= 3 /\
  exists ups stF,
    XCCHL1Decoder.writeLowSide_bursts Sample.reverseMapping
      (fun _ => true) true
      [Sample.burst 0 1; Sample.burst 1 1; Sample.burst 2 1; Sample.burst 3 1]
      (Sample.deint 4) = Some (ups, stF) /\
    length ups = 4%nat /\
    (forall (i : nat) b,
       [Sample.burst 0 1; Sample.burst 1 1; Sample.burst 2 1;
        Sample.burst 3 1] !! i = Some b ->
       mRSSI stF !! Z.to_nat ((mRSSICounter (Sample.deint 4) + Z.of_nat i) mod 4)
       = Some (RSSI b) /\
       mTimingError stF
         !! Z.to_nat ((mRSSICounter (Sample.deint 4) + Z.of_nat i) mod 4)
       = Some (timingError b)) /\
    mRSSICounter stF = mRSSICounter (Sample.deint 4) /\
    match last ups with
    | Some (Some (rssi, ta)) =>
        true = true /\
        rssi = fst (XCCHL1Decoder.RSSI stF) /\
        ta = fst (XCCHL1Decoder.TA stF) /\
        0 <= ta <= 63 /\
        mPhyNew stF = false
    | _ => mPhyNew stF = true
    end.
Proof.
  assert (0 <= mRSSICounter (Sample.deint 4) <= 3) as Hc by (cbn; lia).
  split; [reflexivity | split; [reflexivity | split; [exact Hc|]]].
  apply (XCCH_holds_last_four_measurements Sample.reverseMapping
           (fun _ => true) true
           (Sample.burst 0 1) (Sample.burst 1 1) (Sample.burst 2 1)
           (Sample.burst 3 1) (Sample.deint 4) eq_refl eq_refl Hc).
  repeat constructor; vm_compute; discriminate.
Defined.

(** ** The class 1 and class 2 bits of a speech frame *)

Section TCHBitsFacts.
Import Interleave TCHBits.

Lemma bit_at_insert (l : list bool) i x j :
  (i < length l)%nat -> 0 <= j ->
  bit_at (<[i := x]> l) j = if j =? Z.of_nat i then x else bit_at l j.
Proof.
  intros Hi Hj. unfold bit_at.
  destruct (Z.eqb_spec j (Z.of_nat i)) as [->|Hne].
  - rewrite Nat2Z.id, list_lookup_insert_eq by exact Hi. reflexivity.
  - rewrite list_lookup_insert_ne by lia. reflexivity.
Qed.

Lemma bit_at_eq (a b : list bool) :
  length a = length b ->
  (forall j, 0 <= j < Z.of_nat (length a) -> bit_at a j = bit_at b j) ->
  a = b.
Proof.
  intros Hlen Hbits. apply list_eq. intros i.
  destruct (Nat.lt_ge_cases i (length a)) as [Hi|Hi].
  - specialize (Hbits (Z.of_nat i) ltac:(lia)). unfold bit_at in Hbits.
    rewrite Nat2Z.id in Hbits.
    destruct (lookup_lt_is_Some_2 a i Hi) as [x Hx].
    destruct (lookup_lt_is_Some_2 b i ltac:(lia)) as [y Hy].
    rewrite Hx, Hy in *. cbn in Hbits. congruence.
  - rewrite !lookup_ge_None_2 by lia. reflexivity.
Qed.

Lemma encode_class1_spec d u n :
  (n <= 91)%nat -> length u = 189%nat ->
  length (fold_left (encode_step d) (seqZ 0 (Z.of_nat n)) u) = 189%nat /\
  forall j, 0 <= j < 189 ->
    bit_at (fold_left (encode_step d) (seqZ 0 (Z.of_nat n)) u) j
    = if j <? Z.of_nat n then bit_at d (2 * j)
      else if (184 - Z.of_nat n <? j) && (j <=? 184)
           then bit_at d (2 * (184 - j) + 1)
           else bit_at u j.
Proof.
  intros Hn Hu. induction n as [|n IH].
  - change (seqZ 0 (Z.of_nat 0)) with (@nil Z). change (Z.of_nat 0) with 0.
    cbn [fold_left]. split; [exact Hu|]. intros j Hj.
    destruct (Z.ltb_spec j 0); [lia|].
    destruct (Z.ltb_spec (184 - 0) j); cbn [andb]; [|reflexivity].
    destruct (Z.leb_spec j 184); [lia | reflexivity].
  - destruct (IH ltac:(lia)) as [Hlen Hbits].
    rewrite seqZ_S, fold_left_app.
    cbn [fold_left]. rewrite Z.add_0_l. unfold encode_step at 1 3.
    split; [rewrite !length_insert; exact Hlen|].
    intros j Hj. rewrite Nat2Z.inj_succ.
    rewrite bit_at_insert by (rewrite ?length_insert; lia).
    rewrite bit_at_insert by lia.
    rewrite Hbits by lia.
    rewrite !Z2Nat.id by lia.
    destruct (Z.eqb_spec j (184 - Z.of_nat n)) as [->|H1].
    + destruct (Z.ltb_spec (184 - Z.of_nat n) (Z.succ (Z.of_nat n))); [lia|].
      destruct (Z.ltb_spec (184 - Z.succ (Z.of_nat n)) (184 - Z.of_nat n)); [|lia].
      destruct (Z.leb_spec (184 - Z.of_nat n) 184); [|lia].
      cbn. f_equal. lia.
    + destruct (Z.eqb_spec j (Z.of_nat n)) as [->|H2].
      * destruct (Z.ltb_spec (Z.of_nat n) (Z.succ (Z.of_nat n))); [|lia].
        reflexivity.
      * destruct (Z.ltb_spec j (Z.of_nat n)), (Z.ltb_spec j (Z.succ (Z.of_nat n)));
          try lia; try reflexivity.
        destruct (Z.ltb_spec (184 - Z.of_nat n) j),
                 (Z.ltb_spec (184 - Z.succ (Z.of_nat n)) j);
          try lia; reflexivity.
Qed.

Lemma decode_class1_spec u d n :
  (n <= 91)%nat -> length d = 260%nat ->
  length (fold_left (decode_step u) (seqZ 0 (Z.of_nat n)) d) = 260%nat /\
  forall i, 0 <= i < 260 ->
    bit_at (fold_left (decode_step u) (seqZ 0 (Z.of_nat n)) d) i
    = if i <? 2 * Z.of_nat n
      then if Z.even i then bit_at u (i / 2) else bit_at u (184 - i / 2)
      else bit_at d i.
Proof.
  intros Hn Hd. induction n as [|n IH].
  - change (seqZ 0 (Z.of_nat 0)) with (@nil Z). change (Z.of_nat 0) with 0.
    cbn [fold_left]. split; [exact Hd|]. intros i Hi.
    destruct (Z.ltb_spec i (2 * 0)); [lia | reflexivity].
  - destruct (IH ltac:(lia)) as [Hlen Hbits].
    rewrite seqZ_S, fold_left_app.
    cbn [fold_left]. rewrite Z.add_0_l. unfold decode_step at 1 3.
    split; [rewrite !length_insert; exact Hlen|].
    intros i Hi. rewrite Nat2Z.inj_succ.
    rewrite bit_at_insert by (rewrite ?length_insert; lia).
    rewrite bit_at_insert by lia.
    rewrite Hbits by lia.
    rewrite !Z2Nat.id by lia.
    destruct (Z.eqb_spec i (2 * Z.of_nat n + 1)) as [->|H1].
    + destruct (Z.ltb_spec (2 * Z.of_nat n + 1) (2 * Z.succ (Z.of_nat n))); [|lia].
      replace (2 * Z.of_nat n + 1) with (1 + 2 * Z.of_nat n) at 1 by lia.
      rewrite Z.even_add_mul_2. cbn [Z.even].
      f_equal. f_equal. apply Z.div_unique with (r := 1); lia.
    + destruct (Z.eqb_spec i (2 * Z.of_nat n)) as [->|H2].
      * destruct (Z.ltb_spec (2 * Z.of_nat n) (2 * Z.succ (Z.of_nat n))); [|lia].
        replace (2 * Z.of_nat n) with (0 + 2 * Z.of_nat n) at 1 by lia.
        rewrite Z.even_add_mul_2. cbn [Z.even].
        f_equal. apply Z.div_unique with (r := 0); lia.
      * destruct (Z.ltb_spec i (2 * Z.of_nat n)),
                 (Z.ltb_spec i (2 * Z.succ (Z.of_nat n)));
          try lia; reflexivity.
Qed.

Lemma zero_tail_spec u :
  length u = 189%nat ->
  length (zero_tail u) = 189%nat /\
  forall j, 0 <= j < 189 ->
    bit_at (zero_tail u) j = if 185 <=? j then false else bit_at u j.
Proof.
  intros Hu. unfold zero_tail.
  change (seqZ 185 4) with [185; 186; 187; 188]. cbn [fold_left].
  split; [rewrite !length_insert; exact Hu|].
  intros j Hj.
  rewrite !bit_at_insert by (rewrite ?length_insert; change (Z.to_nat _) with 185%nat ||
                              idtac; first [lia | cbn; lia]).
  destruct (Z.leb_spec 185 j) as [H185|H185].
  - assert (j = 185 \/ j = 186 \/ j = 187 \/ j = 188) as Hc by lia.
    destruct Hc as [-> | [-> | [-> | ->]]]; reflexivity.
  - repeat match goal with
           | |- context [?a =? ?b] =>
               destruct (Z.eqb_spec a b); [cbn in *; lia|]
           end.
    reflexivity.
Qed.

Lemma bit_at_copyToSegment (src other : list bool) start j :
  (start + length src <= length other)%nat -> 0 <= j ->
  bit_at (BitVector.copyToSegment src other start) j
  = if (Z.of_nat start <=? j) && (j <? Z.of_nat (start + length src))
    then bit_at src (j - Z.of_nat start)
    else bit_at other j.
Proof.
  intros Hfit Hj. unfold bit_at, BitVector.copyToSegment.
  destruct (Z.leb_spec (Z.of_nat start) j) as [H1|H1]; cbn [andb].
  - destruct (Z.ltb_spec j (Z.of_nat (start + length src))) as [H2|H2].
    + rewrite list_lookup_inserts by lia. do 2 f_equal. lia.
    + rewrite list_lookup_inserts_ge by lia. reflexivity.
  - rewrite list_lookup_inserts_lt by lia. reflexivity.
Qed.

Lemma segment_copyToSegment {A} (src other : list A) start :
  (start + length src <= length other)%nat ->
  segment (BitVector.copyToSegment src other start) start (length src) = src.
Proof.
  intros Hfit. unfold segment, BitVector.copyToSegment.
  apply list_eq. intros i.
  destruct (Nat.lt_ge_cases i (length src)) as [Hi|Hi].
  - rewrite lookup_take_lt by exact Hi. rewrite lookup_drop.
    rewrite list_lookup_inserts by lia. f_equal. lia.
  - rewrite lookup_take_ge by exact Hi. symmetry.
    apply lookup_ge_None_2. exact Hi.
Qed.

Lemma segment_length {A} (v : list A) start len :
  (start + len <= length v)%nat -> length (segment v start len) = len.
Proof. intros H. unfold segment. rewrite length_take, length_drop. lia. Qed.

Lemma segment_map {A B} (f : A -> B) (v : list A) start len :
  segment (map f v) start len = map f (segment v start len).
Proof. unfold segment. rewrite <- fmap_drop, <- fmap_take. reflexivity. Qed.

Lemma bit_at_segment (v : list bool) start len j :
  0 <= j < Z.of_nat len ->
  bit_at (segment v start len) j = bit_at v (Z.of_nat start + j).
Proof.
  intros Hj. unfold bit_at, segment.
  rewrite lookup_take_lt by lia. rewrite lookup_drop.
  do 2 f_equal. lia.
Qed.

(** X10.  The bit reordering of [encodeTCH] and the one of [decodeTCH]
    are inverse to each other: when the decoder is handed the [u[]] the
    encoder built (the convolutional code in between recovered without
    error) and the class 2 bits of the encoder's [c[]] as soft bits, it
    rebuilds the 260 bits [d[]] of the encoder bit for bit, finds the
    four tail bits 0, and reads the parity word where the encoder wrote
    it: the loop over the class 1 bits overwrites neither. *)
Theorem TCH_class_bits_round_trip (parityWord d u c d0 : list bool) :
  length d = 260%nat -> length parityWord = 3%nat -> length u = 189%nat ->
  length c = 456%nat -> length d0 = 260%nat ->
  decode_d (encode_u parityWord d u)
           (map soft_of_bit (encode_class2 d c)) d0 = d /\
  BitVector.peekField (encode_u parityWord d u) 185 4 = 0 /\
  segment (encode_u parityWord d u) 91 3 = parityWord.
Proof.
  intros Hd Hp Hu Hc Hd0.
  assert (length (BitVector.copyToSegment parityWord u 91) = 189%nat) as Hu1
    by (unfold BitVector.copyToSegment; rewrite length_inserts; exact Hu).
  destruct (encode_class1_spec d (BitVector.copyToSegment parityWord u 91) 91
              (le_n _) Hu1) as [Hlen1 Hbits1].
  change (Z.of_nat 91) with 91 in Hlen1, Hbits1.
  fold (encode_class1 d (BitVector.copyToSegment parityWord u 91)) in Hlen1, Hbits1.
  destruct (zero_tail_spec _ Hlen1) as [Hlen2 Hbits2].
  fold (encode_u parityWord d u) in Hlen2, Hbits2.
  assert (forall j, 0 <= j < 189 ->
            bit_at (encode_u parityWord d u) j
            = if 185 <=? j then false
              else if j <? 91 then bit_at d (2 * j)
              else if 93 <? j then bit_at d (2 * (184 - j) + 1)
              else bit_at parityWord (j - 91)) as Hu'.
  { intros j Hj. rewrite Hbits2 by exact Hj.
    destruct (Z.leb_spec 185 j) as [|H185]; [reflexivity|].
    rewrite Hbits1 by exact Hj.
    destruct (Z.ltb_spec j 91) as [|H91]; [reflexivity|].
    change (184 - 91) with 93.
    destruct (Z.ltb_spec 93 j) as [H93|H93]; cbn [andb].
    - destruct (Z.leb_spec j 184); [reflexivity | lia].
    - rewrite bit_at_copyToSegment by lia. rewrite Hp.
      destruct (Z.leb_spec (Z.of_nat 91) j); [|lia].
      destruct (Z.ltb_spec j (Z.of_nat (91 + 3))); [|lia].
      reflexivity. }
  split; [|split].
  - unfold decode_d.
    assert (length (decode_class2 (map soft_of_bit (encode_class2 d c)) d0)
            = 260%nat) as Hlen3
      by (unfold decode_class2, BitVector.copyToSegment;
          rewrite length_inserts; exact Hd0).
    destruct (decode_class1_spec (encode_u parityWord d u) _ 91 (le_n _) Hlen3)
      as [Hlen4 Hbits4].
    change (Z.of_nat 91) with 91 in Hlen4, Hbits4.
    fold (decode_class1 (encode_u parityWord d u)
            (decode_class2 (map soft_of_bit (encode_class2 d c)) d0))
      in Hlen4, Hbits4.
    apply bit_at_eq; [congruence|].
    rewrite Hlen4. intros i Hi. change (Z.of_nat 260) with 260 in Hi.
    rewrite Hbits4 by exact Hi.
    destruct (Z.ltb_spec i (2 * 91)) as [Hlow|Hhigh].
    + assert (0 <= i / 2 <= 90) as Hq
        by (split; [apply Z.div_pos; lia | apply Z.lt_succ_r, Z.div_lt_upper_bound; lia]).
      pose proof (Z.div_mod i 2 ltac:(lia)) as Hdm.
      destruct (Z.even i) eqn:Hev.
      * rewrite Hu' by lia.
        destruct (Z.leb_spec 185 (i / 2)); [lia|].
        destruct (Z.ltb_spec (i / 2) 91); [|lia].
        f_equal. rewrite Zmod_even, Hev in Hdm. lia.
      * rewrite Hu' by lia.
        destruct (Z.leb_spec 185 (184 - i / 2)); [lia|].
        destruct (Z.ltb_spec (184 - i / 2) 91); [lia|].
        destruct (Z.ltb_spec 93 (184 - i / 2)); [|lia].
        f_equal. rewrite Zmod_even, Hev in Hdm. lia.
    + unfold decode_class2, encode_class2.
      rewrite segment_map.
      assert (segment (BitVector.copyToSegment (segment d 182 78) c 378) 378 78
              = segment d 182 78) as Hseg.
      { pose proof (segment_copyToSegment (segment d 182 78) c 378) as Hs.
        rewrite segment_length in Hs by lia. apply Hs. lia. }
      rewrite Hseg.
      rewrite map_map.
      rewrite (map_ext _ id) by (intros b; apply hard_soft_of_bit).
      rewrite map_id.
      rewrite bit_at_copyToSegment by (rewrite ?segment_length by lia; lia).
      rewrite segment_length by lia.
      destruct (Z.leb_spec (Z.of_nat 182) i); [|lia].
      destruct (Z.ltb_spec i (Z.of_nat (182 + 78))); [|lia].
      cbn [andb]. rewrite bit_at_segment by lia. f_equal. lia.
  - apply (proj2 (peekField_zero _ _ _)).
    apply Forall_lookup_2. intros i b Hb.
    assert (i < 4)%nat as Hi
      by (apply lookup_lt_Some in Hb; rewrite length_take in Hb; lia).
    rewrite lookup_take_lt, lookup_drop in Hb by exact Hi.
    specialize (Hu' (Z.of_nat (185 + i)) ltac:(lia)).
    assert ((185 <=? Z.of_nat (185 + i)) = true) as E by (apply Z.leb_le; lia).
    rewrite E in Hu'.
    unfold bit_at in Hu'. rewrite Nat2Z.id, Hb in Hu'. exact Hu'.
  - apply bit_at_eq.
    + rewrite segment_length by lia. congruence.
    + rewrite segment_length by lia. intros j Hj.
      rewrite bit_at_segment by exact Hj.
      rewrite Hu' by lia.
      destruct (Z.leb_spec 185 (Z.of_nat 91 + j)); [lia|].
      destruct (Z.ltb_spec (Z.of_nat 91 + j) 91); [lia|].
      destruct (Z.ltb_spec 93 (Z.of_nat 91 + j)); [lia|].
      f_equal. lia.
Qed.

End TCHBitsFacts.

Lemma TCH_class_bits_round_trip_witness :
  length Sample.speech1 = 260%nat /\
  length [true; false; true] = 3%nat /\
  length (replicate 189 true) = 189%nat /\
  length Filler.fillerC = 456%nat /\
  length (replicate 260 false) = 260%nat /\
  TCHBits.decode_d
    (TCHBits.encode_u [true; false; true] Sample.speech1 (replicate 189 true))
    (map soft_of_bit (TCHBits.encode_class2 Sample.speech1 Filler.fillerC))
    (replicate 260 false) = Sample.speech1 /\
  BitVector.peekField
    (TCHBits.encode_u [true; false; true] Sample.speech1 (replicate 189 true))
    185 4 = 0 /\
  segment
    (TCHBits.encode_u [true; false; true] Sample.speech1 (replicate 189 true))
    91 3 = [true; false; true].
Proof.
  do 5 (split; [reflexivity|]).
  apply (TCH_class_bits_round_trip [true; false; true] Sample.speech1
           (replicate 189 true) Filler.fillerC (replicate 260 false)
           eq_refl eq_refl eq_refl eq_refl eq_refl).
Defined.

(** ** Speech latency control *)

Section SpeechQueueFacts.
Import TCHFACCHL1Encoder TCHFACCHQueues.

Lemma latencyControl_closed maxQ q :
  latencyControl maxQ q
  = drop (length q - Z.to_nat (maxQ mod 2 ^ 32)) q.
Proof.
  pose proof (Z.mod_pos_bound maxQ (2 ^ 32) ltac:(lia)) as Hm.
  induction q as [|f q IH]; [reflexivity|].
  cbn [latencyControl].
  destruct (Z.gtb_spec (Z.of_nat (length (f :: q))) (maxQ mod 2 ^ 32)) as [Hgt|Hle].
  - rewrite IH. cbn [length] in *.
    replace (S (length q) - Z.to_nat (maxQ mod 2 ^ 32))%nat
      with (S (length q - Z.to_nat (maxQ mod 2 ^ 32)))%nat by lia.
    reflexivity.
  - cbn [length] in *.
    replace (S (length q) - Z.to_nat (maxQ mod 2 ^ 32))%nat with 0%nat by lia.
    reflexivity.
Qed.

(** X11.  The speech latency control of [dispatch] keeps the newest
    frames: of a queue [q] it drops the oldest ones until at most
    [maxQ] are left, [maxQ] read as an unsigned 32-bit number.  For a
    configured latency [0 <= maxQ] at most [maxQ] frames are left; a
    negative one drops nothing from a queue shorter than 2^31 frames. *)
Theorem latencyControl_keeps_newest maxQ q :
  latencyControl maxQ q
  = drop (length q - Z.to_nat (maxQ mod 2 ^ 32)) q /\
  length (latencyControl maxQ q)
  = Nat.min (length q) (Z.to_nat (maxQ mod 2 ^ 32)) /\
  (0 <= maxQ < 2 ^ 31 ->
   Z.of_nat (length (latencyControl maxQ q)) <= maxQ) /\
  (- 2 ^ 31 <= maxQ < 0 -> Z.of_nat (length q) < 2 ^ 31 ->
   latencyControl maxQ q = q).
Proof.
  rewrite latencyControl_closed.
  pose proof (Z.mod_pos_bound maxQ (2 ^ 32) ltac:(lia)) as Hm.
  split; [reflexivity|]. split; [rewrite length_drop; lia|].
  split.
  - intros Hpos. rewrite length_drop, Z.mod_small by lia. lia.
  - intros Hneg Hshort.
    assert (maxQ mod 2 ^ 32 = maxQ + 2 ^ 32) as ->
      by (symmetry; apply (Z.mod_unique _ _ (-1)); lia).
    replace (length q - Z.to_nat (maxQ + 2 ^ 32))%nat with 0%nat by lia.
    reflexivity.
Qed.

End SpeechQueueFacts.

Lemma latencyControl_keeps_newest_witness :
  - 2 ^ 31 <= -1 < 0 /\
  Z.of_nat (length [Sample.speech1; Sample.speech2]) < 2 ^ 31 /\
  TCHFACCHL1Encoder.latencyControl (-1) [Sample.speech1; Sample.speech2]
  = [Sample.speech1; Sample.speech2].
Proof.
  assert (- 2 ^ 31 <= -1 < 0) as Hneg by lia.
  assert (Z.of_nat (length [Sample.speech1; Sample.speech2]) < 2 ^ 31) as Hshort
    by (cbn [length]; lia).
  split; [exact Hneg | split; [exact Hshort|]].
  exact (proj2 (proj2 (proj2 (latencyControl_keeps_newest (-1)
                                [Sample.speech1; Sample.speech2])))
           Hneg Hshort).
Defined.

(** ** Two turns of the TCH/FACCH service loop *)

Section TCHDispatchFacts.
Import Interleave TCHFACCHQueues.

Lemma selectBlock_keeps coders st :
  TCHFACCHL1Encoder.mOffset (snd (TCHFACCHL1Encoder.selectBlock coders st))
  = TCHFACCHL1Encoder.mOffset st /\
  TCHFACCHL1Encoder.mPreviousFACCH (snd (TCHFACCHL1Encoder.selectBlock coders st))
  = TCHFACCHL1Encoder.mPreviousFACCH st /\
  TCHFACCHL1Encoder.mI (snd (TCHFACCHL1Encoder.selectBlock coders st))
  = TCHFACCHL1Encoder.mI st /\
  TCHFACCHL1Encoder.mL2Q (snd (TCHFACCHL1Encoder.selectBlock coders st))
  = tail (TCHFACCHL1Encoder.mL2Q st) /\
  fst (TCHFACCHL1Encoder.selectBlock coders st)
  = match TCHFACCHL1Encoder.mL2Q st with [] => false | _ => true end.
Proof.
  unfold TCHFACCHL1Encoder.selectBlock.
  destruct (TCHFACCHL1Encoder.mL2Q st) as [|fFrame l2q].
  - destruct (TCHFACCHL1Encoder.mSpeechQ st); repeat split.
  - destruct (TCHFACCHL1Encoder.encode coders _) as [u' c]. repeat split.
Qed.

Lemma dispatch_active coders cfg st :
  exists blk st',
    TCHFACCHL1Encoder.dispatch coders cfg true st = (Some blk, st') /\
    TCHFACCHL1Encoder.mI st'
    = TCHFACCHL1Encoder.interleave (TCHFACCHL1Encoder.mOffset st)
        (TCHFACCHL1Encoder.mC st') (TCHFACCHL1Encoder.mI st) /\
    TCHFACCHL1Encoder.mOffset st'
    = (if TCHFACCHL1Encoder.mOffset st =? 0 then 4 else 0) /\
    TCHFACCHL1Encoder.mPreviousFACCH st'
    = match TCHFACCHL1Encoder.mL2Q st with [] => false | _ => true end /\
    TCHFACCHL1Encoder.mL2Q st' = tail (TCHFACCHL1Encoder.mL2Q st) /\
    TCHFACCHL1Encoder.bursts blk
    = map (fun B =>
             mkTxBurst
               (segment (default [] (TCHFACCHL1Encoder.mI st'
                                       !! Z.to_nat (B + TCHFACCHL1Encoder.mOffset st)))
                        0 57)
               (segment (default [] (TCHFACCHL1Encoder.mI st'
                                       !! Z.to_nat (B + TCHFACCHL1Encoder.mOffset st)))
                        57 57)
               (TCHFACCHL1Encoder.mPreviousFACCH st)
               (TCHFACCHL1Encoder.mPreviousFACCH st'))
          [0; 1; 2; 3].
Proof.
  unfold TCHFACCHL1Encoder.dispatch. cbn [negb].
  set (st1 := TCHFACCHL1Encoder.mkState _ _ _ _ _ _ _).
  pose proof (selectBlock_keeps coders st1) as (Ho & Hp & Hi & Hq & Hc).
  destruct (TCHFACCHL1Encoder.selectBlock coders st1) as [cur st2].
  cbn [fst snd] in Ho, Hp, Hi, Hq, Hc. subst st1.
  cbn [TCHFACCHL1Encoder.mOffset TCHFACCHL1Encoder.mPreviousFACCH
       TCHFACCHL1Encoder.mI TCHFACCHL1Encoder.mL2Q] in Ho, Hp, Hi, Hq, Hc.
  eexists _, _. split; [reflexivity|].
  unfold TCHFACCHL1Encoder.burstOf.
  cbn [TCHFACCHL1Encoder.mOffset TCHFACCHL1Encoder.mPreviousFACCH
       TCHFACCHL1Encoder.mI TCHFACCHL1Encoder.mC TCHFACCHL1Encoder.mL2Q
       TCHFACCHL1Encoder.bursts].
  rewrite Ho, Hp, Hi, Hq, Hc. repeat split.
Qed.

Lemma arrive_keeps fs q st :
  TCHFACCHL1Encoder.mOffset (arrive fs q st) = TCHFACCHL1Encoder.mOffset st /\
  TCHFACCHL1Encoder.mPreviousFACCH (arrive fs q st)
  = TCHFACCHL1Encoder.mPreviousFACCH st /\
  TCHFACCHL1Encoder.mI (arrive fs q st) = TCHFACCHL1Encoder.mI st /\
  TCHFACCHL1Encoder.mL2Q (arrive fs q st) = TCHFACCHL1Encoder.mL2Q st ++ fs.
Proof.
  unfold arrive, TCHFACCHL1Encoder.with_speechQ.
  cbn [TCHFACCHL1Encoder.mOffset TCHFACCHL1Encoder.mPreviousFACCH
       TCHFACCHL1Encoder.mI TCHFACCHL1Encoder.mL2Q].
  revert st. induction fs as [|f fs IH]; intros st.
  - rewrite app_nil_r. repeat split.
  - cbn [fold_left]. destruct (IH (sendFrame f st)) as (H1 & H2 & H3 & H4).
    rewrite H1, H2, H3, H4. unfold sendFrame.
    cbn [TCHFACCHL1Encoder.mOffset TCHFACCHL1Encoder.mPreviousFACCH
         TCHFACCHL1Encoder.mI TCHFACCHL1Encoder.mL2Q].
    rewrite <- app_assoc. repeat split.
Qed.

(** X12.  The stealing flags of consecutive TCH/FACCH blocks are chained
    and the FACCH queue is served one frame per turn: whatever arrives
    in the queues between two turns of [dispatch] on an active channel,
    each turn sends four bursts, all bursts of a turn carry the same
    flags, [Hu] tells whether the turn found a FACCH frame queued, [Hl]
    of the second turn is [Hu] of the first, and the row offset
    alternates, 4 after a turn that began at 0 and 0 otherwise. *)
Theorem dispatch_hands_stealing_flag_on coders cfg st fs q :
  let r1 := TCHFACCHL1Encoder.dispatch coders cfg true st in
  let r2 := TCHFACCHL1Encoder.dispatch coders cfg true (arrive fs q (snd r1)) in
  length (sent r1) = 4%nat /\ length (sent r2) = 4%nat /\
  Forall (fun x =>
            tx_Hl x = TCHFACCHL1Encoder.mPreviousFACCH st /\
            tx_Hu x = match TCHFACCHL1Encoder.mL2Q st with
                      | [] => false | _ => true end) (sent r1) /\
  Forall (fun y =>
            tx_Hl y = match TCHFACCHL1Encoder.mL2Q st with
                      | [] => false | _ => true end /\
            tx_Hu y = match tail (TCHFACCHL1Encoder.mL2Q st) ++ fs with
                      | [] => false | _ => true end) (sent r2) /\
  TCHFACCHL1Encoder.mOffset (snd r1)
  = (if TCHFACCHL1Encoder.mOffset st =? 0 then 4 else 0) /\
  TCHFACCHL1Encoder.mOffset (snd r2)
  = (if TCHFACCHL1Encoder.mOffset st =? 0 then 0 else 4).
Proof.
  intros r1 r2. subst r1 r2.
  destruct (dispatch_active coders cfg st)
    as (b1 & s1 & E1 & _ & HO1 & HP1 & HQ1 & HB1).
  rewrite E1. cbn [snd].
  destruct (dispatch_active coders cfg (arrive fs q s1))
    as (b2 & s2 & E2 & _ & HO2 & HP2 & HQ2 & HB2).
  rewrite E2. cbn [snd]. unfold sent. cbn [fst].
  destruct (arrive_keeps fs q s1) as (AO & AP & _ & AQ).
  rewrite AO, HO1 in HO2. rewrite AP, HP1 in HB2.
  rewrite AQ, HQ1 in HP2. rewrite HP1 in HB1. rewrite HP2 in HB2.
  rewrite HB1, HB2.
  split; [reflexivity|]. split; [reflexivity|].
  split; [repeat constructor|]. split; [repeat constructor|].
  split; [exact HO1|].
  rewrite HO2. destruct (TCHFACCHL1Encoder.mOffset st =? 0); reflexivity.
Qed.

End TCHDispatchFacts.

(** ** A TCH/FACCH block from the encoder's [c[]] to the decoder's [c[]] *)

Section TCHLoopback.
Import Interleave TCHFACCHQueues.

Lemma shape_8_rows {A} (m : list (list A)) :
  shape_ok 8 m ->
  exists r0 r1 r2 r3 r4 r5 r6 r7,
    m = [r0; r1; r2; r3; r4; r5; r6; r7] /\
    length r0 = 114%nat /\ length r1 = 114%nat /\
    length r2 = 114%nat /\ length r3 = 114%nat /\
    length r4 = 114%nat /\ length r5 = 114%nat /\
    length r6 = 114%nat /\ length r7 = 114%nat.
Proof.
  intros [Hlen Hrows].
  destruct m as [|r0 [|r1 [|r2 [|r3 [|r4 [|r5 [|r6 [|r7 [|]]]]]]]]];
    try discriminate.
  exists r0, r1, r2, r3, r4, r5, r6, r7. split; [reflexivity|].
  repeat match goal with
         | H : Forall _ (_ :: _) |- _ =>
             let a := fresh "Hrow" in
             let b := fresh "Hrest" in
             apply Forall_cons_1 in H; destruct H as [a b]
         end.
  repeat split; assumption.
Qed.

Lemma TCH_interleave_spec o c mI0 :
  o = 0 \/ o = 4 ->
  shape_ok 8 mI0 ->
  shape_ok 8 (TCHFACCHL1Encoder.interleave o c mI0) /\
  forall k, 0 <= k < 456 ->
    get2 false (TCHFACCHL1Encoder.interleave o c mI0)
         (fst (index_TCH o k)) (snd (index_TCH o k))
    = bit_at c k.
Proof.
  intros Ho Hsh.
  exact (interleave_upto_inv (index_TCH o) 8 (TCH_injective o Ho)
           (fun k => TCH_range o k Ho) c mI0 456 (le_n _) Hsh).
Qed.

(** Cells that the interleaver's index map does not reach keep their
    bit. *)
Lemma interleave_keeps index (c : list bool) (mI0 : list (list bool)) B j n :
  (forall k, 0 <= k < Z.of_nat n ->
     0 <= fst (index k) /\ 0 <= snd (index k) /\ index k <> (B, j)) ->
  0 <= B -> 0 <= j ->
  get2 false (fold_left (interleave_step index c) (seqZ 0 (Z.of_nat n)) mI0) B j
  = get2 false mI0 B j.
Proof.
  intros Hidx HB Hj. induction n as [|n IH]; [reflexivity|].
  rewrite seqZ_S, fold_left_app. cbn [fold_left]. rewrite Z.add_0_l.
  unfold interleave_step at 1.
  destruct (Hidx (Z.of_nat n) ltac:(lia)) as (H1 & H2 & H3).
  destruct (index (Z.of_nat n)) as [Bn jn]. cbn [fst snd] in H1, H2.
  rewrite get2_set2_ne by (try lia; exact H3).
  apply IH. intros k Hk. apply Hidx. lia.
Qed.

Lemma TCH_interleave_keeps o c mI0 B j :
  o = 0 \/ o = 4 ->
  0 <= B < 8 -> 0 <= j < 114 ->
  Z.rem j 2 <> Z.quot (Z.rem (B + 8 - o) 8) 4 ->
  get2 false (TCHFACCHL1Encoder.interleave o c mI0) B j = get2 false mI0 B j.
Proof.
  intros Ho HB Hj Hpar.
  apply (interleave_keeps (index_TCH o) c mI0 B j 456); try lia.
  intros k Hk. change (Z.of_nat 456) with 456 in Hk.
  destruct (TCH_range o k Ho Hk) as [HBk Hjk].
  split; [lia | split; [lia|]].
  intros Heq. apply Hpar.
  assert (exists k, 0 <= k < 456 /\ index_TCH o k = (B, j)) as Hex by eauto.
  apply (TCH_image o Ho) in Hex. tauto.
Qed.

Lemma get2_row_eq {A} (d : A) (m m' : list (list A)) B j :
  m !! Z.to_nat B = m' !! Z.to_nat B ->
  get2 d m B j = get2 d m' B j.
Proof. intros H. unfold get2. rewrite H. reflexivity. Qed.

Lemma TCH_processBurst_store rm b st B :
  Z.rem (rm (FN (time b))) 8 = B ->
  In B [0; 1; 2; 4; 5; 6] ->
  TCHFACCHL1Decoder.processBurst rm b st
  = Some (None, with_rows (recordPhy b st) (storeBurst B b (mI st))).
Proof.
  intros HB Hin. unfold TCHFACCHL1Decoder.processBurst. rewrite HB.
  unfold In in Hin.
  destruct Hin as [<-|[<-|[<-|[<-|[<-|[<-|[]]]]]]]; reflexivity.
Qed.

Lemma TCH_processBurst_final rm b st B :
  Z.rem (rm (FN (time b))) 8 = B ->
  In B [3; 7] ->
  TCHFACCHL1Decoder.processBurst rm b st
  = Some (Some (if B =? 3 then 4 else 0),
          TCHFACCHL1Decoder.deinterleave (if B =? 3 then 4 else 0)
            (with_rows (recordPhy b st) (storeBurst B b (mI st)))).
Proof.
  intros HB Hin. unfold TCHFACCHL1Decoder.processBurst. rewrite HB.
  unfold In in Hin.
  destruct Hin as [<-|[<-|[]]]; reflexivity.
Qed.

Lemma processBursts_store rm b bs st st1 os st2 :
  TCHFACCHL1Decoder.processBurst rm b st = Some (None, st1) ->
  TCHFACCHL1Decoder.processBursts rm bs st1 = Some (os, st2) ->
  TCHFACCHL1Decoder.processBursts rm (b :: bs) st = Some (os, st2).
Proof.
  intros H1 H2. cbn [TCHFACCHL1Decoder.processBursts].
  rewrite H1. cbn [mbind option_bind]. rewrite H2. reflexivity.
Qed.

Lemma processBursts_final rm b bs st off st1 os st2 :
  TCHFACCHL1Decoder.processBurst rm b st = Some (Some off, st1) ->
  TCHFACCHL1Decoder.processBursts rm bs st1 = Some (os, st2) ->
  TCHFACCHL1Decoder.processBursts rm (b :: bs) st = Some (off :: os, st2).
Proof.
  intros H1 H2. cbn [TCHFACCHL1Decoder.processBursts].
  rewrite H1. cbn [mbind option_bind]. rewrite H2. reflexivity.
Qed.

Lemma TCH_deinterleave_wf o st :
  o = 0 \/ o = 4 ->
  well_formed 8 st ->
  well_formed 8 (TCHFACCHL1Decoder.deinterleave o st).
Proof.
  intros Ho [HC Hsh].
  destruct (deinterleave_spec (index_TCH o) 8 (TCH_injective o Ho)
              (fun k => TCH_range o k Ho) (mC st) (mI st) HC Hsh)
    as (HC' & Hsh' & _).
  split; assumption.
Qed.

(** X13.  A TCH/FACCH block survives the way from the encoder's [c[]]
    to the decoder's [c[]] across two turns of [dispatch]: the block
    coded in a turn that begins at row offset 0 goes out half in the four
    bursts of that turn and half in the four bursts of the next turn,
    interleaved with the next block.  Received without noise in the
    frames of indices 0 to 7, the eight bursts make the decoder
    deinterleave twice, with block offsets 4 and 0, and the second
    deinterleaving leaves exactly the 456 bits of the first turn in the
    decoder's [c[]]; the flag [Hl] of the last burst, which the decoder
    reads as "stolen", tells whether that block was a FACCH frame. *)
Theorem TCH_block_over_two_dispatches coders cfg tsc rm
        (t : Z -> Time) (r e : Z -> Q) st fs q dst :
  TCHFACCHL1Encoder.mOffset st = 0 ->
  shape_ok 8 (TCHFACCHL1Encoder.mI st) ->
  well_formed 8 dst ->
  (forall B, 0 <= B < 8 -> Z.rem (rm (FN (t B))) 8 = B) ->
  let r1 := TCHFACCHL1Encoder.dispatch coders cfg true st in
  let r2 := TCHFACCHL1Encoder.dispatch coders cfg true (arrive fs q (snd r1)) in
  let received :=
    zip_with (fun B tx => Radio.receive tsc (t B) (r B) (e B) tx)
             [0; 1; 2; 3; 4; 5; 6; 7] (sent r1 ++ sent r2) in
  exists stF,
    TCHFACCHL1Decoder.processBursts rm received dst = Some ([4; 0], stF) /\
    (forall k, 0 <= k < 456 ->
       mC stF !! Z.to_nat k
       = Some (soft_of_bit (bit_at (TCHFACCHL1Encoder.mC (snd r1)) k))) /\
    (forall rb, last received = Some rb ->
       Hl rb = match TCHFACCHL1Encoder.mL2Q st with
               | [] => false | _ => true end).
Proof.
  intros Hoff HshE [HC HshD] Hrm r1 r2 received. subst received r2 r1.
  destruct (dispatch_active coders cfg st)
    as (b1 & s1 & E1 & HI1 & HO1 & HP1 & _ & HB1).
  rewrite E1. cbn [snd].
  destruct (dispatch_active coders cfg (arrive fs q s1))
    as (b2 & s2 & E2 & HI2 & _ & HP2 & _ & HB2).
  rewrite E2. unfold sent. cbn [fst].
  destruct (arrive_keeps fs q s1) as (AO & AP & AI & _).
  rewrite Hoff in HI1, HO1, HB1. change (0 =? 0) with true in HO1.
  cbv iota in HO1.
  rewrite AO, HO1, AI in HI2. rewrite AO, HO1, AP, HP1 in HB2.
  rewrite HP1 in HB1.
  set (c1 := TCHFACCHL1Encoder.mC s1) in *.
  set (c2 := TCHFACCHL1Encoder.mC s2) in *.
  set (hl1 := TCHFACCHL1Encoder.mPreviousFACCH st) in *.
  set (hu1 := match TCHFACCHL1Encoder.mL2Q st with
              | [] => false | _ => true end) in *.
  set (hu2 := TCHFACCHL1Encoder.mPreviousFACCH s2) in *.
  destruct (TCH_interleave_spec 0 c1 _ (or_introl eq_refl) HshE)
    as [Hsh1 Hcells1].
  rewrite <- HI1 in Hsh1, Hcells1.
  destruct (TCH_interleave_spec 4 c2 _ (or_intror eq_refl) Hsh1) as [Hsh2 _].
  rewrite <- HI2 in Hsh2.
  destruct (shape_8_rows _ Hsh1)
    as (e0 & e1 & e2 & e3 & e4 & e5 & e6 & e7 & HE
        & Le0 & Le1 & Le2 & Le3 & Le4 & Le5 & Le6 & Le7).
  destruct (shape_8_rows _ Hsh2)
    as (f0 & f1 & f2 & f3 & f4 & f5 & f6 & f7 & HF
        & Lf0 & Lf1 & Lf2 & Lf3 & Lf4 & Lf5 & Lf6 & Lf7).
  destruct (shape_8_rows _ HshD)
    as (d0 & d1 & d2 & d3 & d4 & d5 & d6 & d7 & HD
        & Ld0 & Ld1 & Ld2 & Ld3 & Ld4 & Ld5 & Ld6 & Ld7).
  rewrite HE in HB1. rewrite HF in HB2.
  change (map _ [0; 1; 2; 3])
    with [mkTxBurst (segment e0 0 57) (segment e0 57 57) hl1 hu1;
          mkTxBurst (segment e1 0 57) (segment e1 57 57) hl1 hu1;
          mkTxBurst (segment e2 0 57) (segment e2 57 57) hl1 hu1;
          mkTxBurst (segment e3 0 57) (segment e3 57 57) hl1 hu1] in HB1.
  change (map _ [0; 1; 2; 3])
    with [mkTxBurst (segment f4 0 57) (segment f4 57 57) hu1 hu2;
          mkTxBurst (segment f5 0 57) (segment f5 57 57) hu1 hu2;
          mkTxBurst (segment f6 0 57) (segment f6 57 57) hu1 hu2;
          mkTxBurst (segment f7 0 57) (segment f7 57 57) hu1 hu2] in HB2.
  rewrite HB1, HB2. cbn [app zip_with].
  set (rb0 := Radio.receive tsc (t 0) (r 0) (e 0) _).
  set (rb1 := Radio.receive tsc (t 1) (r 1) (e 1) _).
  set (rb2 := Radio.receive tsc (t 2) (r 2) (e 2) _).
  set (rb3 := Radio.receive tsc (t 3) (r 3) (e 3) _).
  set (rb4 := Radio.receive tsc (t 4) (r 4) (e 4) _).
  set (rb5 := Radio.receive tsc (t 5) (r 5) (e 5) _).
  set (rb6 := Radio.receive tsc (t 6) (r 6) (e 6) _).
  set (rb7 := Radio.receive tsc (t 7) (r 7) (e 7) _).
  assert (Z.rem (rm (FN (time rb0))) 8 = 0) as HB0' by (apply (Hrm 0); lia).
  assert (Z.rem (rm (FN (time rb1))) 8 = 1) as HB1' by (apply (Hrm 1); lia).
  assert (Z.rem (rm (FN (time rb2))) 8 = 2) as HB2' by (apply (Hrm 2); lia).
  assert (Z.rem (rm (FN (time rb3))) 8 = 3) as HB3' by (apply (Hrm 3); lia).
  assert (Z.rem (rm (FN (time rb4))) 8 = 4) as HB4' by (apply (Hrm 4); lia).
  assert (Z.rem (rm (FN (time rb5))) 8 = 5) as HB5' by (apply (Hrm 5); lia).
  assert (Z.rem (rm (FN (time rb6))) 8 = 6) as HB6' by (apply (Hrm 6); lia).
  assert (Z.rem (rm (FN (time rb7))) 8 = 7) as HB7' by (apply (Hrm 7); lia).
  (* The first four bursts and the deinterleaving with block offset 4. *)
  assert (storeBurst 3 rb3 (storeBurst 2 rb2 (storeBurst 1 rb1
            (storeBurst 0 rb0 (mI dst))))
          = [map soft_of_bit e0; map soft_of_bit e1; map soft_of_bit e2;
             map soft_of_bit e3; d4; d5; d6; d7]) as Hrows3.
  { rewrite HD.
    change (storeBurst 3 rb3 (storeBurst 2 rb2 (storeBurst 1 rb1
              (storeBurst 0 rb0 [d0; d1; d2; d3; d4; d5; d6; d7]))))
      with [Radio.copyBurst rb0 d0; Radio.copyBurst rb1 d1;
            Radio.copyBurst rb2 d2; Radio.copyBurst rb3 d3; d4; d5; d6; d7].
    unfold Radio.copyBurst, rb0, rb1, rb2, rb3.
    rewrite !store_received_row by assumption. reflexivity. }
  set (rows3 := [map soft_of_bit e0; map soft_of_bit e1; map soft_of_bit e2;
                 map soft_of_bit e3; d4; d5; d6; d7]) in *.
  assert (shape_ok 8 rows3) as Hsh3
    by (split; [reflexivity
               | repeat constructor; rewrite ?length_map; assumption]).
  destruct (deinterleave_spec (index_TCH 4) 8 (TCH_injective 4 (or_intror eq_refl))
              (fun k => TCH_range 4 k (or_intror eq_refl)) (mC dst) rows3 HC Hsh3)
    as (HC3 & HshG & _ & _ & Hkept3).
  set (r3 := deinterleave (index_TCH 4) (mC dst, rows3)) in *.
  destruct (shape_8_rows _ HshG)
    as (g0 & g1 & g2 & g3 & g4 & g5 & g6 & g7 & HG
        & Lg0 & Lg1 & Lg2 & Lg3 & Lg4 & Lg5 & Lg6 & Lg7).
  (* The last four bursts and the deinterleaving with block offset 0. *)
  assert (storeBurst 7 rb7 (storeBurst 6 rb6 (storeBurst 5 rb5
            (storeBurst 4 rb4 (snd r3))))
          = [g0; g1; g2; g3; map soft_of_bit f4; map soft_of_bit f5;
             map soft_of_bit f6; map soft_of_bit f7]) as Hrows7.
  { rewrite HG.
    change (storeBurst 7 rb7 (storeBurst 6 rb6 (storeBurst 5 rb5
              (storeBurst 4 rb4 [g0; g1; g2; g3; g4; g5; g6; g7]))))
      with [g0; g1; g2; g3; Radio.copyBurst rb4 g4; Radio.copyBurst rb5 g5;
            Radio.copyBurst rb6 g6; Radio.copyBurst rb7 g7].
    unfold Radio.copyBurst, rb4, rb5, rb6, rb7.
    rewrite !store_received_row by assumption. reflexivity. }
  set (rows7 := [g0; g1; g2; g3; map soft_of_bit f4; map soft_of_bit f5;
                 map soft_of_bit f6; map soft_of_bit f7]) in *.
  assert (shape_ok 8 rows7) as Hsh7
    by (split; [reflexivity
               | repeat constructor; rewrite ?length_map; assumption]).
  destruct (deinterleave_spec (index_TCH 0) 8 (TCH_injective 0 (or_introl eq_refl))
              (fun k => TCH_range 0 k (or_introl eq_refl)) (fst r3) rows7 HC3 Hsh7)
    as (_ & _ & Hcopied7 & _).
  pose (S0 := with_rows (recordPhy rb0 dst) (storeBurst 0 rb0 (mI dst))).
  pose (S1 := with_rows (recordPhy rb1 S0) (storeBurst 1 rb1 (mI S0))).
  pose (S2 := with_rows (recordPhy rb2 S1) (storeBurst 2 rb2 (mI S1))).
  pose (S3 := TCHFACCHL1Decoder.deinterleave 4
                (with_rows (recordPhy rb3 S2) (storeBurst 3 rb3 (mI S2)))).
  pose (S4 := with_rows (recordPhy rb4 S3) (storeBurst 4 rb4 (mI S3))).
  pose (S5 := with_rows (recordPhy rb5 S4) (storeBurst 5 rb5 (mI S4))).
  pose (S6 := with_rows (recordPhy rb6 S5) (storeBurst 6 rb6 (mI S5))).
  pose (S7 := TCHFACCHL1Decoder.deinterleave 0
                (with_rows (recordPhy rb7 S6) (storeBurst 7 rb7 (mI S6)))).
  exists S7. split; [|split].
  - apply (processBursts_store rm rb0 _ dst S0 [4; 0] S7);
      [apply (TCH_processBurst_store rm rb0 dst 0 HB0'); unfold In; lia|].
    apply (processBursts_store rm rb1 _ S0 S1 [4; 0] S7);
      [apply (TCH_processBurst_store rm rb1 S0 1 HB1'); unfold In; lia|].
    apply (processBursts_store rm rb2 _ S1 S2 [4; 0] S7);
      [apply (TCH_processBurst_store rm rb2 S1 2 HB2'); unfold In; lia|].
    apply (processBursts_final rm rb3 _ S2 4 S3 [0] S7);
      [apply (TCH_processBurst_final rm rb3 S2 3 HB3'); unfold In; lia|].
    apply (processBursts_store rm rb4 _ S3 S4 [0] S7);
      [apply (TCH_processBurst_store rm rb4 S3 4 HB4'); unfold In; lia|].
    apply (processBursts_store rm rb5 _ S4 S5 [0] S7);
      [apply (TCH_processBurst_store rm rb5 S4 5 HB5'); unfold In; lia|].
    apply (processBursts_store rm rb6 _ S5 S6 [0] S7);
      [apply (TCH_processBurst_store rm rb6 S5 6 HB6'); unfold In; lia|].
    apply (processBursts_final rm rb7 _ S6 0 S7 [] S7);
      [apply (TCH_processBurst_final rm rb7 S6 7 HB7'); unfold In; lia|].
    reflexivity.
  - intros k Hk.
    change (mC S7)
      with (fst (deinterleave (index_TCH 0)
                   (fst (deinterleave (index_TCH 4)
                           (mC dst,
                            storeBurst 3 rb3 (storeBurst 2 rb2 (storeBurst 1 rb1
                              (storeBurst 0 rb0 (mI dst)))))),
                    storeBurst 7 rb7 (storeBurst 6 rb6 (storeBurst 5 rb5
                      (storeBurst 4 rb4
                         (snd (deinterleave (index_TCH 4)
                                 (mC dst,
                                  storeBurst 3 rb3 (storeBurst 2 rb2
                                    (storeBurst 1 rb1
                                       (storeBurst 0 rb0 (mI dst))))))))))))).
    rewrite Hrows3. fold r3. rewrite Hrows7.
    rewrite (Hcopied7 k Hk). f_equal.
    specialize (Hcells1 k Hk).
    assert (0 <= fst (index_TCH 0 k) < 8 /\ 0 <= snd (index_TCH 0 k) < 114 /\
            Z.rem (snd (index_TCH 0 k)) 2
            = Z.quot (Z.rem (fst (index_TCH 0 k) + 8 - 0) 8) 4) as Hin.
    { apply (TCH_image 0 (or_introl eq_refl)). exists k. split; [exact Hk|].
      destruct (index_TCH 0 k); reflexivity. }
    destruct (index_TCH 0 k) as [B j]. cbn [fst snd] in *.
    destruct Hin as (HB & Hj & Hpar).
    destruct (TCH_parity_flip B HB) as [[P0 P4] | [P0 P4]].
    + (* a row of the first turn *)
      assert (B < 4) as Hlow.
      { destruct (Z.lt_ge_cases B 4) as [|Hge]; [assumption|].
        exfalso. assert (B = 4 \/ B = 5 \/ B = 6 \/ B = 7) as Hc by lia.
        destruct Hc as [-> | [-> | [-> | ->]]]; discriminate P0. }
      assert (rows7 !! Z.to_nat B = snd r3 !! Z.to_nat B) as Hr7.
      { rewrite HG. assert (B = 0 \/ B = 1 \/ B = 2 \/ B = 3) as Hc by lia.
        destruct Hc as [-> | [-> | [-> | ->]]]; reflexivity. }
      rewrite (get2_row_eq _ _ _ _ _ Hr7).
      rewrite Hkept3; try lia.
      * assert (rows3 !! Z.to_nat B
                = map (map soft_of_bit) (TCHFACCHL1Encoder.mI s1) !! Z.to_nat B)
          as Hr3.
        { rewrite HE. assert (B = 0 \/ B = 1 \/ B = 2 \/ B = 3) as Hc by lia.
          destruct Hc as [-> | [-> | [-> | ->]]]; reflexivity. }
        rewrite (get2_row_eq _ _ _ _ _ Hr3), get2_soft, Hcells1. reflexivity.
      * intros k' Hk' Heq.
        assert (exists k, 0 <= k < 456 /\ index_TCH 4 k = (B, j)) as Hex by eauto.
        apply (TCH_image 4 (or_intror eq_refl)) in Hex.
        destruct Hex as (_ & _ & Hp4). rewrite P4, Hpar, P0 in Hp4.
        discriminate Hp4.
    + (* a row of the second turn *)
      assert (4 <= B) as Hhigh.
      { destruct (Z.lt_ge_cases B 4) as [Hlt|]; [|assumption].
        exfalso. assert (B = 0 \/ B = 1 \/ B = 2 \/ B = 3) as Hc by lia.
        destruct Hc as [-> | [-> | [-> | ->]]]; discriminate P0. }
      assert (rows7 !! Z.to_nat B
              = map (map soft_of_bit) (TCHFACCHL1Encoder.mI s2) !! Z.to_nat B)
        as Hr7.
      { rewrite HF. assert (B = 4 \/ B = 5 \/ B = 6 \/ B = 7) as Hc by lia.
        destruct Hc as [-> | [-> | [-> | ->]]]; reflexivity. }
      rewrite (get2_row_eq _ _ _ _ _ Hr7), get2_soft, HI2.
      rewrite (TCH_interleave_keeps 4 c2 _ B j (or_intror eq_refl) HB Hj)
        by (rewrite P4, Hpar, P0; discriminate).
      rewrite Hcells1. reflexivity.
  - intros rb Hlast. change (Some rb7 = Some rb) in Hlast.
    injection Hlast as <-. unfold rb7.
    apply receive_flags. cbn [tx_data1]. unfold segment.
    rewrite length_take, length_drop. lia.
Qed.

End TCHLoopback.


Lemma TCH_block_over_two_dispatches_witness :
  TCHFACCHL1Encoder.mOffset Sample.encoder = 0 /\
  shape_ok 8 (TCHFACCHL1Encoder.mI Sample.encoder) /\
  well_formed 8 (Sample.deint 8) /\
  exists stF,
    TCHFACCHL1Decoder.processBursts Sample.reverseMapping
      (zip_with (fun B tx =>
                   Radio.receive Sample2.tsc (Sample2.frameTime B)
                     (Sample2.rssi B) (Sample2.timing B) tx)
         [0; 1; 2; 3; 4; 5; 6; 7]
         (TCHFACCHQueues.sent
            (TCHFACCHL1Encoder.dispatch Sample.coders Sample.config true
               Sample.encoder)
          ++ TCHFACCHQueues.sent
               (TCHFACCHL1Encoder.dispatch Sample.coders Sample.config true
                  (TCHFACCHQueues.arrive [] [Sample.speech1]
                     (snd (TCHFACCHL1Encoder.dispatch Sample.coders
                             Sample.config true Sample.encoder))))))
      (Sample.deint 8) = Some ([4; 0], stF) /\
    (forall k, 0 <= k < 456 ->
       mC stF !! Z.to_nat k
       = Some (soft_of_bit
                 (Interleave.bit_at
                    (TCHFACCHL1Encoder.mC
                       (snd (TCHFACCHL1Encoder.dispatch Sample.coders
                               Sample.config true Sample.encoder))) k))) /\
    (forall rb,
       last (zip_with (fun B tx =>
                   Radio.receive Sample2.tsc (Sample2.frameTime B)
                     (Sample2.rssi B) (Sample2.timing B) tx)
         [0; 1; 2; 3; 4; 5; 6; 7]
         (TCHFACCHQueues.sent
            (TCHFACCHL1Encoder.dispatch Sample.coders Sample.config true
               Sample.encoder)
          ++ TCHFACCHQueues.sent
               (TCHFACCHL1Encoder.dispatch Sample.coders Sample.config true
                  (TCHFACCHQueues.arrive [] [Sample.speech1]
                     (snd (TCHFACCHL1Encoder.dispatch Sample.coders
                             Sample.config true Sample.encoder))))))
       = Some rb ->
       Hl rb = match TCHFACCHL1Encoder.mL2Q Sample.encoder with
               | [] => false | _ => true end).
Proof.
  assert (shape_ok 8 (TCHFACCHL1Encoder.mI Sample.encoder)) as HE
    by (split; [reflexivity | cbn; repeat constructor]).
  assert (well_formed 8 (Sample.deint 8)) as HD
    by (split; [reflexivity | split; [reflexivity | cbn; repeat constructor]]).
  split; [reflexivity | split; [exact HE | split; [exact HD|]]].
  apply (TCH_block_over_two_dispatches Sample.coders Sample.config
           Sample2.tsc Sample.reverseMapping Sample2.frameTime
           Sample2.rssi Sample2.timing Sample.encoder [] [Sample.speech1]
           (Sample.deint 8) eq_refl HE HD).
  intros B HB. cbn. apply Z.rem_small. lia.
Defined.

(** ** What the SACCH decoder believes of the handset *)

Section SACCHActuals.
Import Power PowerSpan.

Lemma field_of_bits_bound bs : forall acc,
  0 <= acc ->
  0 <= fold_left (fun a (b : bool) => 2 * a + (if b then 1 else 0)) bs acc
    < (acc + 1) * 2 ^ Z.of_nat (length bs).
Proof.
  induction bs as [|b bs IH]; intros acc Hacc.
  - cbn. lia.
  - cbn [fold_left length]. rewrite Nat2Z.inj_succ, Z.pow_succ_r by lia.
    specialize (IH (2 * acc + (if b then 1 else 0))
                   ltac:(destruct b; lia)).
    assert (0 < 2 ^ Z.of_nat (length bs)) as Hpow by (apply Z.pow_pos_nonneg; lia).
    destruct b; nia.
Qed.

Lemma peekField_bound v i n :
  0 <= BitVector.peekField v i n < 2 ^ Z.of_nat n.
Proof.
  unfold BitVector.peekField, BitVector.field_of_bits.
  pose proof (field_of_bits_bound (take n (drop i v)) 0 ltac:(lia)) as Hb.
  assert (2 ^ Z.of_nat (length (take n (drop i v))) <= 2 ^ Z.of_nat n) as Hle
    by (apply Z.pow_le_mono_r; [lia | rewrite length_take; lia]).
  lia.
Qed.

Lemma handleGoodFrame_spec band table upstream u st :
  pickTable band = Some table ->
  exists st',
    SACCHPhy.handleGoodFrame band upstream u st = Some st' /\
    (mRSSI (SACCHL1Decoder.phy st') = mRSSI (SACCHL1Decoder.phy st) /\
     mTimingError (SACCHL1Decoder.phy st')
     = mTimingError (SACCHL1Decoder.phy st) /\
     SACCHL1Decoder.phyNew st'
     = SACCHL1Decoder.phyNew st && negb upstream) /\
    0 <= BitVector.peekField u 3 5 < 32 /\
    SACCHL1Decoder.mActualMSPower st'
    = at_code table (BitVector.peekField u 3 5) /\
    fst (dense band) <= SACCHL1Decoder.mActualMSPower st' <= top band /\
    SACCHL1Decoder.mActualMSTiming st'
    = (if BitVector.peekField u 9 7 <? 64 then BitVector.peekField u 9 7
       else SACCHL1Decoder.mActualMSTiming st).
Proof.
  intros Htable.
  pose proof (peekField_bound u 3 5) as Hcode.
  change (2 ^ Z.of_nat 5) with 32 in Hcode.
  unfold SACCHPhy.handleGoodFrame, decodePower. rewrite Htable.
  cbn [mbind option_bind].
  destruct (Z.leb_spec 0 (BitVector.peekField u 3 5)); [|lia].
  destruct (Z.ltb_spec (BitVector.peekField u 3 5) 32); [|lia].
  cbn [andb mbind option_bind].
  eexists. split; [reflexivity|].
  unfold SACCHL1Decoder.phyNew.
  cbn [SACCHL1Decoder.phy SACCHL1Decoder.mActualMSPower
       SACCHL1Decoder.mActualMSTiming].
  split.
  { unfold XCCHL1Decoder.handleGoodFrame.
    destruct upstream; cbv zeta.
    - unfold XCCHL1Decoder.RSSI, XCCHL1Decoder.TA, XCCHL1Decoder.timingError,
        XCCHL1Decoder.clearPhyNew.
      cbn [fst snd mRSSI mTimingError mPhyNew].
      rewrite andb_false_r. auto.
    - cbn [snd negb]. rewrite andb_true_r. auto. }
  split; [exact Hcode|]. split; [reflexivity|].
  split; [|reflexivity].
  pose proof (span_ok_tables band table Htable) as Hspan.
  unfold span_ok in Hspan. destruct (dense band) as [lo hi]. cbn [fst].
  rewrite !andb_true_iff in Hspan.
  destruct Hspan as [[[_ Hbounds] _] _].
  pose proof (all_codes_spec _ Hbounds _ Hcode) as Hc.
  rewrite andb_true_iff, !Z.leb_le in Hc. exact Hc.
Qed.

(** X14.  In a band with a power table, [SACCHL1Decoder::handleGoodFrame]
    never reads outside the table: the power field of the physical header
    has five bits.  After [open] and any run of good frames the timing
    advance the decoder believes the handset uses lies in 0..63, a
    timing field of 64 or more being ignored, and the power it believes
    is the 33 dBm of [open] or, once a frame has come in, an entry of the
    table.  The measurement arrays are left alone; the closing call of
    [XCCHL1Decoder::handleGoodFrame] clears the new-measurement flag
    when an upstream is connected and leaves it alone otherwise. *)
Theorem SACCH_actuals_stay_in_range band table upstream us st :
  pickTable band = Some table ->
  exists st',
    SACCHPhy.handleGoodFrames band upstream us (SACCHPhy.decoder_open st)
    = Some st' /\
    (mRSSI (SACCHL1Decoder.phy st') = mRSSI (SACCHL1Decoder.phy st) /\
     mTimingError (SACCHL1Decoder.phy st')
     = mTimingError (SACCHL1Decoder.phy st) /\
     SACCHL1Decoder.phyNew st'
     = match us with
       | [] => SACCHL1Decoder.phyNew st
       | _ :: _ => SACCHL1Decoder.phyNew st && negb upstream
       end) /\
    0 <= SACCHL1Decoder.mActualMSTiming st' <= 63 /\
    match last us with
    | None => SACCHL1Decoder.mActualMSPower st' = 33
    | Some u =>
        SACCHL1Decoder.mActualMSPower st'
        = at_code table (BitVector.peekField u 3 5) /\
        fst (dense band) <= SACCHL1Decoder.mActualMSPower st' <= top band
    end.
Proof.
  intros Htable.
  assert (forall l s,
            0 <= SACCHL1Decoder.mActualMSTiming s <= 63 ->
            exists st',
              SACCHPhy.handleGoodFrames band upstream l s = Some st' /\
              (mRSSI (SACCHL1Decoder.phy st') = mRSSI (SACCHL1Decoder.phy s) /\
               mTimingError (SACCHL1Decoder.phy st')
               = mTimingError (SACCHL1Decoder.phy s) /\
               SACCHL1Decoder.phyNew st'
               = match l with
                 | [] => SACCHL1Decoder.phyNew s
                 | _ :: _ => SACCHL1Decoder.phyNew s && negb upstream
                 end) /\
              0 <= SACCHL1Decoder.mActualMSTiming st' <= 63 /\
              match last l with
              | None => SACCHL1Decoder.mActualMSPower st'
                        = SACCHL1Decoder.mActualMSPower s
              | Some u =>
                  SACCHL1Decoder.mActualMSPower st'
                  = at_code table (BitVector.peekField u 3 5) /\
                  fst (dense band) <= SACCHL1Decoder.mActualMSPower st'
                  <= top band
              end) as Hrun.
  { clear st. intros l. induction l as [|u l IH]; intros s Hs.
    - exists s. cbn. auto 6.
    - destruct (handleGoodFrame_spec band table upstream u s Htable)
        as (s1 & E1 & (HR1 & HT1 & HN1) & _ & Hpow & Hrange & Htim).
      assert (0 <= SACCHL1Decoder.mActualMSTiming s1 <= 63) as Hs1.
      { rewrite Htim. pose proof (peekField_bound u 9 7) as Hb.
        destruct (Z.ltb_spec (BitVector.peekField u 9 7) 64); lia. }
      destruct (IH s1 Hs1) as (st' & E2 & (HR2 & HT2 & HN2) & Htim2 & Hlast).
      exists st'. cbn [SACCHPhy.handleGoodFrames]. rewrite E1.
      cbn [mbind option_bind]. split; [exact E2|].
      split.
      { split; [congruence|]. split; [congruence|].
        rewrite HN2, HN1.
        destruct l; [reflexivity|].
        destruct (SACCHL1Decoder.phyNew s), upstream; reflexivity. }
      split; [exact Htim2|].
      destruct l as [|u2 l2].
      + cbn in E2. injection E2 as <-. cbn [last]. split; assumption.
      + change (last (u :: u2 :: l2)) with (last (u2 :: l2)).
        destruct (last (u2 :: l2)) eqn:El; [exact Hlast|].
        apply last_None in El. discriminate El. }
  destruct (Hrun us (SACCHPhy.decoder_open st))
    as (st' & E & Hphy & Htim & Hlast); [cbn; lia|].
  exists st'. split; [exact E|]. split; [exact Hphy|]. split; [exact Htim|].
  exact Hlast.
Qed.

End SACCHActuals.

Lemma SACCH_actuals_stay_in_range_witness :
  Power.pickTable Power.PCS1900 = Some Power.powerCommand1900 /\
  exists st',
    SACCHPhy.handleGoodFrames Power.PCS1900 true
      [replicate 16 true; replicate 16 false]
      (SACCHPhy.decoder_open Sample.sacchDecoder) = Some st' /\
    (mRSSI (SACCHL1Decoder.phy st')
     = mRSSI (SACCHL1Decoder.phy Sample.sacchDecoder) /\
     mTimingError (SACCHL1Decoder.phy st')
     = mTimingError (SACCHL1Decoder.phy Sample.sacchDecoder) /\
     SACCHL1Decoder.phyNew st'
     = SACCHL1Decoder.phyNew Sample.sacchDecoder && negb true) /\
    0 <= SACCHL1Decoder.mActualMSTiming st' <= 63 /\
    match last [replicate 16 true; replicate 16 false] with
    | None => SACCHL1Decoder.mActualMSPower st' = 33
    | Some u =>
        SACCHL1Decoder.mActualMSPower st'
        = Power.at_code Power.powerCommand1900 (BitVector.peekField u 3 5) /\
        fst (PowerSpan.dense Power.PCS1900)
        <= SACCHL1Decoder.mActualMSPower st' <= PowerSpan.top Power.PCS1900
    end.
Proof.
  split; [reflexivity|].
  apply (SACCH_actuals_stay_in_range Power.PCS1900 Power.powerCommand1900
           true [replicate 16 true; replicate 16 false]
           Sample.sacchDecoder eq_refl).
Defined.

(** ** The closed loop in [float] *)

(** X15.  In [float] arithmetic the damped step of the closed loop need
    not end between the old order and the target.  With 20 dBm ordered,
    20 dBm in use, the measured RSSI on target and a damping of 4
    percent, the target is 20 dBm as well, which is what [setPhy] would
    order; the closed loop computes [d*20 + (1.0F - d)*20] with
    [d = 4 * 0.01F], orders the [float] 19.999998 and, since the header
    carries the order cut to an integer, sends the power code 12 of
    19 dBm where 20 dBm has the code 11. *)
Theorem closedLoop_float_step_leaves_target :
  let cfg := mkConfig 2 (-40) 33 5 4 62 50 in
  let phy := SACCHPhy.decoder_setPhy (-40) 0 Sample.sacchDecoder in
  let sib := {| SACCHL1Decoder.phy := SACCHL1Decoder.phy phy;
                SACCHL1Decoder.mActualMSPower := 20;
                SACCHL1Decoder.mActualMSTiming := 0 |} in
  let st := SACCHL1Encoder.mkState 20 0 in
  let st' := fst (SACCHL1Encoder.closedLoop cfg sib st) in
  fst (XCCHL1Decoder.RSSI (SACCHL1Decoder.phy sib)) = (-40)%Q /\
  SACCHL1Encoder.mOrderedMSPower (fst (SACCHPhy.encoder_setPhy cfg sib st))
  = 20%Q /\
  SACCHL1Encoder.mOrderedMSPower st' = (10485759 # 524288)%Q /\
  (SACCHL1Encoder.mOrderedMSPower st' < 20)%Q /\
  SACCHL1Encoder.phyHeader Power.EGSM900 st = Some (11, 0) /\
  SACCHL1Encoder.phyHeader Power.EGSM900 st' = Some (12, 0).
Proof. vm_compute. repeat split. Qed.

(** ** Runs of bad speech frames *)

Section BadFrameRuns.
Import TCHFACCHL1Decoder.

Lemma badFrames_cons r rs prev :
  badFrames (r :: rs) prev
  = (muteFrame r prev :: fst (badFrames rs (muteFrame r prev)),
     snd (badFrames rs (muteFrame r prev))).
Proof.
  cbn [badFrames].
  destruct (decodeTCH_bad_frame_in_place r prev) as (Hout & Hprev & _).
  rewrite Hout, Hprev.
  destruct (badFrames rs (muteFrame r prev)). reflexivity.
Qed.

Lemma land_127_twice b : Z.land (Z.land b 127) 127 = Z.land b 127.
Proof. rewrite <- Z.land_assoc. reflexivity. Qed.

(** X16.  A run of bad speech frames touches eight bytes only: for each
    bad frame [decodeTCH] hands one frame of 33 bytes to the speech
    channel, the buffer [mPrevGoodFrame] as it stands after the muting;
    in every one of these frames the bytes other than 6, 13, 20, 27 and
    7, 14, 21, 28 are those of the last good frame, and the bytes 7, 14,
    21, 28 are those of the last good frame with the top bit cleared. *)
Theorem bad_frame_run_footprint randoms prev :
  length prev = 33%nat ->
  length (fst (badFrames randoms prev)) = length randoms /\
  last (prev :: fst (badFrames randoms prev))
  = Some (snd (badFrames randoms prev)) /\
  Forall (fun f =>
            length f = 33%nat /\
            (forall i, 0 <= i -> ~ In i [6; 7; 13; 14; 20; 21; 27; 28] ->
               byte_at f i = byte_at prev i) /\
            (forall i, In i [0; 1; 2; 3] ->
               byte_at f (7 + 7 * i) = Z.land (byte_at prev (7 + 7 * i)) 127))
         (fst (badFrames randoms prev)).
Proof.
  revert prev. induction randoms as [|r rs IH]; intros prev Hlen.
  - cbn. repeat split. constructor.
  - rewrite badFrames_cons. cbn [fst snd length].
    assert (length (muteFrame r prev) = 33%nat) as Hlen'
      by (rewrite muteFrame_length; exact Hlen).
    destruct (IH (muteFrame r prev) Hlen') as (Hn & Hlast & Hall).
    split; [rewrite Hn; reflexivity|]. split.
    + rewrite last_cons_cons. exact Hlast.
    + constructor.
      * split; [exact Hlen'|]. split.
        -- intros i Hi Hnot. apply muteFrame_other_bytes; assumption.
        -- intros i Hi. apply muteFrame_clears_top_bit; assumption.
      * eapply Forall_impl; [exact Hall|].
        intros f (Hf & Hother & Htop). split; [exact Hf|]. split.
        -- intros i Hi Hnot. rewrite (Hother i Hi Hnot).
           apply muteFrame_other_bytes; assumption.
        -- intros i Hi. rewrite (Htop i Hi).
           rewrite (muteFrame_clears_top_bit r prev i Hlen Hi).
           apply land_127_twice.
Qed.

End BadFrameRuns.

Lemma bad_frame_run_footprint_witness :
  length Sample.goodFrame = 33%nat /\
  length (fst (TCHFACCHL1Decoder.badFrames [fun _ => 3; fun i => i]
                 Sample.goodFrame)) = 2%nat.
Proof.
  split; [reflexivity|].
  exact (proj1 (bad_frame_run_footprint [fun _ => 3; fun i => i]
                  Sample.goodFrame eq_refl)).
Defined.

(** ** The bit order of the octets *)

Section OctetOrder.
Import BitVector.

Lemma LSB8MSB_fuel_length n : forall v, length (LSB8MSB_fuel n v) = length v.
Proof.
  induction n as [|n IH]; intros v; cbn [LSB8MSB_fuel]; [reflexivity|].
  destruct (Nat.ltb_spec (length v) 8) as [Hlt|Hge]; [reflexivity|].
  rewrite length_app, length_rev, length_take, IH, length_drop. lia.
Qed.

Lemma LSB8MSB_fuel_twice n : forall v,
  (length v <= n)%nat -> LSB8MSB_fuel n (LSB8MSB_fuel n v) = v.
Proof.
  induction n as [|n IH]; intros v Hlen; [reflexivity|].
  cbn [LSB8MSB_fuel].
  destruct (Nat.ltb_spec (length v) 8) as [Hlt|Hge].
  - cbn [LSB8MSB_fuel].
    destruct (Nat.ltb_spec (length v) 8); [reflexivity | lia].
  - cbn [LSB8MSB_fuel].
    assert (length (rev (take 8 v)) = 8%nat) as H8
      by (rewrite length_rev, length_take; lia).
    destruct (Nat.ltb_spec
                (length (rev (take 8 v) ++ LSB8MSB_fuel n (drop 8 v))) 8)
      as [Hlt|_].
    + rewrite length_app, H8 in Hlt. lia.
    + rewrite take_app_length' by (symmetry; exact H8).
      rewrite drop_app_length' by (symmetry; exact H8).
      rewrite rev_involutive, IH by (rewrite length_drop; lia).
      apply take_drop.
Qed.

(** X17.  The swap of the bit order within each octet that
    [XCCHL1Encoder::sendFrame] applies to [d[]] before encoding and
    [XCCHL1Decoder::writeLowSide] applies to the decoded [d[]] cancel:
    applying [LSB8MSB], a swap within each whole octet, twice gives the
    frame back, whatever its length, and the swap keeps the length. *)
Theorem LSB8MSB_twice v :
  LSB8MSB (LSB8MSB v) = v /\ length (LSB8MSB v) = length v.
Proof.
  unfold LSB8MSB. rewrite LSB8MSB_fuel_length.
  split; [apply LSB8MSB_fuel_twice; lia | reflexivity].
Qed.

End OctetOrder.

(** ** XCCH rows between frames *)

Section XCCHRows.
Import Interleave.

Lemma rows_eq_of_cells {A} (d : A) rows (m m' : list (list A)) :
  shape_ok rows m -> shape_ok rows m' ->
  (forall B j, 0 <= B < Z.of_nat rows -> 0 <= j < 114 ->
     get2 d m B j = get2 d m' B j) ->
  m = m'.
Proof.
  intros [Hlen Hrows] [Hlen' Hrows'] Hcells.
  rewrite Forall_lookup in Hrows, Hrows'.
  apply list_eq. intros i.
  destruct (Nat.lt_ge_cases i rows) as [Hi|Hi].
  - destruct (lookup_lt_is_Some_2 m i) as [row Hrow]; [lia|].
    destruct (lookup_lt_is_Some_2 m' i) as [row' Hrow']; [lia|].
    rewrite Hrow, Hrow'. f_equal. apply list_eq. intros c.
    pose proof (Hrows _ _ Hrow) as Hl. pose proof (Hrows' _ _ Hrow') as Hl'.
    destruct (Nat.lt_ge_cases c 114) as [Hc|Hc].
    + destruct (lookup_lt_is_Some_2 row c) as [x Hx]; [lia|].
      destruct (lookup_lt_is_Some_2 row' c) as [x' Hx']; [lia|].
      rewrite Hx, Hx'. f_equal.
      specialize (Hcells (Z.of_nat i) (Z.of_nat c) ltac:(lia) ltac:(lia)).
      rewrite (get2_lookup d m _ _ row x) in Hcells
        by (rewrite Nat2Z.id; assumption).
      rewrite (get2_lookup d m' _ _ row' x') in Hcells
        by (rewrite Nat2Z.id; assumption).
      exact Hcells.
    + rewrite !lookup_ge_None_2 by lia. reflexivity.
  - rewrite !lookup_ge_None_2 by lia. reflexivity.
Qed.

(** X18.  [XCCHL1Encoder::interleave] overwrites all of [i[][]]: the four
    rows it leaves depend on the coded block [c[]] alone, not on what the
    rows held before, so that no bit of an earlier frame is sent again. *)
Theorem XCCH_interleave_forgets_rows c m1 m2 :
  shape_ok 4 m1 -> shape_ok 4 m2 ->
  XCCHL1Encoder.interleave c m1 = XCCHL1Encoder.interleave c m2.
Proof.
  intros H1 H2.
  destruct (interleave_upto_inv index_XCCH 4 XCCH_injective XCCH_range
              c m1 456 (le_n _) H1) as [Hsh1 Hc1].
  destruct (interleave_upto_inv index_XCCH 4 XCCH_injective XCCH_range
              c m2 456 (le_n _) H2) as [Hsh2 Hc2].
  apply (rows_eq_of_cells false 4); [exact Hsh1 | exact Hsh2 |].
  intros B j HB Hj.
  destruct (proj2 (XCCH_image B j)) as [k [Hk Heq]]; [cbn in HB; lia|].
  specialize (Hc1 k Hk). specialize (Hc2 k Hk).
  rewrite Heq in Hc1, Hc2. cbn [fst snd] in Hc1, Hc2.
  change (fold_left (interleave_step index_XCCH c) (seqZ 0 (Z.of_nat 456)) m1)
    with (XCCHL1Encoder.interleave c m1) in Hc1.
  change (fold_left (interleave_step index_XCCH c) (seqZ 0 (Z.of_nat 456)) m2)
    with (XCCHL1Encoder.interleave c m2) in Hc2.
  rewrite Hc1, Hc2. reflexivity.
Qed.

End XCCHRows.

Lemma XCCH_interleave_forgets_rows_witness :
  shape_ok 4 Sample2.rows4 /\
  shape_ok 4 (replicate 4 (replicate 114 true)) /\
  XCCHL1Encoder.interleave Filler.fillerC Sample2.rows4
  = XCCHL1Encoder.interleave Filler.fillerC (replicate 4 (replicate 114 true)).
Proof.
  assert (shape_ok 4 Sample2.rows4) as H1
    by (split; [reflexivity | cbn; repeat constructor]).
  assert (shape_ok 4 (replicate 4 (replicate 114 true))) as H2
    by (split; [reflexivity | cbn; repeat constructor]).
  split; [exact H1 | split; [exact H2|]].
  apply (XCCH_interleave_forgets_rows Filler.fillerC _ _ H1 H2).
Defined.

(** ** The two sides of a link *)

Section LinkFacts.
Context {T : Type} `{Z100Timer T}.
Import L1Link.

Lemma step_keeps_sides (st : L1Link.State T) e :
  (encoder_mActive st = true -> L1Decoder.mActive (decoder st) = true) ->
  encoder_mActive (step st e) = true ->
  L1Decoder.mActive (decoder (step st e)) = true.
Proof.
  intros Hinv. destruct e as [[| | |]| | |t1 t2 t3]; cbn; auto; discriminate.
Qed.

(** X19.  The transmit side of a link is never active without the
    receive side: from a state in which the encoder being marked active
    implies the decoder being marked active, as after construction, no
    sequence of L2 primitives, of [L1FEC::open] and [L1FEC::close], and
    of timer changes leads to a state in which [L1Encoder::active] holds
    and [L1Decoder::active], hence [L1FEC::active], does not.  The
    primitive ERROR leaves the encoder inactive and the decoder as it
    is. *)
Theorem encoder_active_only_with_decoder events (st : L1Link.State T) :
  (encoder_mActive st = true -> L1Decoder.mActive (decoder st) = true) ->
  (encoder_active (run events st) = true ->
   L1Link.active (run events st) = true) /\
  encoder_active (writeHighSide ERROR (run events st)) = false /\
  decoder (writeHighSide ERROR (run events st)) = decoder (run events st).
Proof.
  intros Hinv.
  assert (encoder_mActive (run events st) = true ->
          L1Decoder.mActive (decoder (run events st)) = true) as Hrun.
  { unfold run. revert st Hinv.
    induction events as [|e events IH]; intros st Hinv; [exact Hinv|].
    cbn [fold_left]. apply IH. apply step_keeps_sides. exact Hinv. }
  split; [|split; reflexivity].
  unfold encoder_active, L1Link.active, L1Decoder.active.
  rewrite !andb_true_iff. intros [Henc Hrec].
  split; [apply Hrun, Henc | exact Hrec].
Qed.

End LinkFacts.

Lemma encoder_active_only_with_decoder_witness :
  (L1Link.encoder_mActive (L1Link.mkState true Sample.decoder) = true ->
   L1Decoder.mActive (L1Link.decoder (L1Link.mkState true Sample.decoder))
   = true) /\
  (L1Link.encoder_active
     (L1Link.run [L1Link.FromL2 ESTABLISH; L1Link.FromL2 DATA]
        (L1Link.mkState true Sample.decoder)) = true ->
   L1Link.active
     (L1Link.run [L1Link.FromL2 ESTABLISH; L1Link.FromL2 DATA]
        (L1Link.mkState true Sample.decoder)) = true).
Proof.
  assert (L1Link.encoder_mActive (L1Link.mkState true Sample.decoder) = true ->
          L1Decoder.mActive
            (L1Link.decoder (L1Link.mkState true Sample.decoder)) = true)
    as Hinv by (intros _; reflexivity).
  split; [exact Hinv|].
  exact (proj1 (encoder_active_only_with_decoder
                  [L1Link.FromL2 ESTABLISH; L1Link.FromL2 DATA]
                  (L1Link.mkState true Sample.decoder) Hinv)).
Defined.

(** ** The speech path of the TCH/FACCH service loop *)

Section SpeechPath.
Import TCHFACCHQueues.

Lemma copyToSegment_all {A} (src other : list A) :
  length src = length other ->
  BitVector.copyToSegment src other 0 = src.
Proof.
  intros Hlen. unfold BitVector.copyToSegment. apply list_eq. intros i.
  destruct (Nat.lt_ge_cases i (length src)) as [Hi|Hi].
  - rewrite list_lookup_inserts by lia. f_equal. lia.
  - rewrite list_lookup_inserts_ge by lia.
    rewrite !lookup_ge_None_2 by lia. reflexivity.
Qed.

(** X20.  With no FACCH frame queued and a configured latency
    [0 <= maxQ < 2^31], a turn of [dispatch] on an active channel sends
    the oldest of the newest [maxQ] speech frames, coded by [encodeTCH],
    and leaves the frames after it queued; with no speech frame left it
    sends the filler block.  The bursts carry [Hu = 0] and [u[]] is left
    alone. *)
Theorem dispatch_sends_oldest_kept_speech coders cfg st :
  TCHFACCHL1Encoder.mL2Q st = [] ->
  0 <= GSM_MaxSpeechLatency cfg < 2 ^ 31 ->
  length (TCHFACCHL1Encoder.mC st) = 456%nat ->
  let kept :=
    drop (length (TCHFACCHL1Encoder.mSpeechQ st)
          - Z.to_nat (GSM_MaxSpeechLatency cfg))
         (TCHFACCHL1Encoder.mSpeechQ st) in
  let r := TCHFACCHL1Encoder.dispatch coders cfg true st in
  TCHFACCHL1Encoder.mC (snd r)
  = match kept with
    | f :: _ => TCHFACCHL1Encoder.encodeTCH coders f
    | [] => Filler.fillerC
    end /\
  TCHFACCHL1Encoder.mSpeechQ (snd r) = tail kept /\
  TCHFACCHL1Encoder.mL2Q (snd r) = [] /\
  TCHFACCHL1Encoder.mPreviousFACCH (snd r) = false /\
  TCHFACCHL1Encoder.mU (snd r) = TCHFACCHL1Encoder.mU st /\
  length (sent r) = 4%nat /\
  Forall (fun tx => tx_Hu tx = false) (sent r).
Proof.
  intros HL2 Hq HC kept r. subst kept r.
  unfold TCHFACCHL1Encoder.dispatch, TCHFACCHL1Encoder.selectBlock, sent.
  cbn [negb TCHFACCHL1Encoder.mL2Q TCHFACCHL1Encoder.mSpeechQ
       TCHFACCHL1Encoder.mOffset TCHFACCHL1Encoder.mPreviousFACCH
       TCHFACCHL1Encoder.mU TCHFACCHL1Encoder.mC TCHFACCHL1Encoder.mI].
  rewrite HL2, latencyControl_closed, Z.mod_small by lia.
  destruct (drop _ (TCHFACCHL1Encoder.mSpeechQ st)) as [|f kept].
  - cbn [fst snd TCHFACCHL1Encoder.mL2Q TCHFACCHL1Encoder.mSpeechQ
         TCHFACCHL1Encoder.mPreviousFACCH TCHFACCHL1Encoder.mU
         TCHFACCHL1Encoder.mC TCHFACCHL1Encoder.bursts tail].
    rewrite copyToSegment_all by (rewrite fillerC_length, HC; reflexivity).
    repeat split. cbn [map]. repeat constructor.
  - cbn [fst snd TCHFACCHL1Encoder.mL2Q TCHFACCHL1Encoder.mSpeechQ
         TCHFACCHL1Encoder.mPreviousFACCH TCHFACCHL1Encoder.mU
         TCHFACCHL1Encoder.mC TCHFACCHL1Encoder.bursts tail].
    repeat split. cbn [map]. repeat constructor.
Qed.

End SpeechPath.

Lemma dispatch_sends_oldest_kept_speech_witness :
  TCHFACCHL1Encoder.mL2Q
    (TCHFACCHQueues.arrive [] [Sample.speech1; Sample.speech2; Sample.speech1]
       (snd (TCHFACCHL1Encoder.dispatch Sample.coders Sample.config true
               Sample.encoder))) = [] /\
  0 <= GSM_MaxSpeechLatency Sample.config < 2 ^ 31 /\
  TCHFACCHL1Encoder.mC
    (snd (TCHFACCHL1Encoder.dispatch Sample.coders Sample.config true
            (TCHFACCHQueues.arrive []
               [Sample.speech1; Sample.speech2; Sample.speech1]
               (snd (TCHFACCHL1Encoder.dispatch Sample.coders Sample.config
                       true Sample.encoder)))))
  = TCHFACCHL1Encoder.encodeTCH Sample.coders Sample.speech2.
Proof.
  assert (0 <= GSM_MaxSpeechLatency Sample.config < 2 ^ 31) as Hq
    by (split; vm_compute; [discriminate | reflexivity]).
  split; [reflexivity | split; [exact Hq|]].
  exact (proj1 (dispatch_sends_oldest_kept_speech Sample.coders Sample.config
                  (TCHFACCHQueues.arrive []
                     [Sample.speech1; Sample.speech2; Sample.speech1]
                     (snd (TCHFACCHL1Encoder.dispatch Sample.coders
                             Sample.config true Sample.encoder)))
                  eq_refl Hq eq_refl)).
Defined.
